(** * Helmholtz impedance solvers: a shallow embedding of [src/solvers.py]

    The file follows the classes of the module:
    [FEM_HelmholtzImpedance] (module [FEM]), [Exact_HelmholtzImpedance]
    (module [Exact]), [VPINN_HelmholtzImpedance] (module [VPINN]) and its
    subclass [VPINN_HelmholtzImpedanceHF] (module [VPINN_HF]).

    Conventions.
    - Python floats and complex numbers are read as the real numbers [R] and
      pairs of reals [C]; rounding is not part of this model.
    - A Python exception is a [Raise e] result; a method that mutates [self]
      or prints is a computation in the monad [M].
    - The collaborators imported by the module (the quadrature rule, the
      finite-element basis, the dense linear solver, the network's forward
      pass with automatic differentiation, the optimizer and the scheduler)
      are not part of the file: they are Section variables. *)

From Stdlib Require Import Reals Lra Lia ZArith String List Bool.
From Stdlib Require Import DecimalString.
From stdpp Require Import base list.
Import ListNotations.

(** ** Exceptions and results *)

Inductive exn : Type :=
| ValueError (msg : string)
| AttributeError (msg : string)
| TypeError (msg : string)
| AssertionError
| ZeroDivisionError
| IndexError
| LinAlgError
| RuntimeError.

Inductive result (A : Type) : Type :=
| Ok (v : A)
| Raise (e : exn).
Arguments Ok {A} v.
Arguments Raise {A} e.

Definition rbind {A B : Type} (r : result A) (k : A -> result B) : result B :=
  match r with
  | Ok v => k v
  | Raise e => Raise e
  end.

Declare Scope result_scope.
Delimit Scope result_scope with result.
Notation "x <- r ;; k" := (rbind r (fun x => k))
  (at level 100, r at next level, right associativity) : result_scope.

(** [mapR f xs]: a list comprehension whose element expression may raise. *)
Fixpoint mapR {A B : Type} (f : A -> result B) (xs : list A) : result (list B) :=
  match xs with
  | [] => Ok []
  | x :: xs' =>
      match f x with
      | Raise e => Raise e
      | Ok y =>
          match mapR f xs' with
          | Raise e => Raise e
          | Ok ys => Ok (y :: ys)
          end
      end
  end.

(** Python subscription [l[j]] on a sequence: a negative index counts from
    the end, an index outside [-len, len) raises [IndexError]. *)
Definition py_index {A : Type} (l : list A) (j : Z) : result A :=
  let n := Z.of_nat (length l) in
  let j' := if (j <? 0)%Z then (j + n)%Z else j in
  if ((0 <=? j') && (j' <? n))%Z then
    match l !! Z.to_nat j' with
    | Some v => Ok v
    | None => Raise IndexError
    end
  else Raise IndexError.

(** [range(lo, hi)] over Python integers. *)
Definition py_range (lo hi : Z) : list Z :=
  map (fun i : nat => (lo + Z.of_nat i)%Z) (seq 0 (Z.to_nat (hi - lo))).

(** ** Methods that mutate [self] and print

    A computation starts in a state, ends in a state, prints lines, and
    either returns or raises; the state reached when an exception is raised
    is kept, as the mutations made before a Python [raise] are. *)

Record outcome (St A : Type) : Type := mkOutcome {
  value : result A;
  state : St;
  stdout : list string
}.
Arguments mkOutcome {St A} value state stdout.
Arguments value {St A} o.
Arguments state {St A} o.
Arguments stdout {St A} o.

Definition M (St A : Type) : Type := St -> outcome St A.

Definition ret {St A : Type} (v : A) : M St A :=
  fun s => mkOutcome (Ok v) s [].

Definition raise {St A : Type} (e : exn) : M St A :=
  fun s => mkOutcome (Raise e) s [].

Definition bind {St A B : Type} (m : M St A) (k : A -> M St B) : M St B :=
  fun s =>
    let o := m s in
    match value o with
    | Raise e => mkOutcome (Raise e) (state o) (stdout o)
    | Ok v =>
        let o' := k v (state o) in
        mkOutcome (value o') (state o') (stdout o ++ stdout o')
    end.

Definition get {St : Type} : M St St :=
  fun s => mkOutcome (Ok s) s [].

Definition modify {St : Type} (f : St -> St) : M St unit :=
  fun s => mkOutcome (Ok tt) (f s) [].

Definition lift {St A : Type} (r : result A) : M St A :=
  fun s => mkOutcome r s [].

Definition print {St : Type} (line : string) : M St unit :=
  fun s => mkOutcome (Ok tt) s [line].

Declare Scope monad_scope.
Delimit Scope monad_scope with monad.
Notation "x <- m ;; k" := (bind m (fun x => k))
  (at level 100, m at next level, right associativity) : monad_scope.
Notation "m ;;; k" := (bind m (fun _ => k))
  (at level 100, right associativity) : monad_scope.

(** A [for] loop: the body runs on each element in turn and the loop stops
    at the first exception. *)
Fixpoint for_each {St X : Type} (xs : list X) (body : X -> M St unit) : M St unit :=
  match xs with
  | [] => ret tt
  | x :: xs' => bind (body x) (fun _ => for_each xs' body)
  end.

(** ** Complex numbers *)

Definition C : Type := R * R.

Module Cx.
Local Open Scope R_scope.

Definition re (z : C) : R := fst z.
Definition im (z : C) : R := snd z.
Definition of_R (x : R) : C := (x, 0).
Definition zero : C := (0, 0).
Definition j : C := (0, 1).
Definition add (z w : C) : C := (re z + re w, im z + im w).
Definition opp (z : C) : C := (- re z, - im z).
Definition sub (z w : C) : C := (re z - re w, im z - im w).
Definition mul (z w : C) : C :=
  (re z * re w - im z * im w, re z * im w + im z * re w).
Definition inv (z : C) : C :=
  (re z / (re z * re z + im z * im z), - im z / (re z * re z + im z * im z)).
Definition div (z w : C) : C := mul z (inv w).
(** [abs(z)] *)
Definition abs (z : C) : R := sqrt (re z * re z + im z * im z).
(** [np.exp(z)] *)
Definition exp (z : C) : C := (Rtrigo_def.exp (re z) * cos (im z),
                               Rtrigo_def.exp (re z) * sin (im z)).
Definition sum (zs : list C) : C := fold_right add zero zs.
End Cx.

Declare Scope C_scope.
Delimit Scope C_scope with C.
Bind Scope C_scope with C.
Notation "z + w" := (Cx.add z w) : C_scope.
Notation "z - w" := (Cx.sub z w) : C_scope.
Notation "z * w" := (Cx.mul z w) : C_scope.
Notation "z / w" := (Cx.div z w) : C_scope.
Notation "- z" := (Cx.opp z) : C_scope.

(** [np.sum] of a real array. *)
Definition Rsum (xs : list R) : R := fold_right Rplus 0%R xs.

(** The source term [f]: a number (source type ['const']) or a callable
    (source type ['func']); Python checks which one only when it is used. *)
Inductive src : Type :=
| Num (v : R)
| Fun (g : R -> R).

(** ** [FEM_HelmholtzImpedance] *)

Module FEM.

(** A basis function of [testfuncs.Finite_Elements]: callable, with
    [deriv(1)] its first derivative. *)
Record basis : Type := mkBasis {
  phi : R -> R;
  deriv1 : R -> R
}.

(** The object [Finite_Elements(N, a, b, dtype=np.ndarray)]: calling it
    gives the basis functions, and it integrates products of them. *)
Record Finite_Elements_obj : Type := mkFE {
  FE_call : list basis;
  intphi_x : Z -> Z -> R;
  intphi : Z -> Z -> R
}.

(** The two lambdas [solve] stores in [self.sol] and [self.der]; both read
    [self.c] and [self.bases] when they are called. *)
Inductive closure : Type := Lam_sol | Lam_der.

Record fem : Type := mkFem {
  source : string;
  f : src;
  k : R;
  a : R;
  b : R;
  ga : C;
  gb : C;
  N : nat;
  h : R;
  FE : Finite_Elements_obj;
  bases : list basis;
  N_quad : nat;
  x : list R;
  A : list (list C);
  d : list C;
  c : option (list C);
  sol : option closure;
  der : option closure;
  roots : list R;
  weights : list R
}.

Definition set_A (v : list (list C)) (s : fem) : fem :=
  mkFem (source s) (f s) (k s) (a s) (b s) (ga s) (gb s) (N s) (h s) (FE s)
        (bases s) (N_quad s) (x s) v (d s) (c s) (sol s) (der s)
        (roots s) (weights s).

Definition set_d (v : list C) (s : fem) : fem :=
  mkFem (source s) (f s) (k s) (a s) (b s) (ga s) (gb s) (N s) (h s) (FE s)
        (bases s) (N_quad s) (x s) (A s) v (c s) (sol s) (der s)
        (roots s) (weights s).

Definition set_solution (v : list C) (s : fem) : fem :=
  mkFem (source s) (f s) (k s) (a s) (b s) (ga s) (gb s) (N s) (h s) (FE s)
        (bases s) (N_quad s) (x s) (A s) (d s) (Some v) (Some Lam_sol)
        (Some Lam_der) (roots s) (weights s).

(** [np.linspace(a, b, num)] *)
Definition linspace (lo hi : R) (num : nat) : list R :=
  map (fun i : nat => (lo + INR i * ((hi - lo) / INR (num - 1)))%R) (seq 0 num).

(** [np.zeros(n, dtype=complex)] and [np.zeros((n, m), dtype=complex)] *)
Definition zeros (n : nat) : list C := replicate n Cx.zero.
Definition zeros2 (n m : nat) : list (list C) := replicate n (zeros m).

(** [v[i] = e] and [A[i, j] = e] on arrays, for indices that are not
    negative: outside the array numpy raises [IndexError]. *)
Definition setitem (v : list C) (i : nat) (e : C) : result (list C) :=
  if decide (i < length v) then Ok (<[i := e]> v) else Raise IndexError.

Definition setitem2 (m : list (list C)) (i j : nat) (e : C) : result (list (list C)) :=
  match m !! i with
  | None => Raise IndexError
  | Some row =>
      if decide (j < length row) then Ok (<[i := <[j := e]> row]> m)
      else Raise IndexError
  end.

Definition class_name : string := "FEM_HelmholtzImpedance".

(** The line printed when the solution is asked for before [solve]. *)
Definition solve_first : string :=
  String.append "Call "
    (String.append class_name ".solve() to find the FEM solution first.").

Section Solver.

(** Collaborators: [testfuncs.Finite_Elements],
    [quadrature_rules.gauss_lobatto_jacobi_quadrature1D] and
    [np.linalg.solve]. *)
Variable Finite_Elements : nat -> R -> R -> Finite_Elements_obj.
Variable gauss_lobatto_jacobi_quadrature1D : nat -> R -> R -> list R * list R.
Variable linalg_solve : list (list C) -> list C -> result (list C).

(** [__init__]. [N] is a count of elements; [(b - a) / N] divides by
    zero when it is 0. [N_quad] left at [None], or 0, selects
    [min(10 N, 1000)] quadrature points. *)
Definition init (f : src) (k a b : R) (ga gb : C) (source : string)
    (N : nat) (N_quad : option nat) : result fem :=
  if Nat.eqb N 0 then Raise ZeroDivisionError
  else
    let h := ((b - a) / INR N)%R in
    let FE := Finite_Elements N a b in
    let chosen :=
      if Nat.ltb 1000 (N * 10) then 1000%nat else (N * 10)%nat in
    let N_quad :=
      match N_quad with
      | None => chosen
      | Some q => if Nat.eqb q 0 then chosen else q
      end in
    let qp := gauss_lobatto_jacobi_quadrature1D N_quad a b in
    Ok (mkFem source f k a b ga gb N h FE (FE_call FE) N_quad
          (linspace a b (N + 1)) (zeros2 (N + 1) (N + 1)) (zeros (N + 1))
          None None None (fst qp) (snd qp)).

(** [intg]: [(b - a) * np.sum(func(roots) * weights) / 2]. *)
Definition intg (s : fem) (func : R -> R) : R :=
  ((b s - a s) * Rsum (zip_with Rmult (map func (roots s)) (weights s)) / 2)%R.

(** [lhs(i, j)] *)
Definition lhs (s : fem) (i j : Z) : result C :=
  (phi_i <- py_index (bases s) i ;;
   phi_j <- py_index (bases s) j ;;
   Ok (Cx.of_R (intphi_x (FE s) i j - k s ^ 2 * intphi (FE s) i j)
       - Cx.j * Cx.of_R (k s)
         * Cx.of_R (phi phi_i (a s) * phi phi_j (a s)
                    + phi phi_i (b s) * phi phi_j (b s)))%C)%result.

(** [rhs(j)]. The basis function is looked up first; the source type is
    tested next. *)
Definition rhs (s : fem) (j : Z) : result C :=
  (phi_j <- py_index (bases s) j ;;
   intfv <-
     (if String.eqb (source s) "const" then
        match f s with
        | Num v =>
            let intfv := (v * h s)%R in
            if ((j =? 0) || (j =? Z.of_nat (N s)))%Z
            then Ok (intfv / 2)%R else Ok intfv
        | Fun _ =>
            Raise (TypeError "unsupported operand type(s) for *: 'function' and 'float'")
        end
      else if String.eqb (source s) "func" then
        match f s with
        | Fun g => Ok (intg s (fun t => (g t * phi phi_j t)%R))
        | Num _ => Raise (TypeError "'float' object is not callable")
        end
      else
        Raise (ValueError (String.append (source s) " is not a valid source type."))) ;;
   Ok (Cx.of_R intfv + ga s * Cx.of_R (phi phi_j (a s))
       + gb s * Cx.of_R (phi phi_j (b s)))%C)%result.

(** One pass of the loop of [solve], for the row [i]. *)
Definition assemble_row (i : nat) : M fem unit :=
  (s <- get ;;
   r <- lift (rhs s (Z.of_nat i)) ;;
   d' <- lift (setitem (d s) i r) ;;
   modify (set_d d') ;;;
   e <- lift (lhs s (Z.of_nat i) (Z.of_nat i)) ;;
   s <- get ;;
   A' <- lift (setitem2 (A s) i i e) ;;
   modify (set_A A') ;;;
   (if negb (Nat.eqb i 0) then
      e <- lift (lhs s (Z.of_nat i) (Z.of_nat i - 1)) ;;
      s <- get ;;
      A' <- lift (setitem2 (A s) i (i - 1) e) ;;
      modify (set_A A')
    else ret tt) ;;;
   (if negb (Nat.eqb i (N s)) then
      e <- lift (lhs s (Z.of_nat i) (Z.of_nat i + 1)) ;;
      s <- get ;;
      A' <- lift (setitem2 (A s) i (i + 1) e) ;;
      modify (set_A A')
    else ret tt))%monad.

(** [solve] *)
Definition solve : M fem unit :=
  (s <- get ;;
   for_each (seq 0 (N s + 1)) assemble_row ;;;
   s <- get ;;
   c' <- lift (linalg_solve (A s) (d s)) ;;
   modify (set_solution c'))%monad.

(** The body of a stored lambda: the sum over [range(N + 1)] of
    [c[i] * bases[i](x)] (or of [c[i] * bases[i].deriv(1)(x)]). *)
Definition apply_closure (s : fem) (l : closure) (t : R) : result C :=
  match c s with
  | None => Raise (TypeError "'NoneType' object is not subscriptable")
  | Some cs =>
      (terms <- mapR (fun i : nat =>
                  ci <- py_index cs (Z.of_nat i) ;;
                  bi <- py_index (bases s) (Z.of_nat i) ;;
                  Ok (ci * Cx.of_R (match l with
                                    | Lam_sol => phi bi t
                                    | Lam_der => deriv1 bi t
                                    end))%C)
                (seq 0 (N s + 1)) ;;
       Ok (Cx.sum terms))%result
  end.

(** [__call__(x)]: [None] with a printed line before [solve], the pair
    [(sol(x), der(x))] after it. *)
Definition call (t : R) : M fem (option (C * C)) :=
  (s <- get ;;
   match sol s with
   | None => print solve_first ;;; ret None
   | Some l =>
       u <- lift (apply_closure s l t) ;;
       match der s with
       | None => raise (TypeError "'NoneType' object is not callable")
       | Some l' =>
           u' <- lift (apply_closure s l' t) ;;
           ret (Some (u, u'))
       end
   end)%monad.

(** [np.sum(func(roots) * weights)] for an integrand that may raise. *)
Definition intgR (s : fem) (func : R -> result R) : result R :=
  (vals <- mapR func (roots s) ;;
   Ok ((b s - a s) * Rsum (zip_with Rmult vals (weights s)) / 2)%R)%result.

(** The integrands [u2] and [ux2] of [H1_error]:
    [abs(u(x) - self.sol(x)) ** 2] and [abs(u_x(x) - self.der(x)) ** 2]. *)
Definition sq_err (s : fem) (l : option closure) (u : R -> C) (t : R) : result R :=
  match l with
  | None => Raise (TypeError "'NoneType' object is not callable")
  | Some l' => (e <- apply_closure s l' t ;; Ok (Cx.abs (u t - e) ^ 2)%R)%result
  end.

(** [H1_error(u, u_x)]: [None] with a printed line before [solve], the
    triple [(err_u + err_u_x, err_u, err_u_x)] after it. *)
Definition H1_error (u u_x : R -> C) : M fem (option (R * R * R)) :=
  (s <- get ;;
   match sol s with
   | None => print solve_first ;;; ret None
   | Some _ =>
       iu <- lift (intgR s (sq_err s (sol s) u)) ;;
       let err_u := sqrt iu in
       iux <- lift (intgR s (sq_err s (der s) u_x)) ;;
       let err_u_x := sqrt iux in
       ret (Some ((err_u + err_u_x)%R, err_u, err_u_x))
   end)%monad.

End Solver.

End FEM.


(** ** [Exact_HelmholtzImpedance] *)

Module Exact.

Record exact : Type := mkExact {
  source : option string;
  f : src;
  f_x : src;
  k : R;
  a : R;
  b : R;
  ga : C;
  gb : C;
  quad_N : nat;
  quadpoints : list R * list R
}.

(** [np.allclose(x, y, atol=atol)] on two complex scalars, with numpy's
    default [rtol = 1e-05]: [abs(x - y) <= atol + rtol * abs(y)]. *)
Definition rtol : R := (1 / 100000)%R.
Definition allclose (x y : C) (atol : R) : bool :=
  if Rle_dec (Cx.abs (x - y)) (atol + rtol * Cx.abs y) then true else false.

(** [np.sign] *)
Definition sign (t : R) : R :=
  if Rlt_dec t 0 then (-1)%R else if Rlt_dec 0 t then 1%R else 0%R.

Section Evaluator.

Variable gauss_lobatto_jacobi_quadrature1D : nat -> R -> R -> list R * list R.

(** [__init__]: [f] is the pair [(f, f_x)]. *)
Definition init (f : src * src) (k a b : R) (ga gb : C) (source : option string) : exact :=
  mkExact source (fst f) (snd f) k a b ga gb 500
          (gauss_lobatto_jacobi_quadrature1D 500 a b).

(** [w(x)] and [w_x(x)] *)
Definition w (s : exact) (t : R) : C :=
  (- Cx.exp (Cx.j * Cx.of_R (k s)) / ((0, 2)%R * Cx.of_R (k s))
   * (ga s * Cx.exp (Cx.j * Cx.of_R (k s) * Cx.of_R t)
      + gb s * Cx.exp (- Cx.j * Cx.of_R (k s) * Cx.of_R t)))%C.

Definition w_x (s : exact) (t : R) : C :=
  (- Cx.exp (Cx.j * Cx.of_R (k s)) / Cx.of_R 2
   * (ga s * Cx.exp (Cx.j * Cx.of_R (k s) * Cx.of_R t)
      - gb s * Cx.exp (- Cx.j * Cx.of_R (k s) * Cx.of_R t)))%C.

(** [intg(func)] with the stored quadrature points:
    [(roots[-1] - roots[0]) * np.sum(func(roots) * weights) / 2]. The two
    nodes are looked up first, then [func] is called, once, on the array
    of the nodes. *)
Definition intg (s : exact) (func : list R -> result (list C)) : result C :=
  let roots := fst (quadpoints s) in
  let weights := snd (quadpoints s) in
  (r_last <- py_index roots (-1) ;;
   r_first <- py_index roots 0 ;;
   vals <- func roots ;;
   Ok (Cx.of_R (r_last - r_first)
       * Cx.sum (zip_with (fun v wt => v * Cx.of_R wt) vals weights)
       / Cx.of_R 2)%C)%result.

Definition is_const (s : exact) : bool :=
  match source s with
  | Some name => String.eqb name "const"
  | None => false
  end.

(** [self.f(s)] on the array of the nodes. A number is not callable: the
    message of the [TypeError] names its type, ['float'] here (['int'] for
    a Python int, which this model does not tell from a float). *)
Definition call_f (s : exact) (ys : list R) : result (list R) :=
  match f s with
  | Fun g => Ok (map g ys)
  | Num _ => Raise (TypeError "'float' object is not callable")
  end.

(** [uG(x)] at a scalar [x]. With the source type ['const'], [self.f] is
    negated, then divided by [k ** 2]: Python raises [ZeroDivisionError]
    for [k = 0]. With any other source type, [G(x, s)] is evaluated on the
    nodes, dividing [-.5] by [1j * k], before [self.f(s)] is called. *)
Definition uG (s : exact) (t : R) : result C :=
  if is_const s then
    match f s with
    | Num v =>
        if Req_dec_T (k s) 0 then Raise ZeroDivisionError
        else
          Ok (Cx.of_R (- v / k s ^ 2)
              * (Cx.of_R 1 - Cx.exp (Cx.j * Cx.of_R (k s)) * Cx.of_R (cos (k s * t))))%C
    | Fun _ => Raise (TypeError "bad operand type for unary -: 'function'")
    end
  else
    let G := fun (t' : R) (ys : list R) =>
      if Req_dec_T (k s) 0 then Raise ZeroDivisionError
      else
        Ok (map (fun y : R =>
                   (Cx.of_R (- (1 / 2)) / (Cx.j * Cx.of_R (k s))
                    * Cx.exp (Cx.j * Cx.of_R (k s) * Cx.of_R (Rabs (t' - y))))%C) ys) in
    intg s (fun ys =>
              (gs <- G t ys ;;
               fs <- call_f s ys ;;
               Ok (zip_with (fun g v => (g * Cx.of_R v)%C) gs fs))%result).

(** [uG_x(x)] at a scalar [x]. With the source type ['const'], [self.f] is
    negated, then divided by [k]; with any other source type, [G_x(x, s)],
    which divides by nothing, is evaluated before [self.f(s)] is called. *)
Definition uG_x (s : exact) (t : R) : result C :=
  if is_const s then
    match f s with
    | Num v =>
        if Req_dec_T (k s) 0 then Raise ZeroDivisionError
        else
          Ok (Cx.of_R (- v / k s)
              * (Cx.exp (Cx.j * Cx.of_R (k s)) * Cx.of_R (sin (k s * t))))%C
    | Fun _ => Raise (TypeError "bad operand type for unary -: 'function'")
    end
  else
    let G_x := fun (t' : R) (ys : list R) =>
      map (fun y : R =>
             (Cx.of_R (- (1 / 2) * sign (t' - y))
              * Cx.exp (Cx.j * Cx.of_R (k s) * Cx.of_R (Rabs (t' - y))))%C) ys in
    intg s (fun ys =>
              (fs <- call_f s ys ;;
               Ok (zip_with (fun g v => (g * Cx.of_R v)%C) (G_x t ys) fs))%result).

(** [__call__]: the pair of lambdas [u = uG + w] and [u_x = uG_x + w_x]. *)
Definition u (s : exact) (t : R) : result C :=
  (g <- uG s t ;; Ok (g + w s t)%C)%result.

Definition u_x (s : exact) (t : R) : result C :=
  (g <- uG_x s t ;; Ok (g + w_x s t)%C)%result.

(** [verify]: the two assertions, with [atol=1e-04]. *)
Definition atol : R := (1 / 10000)%R.

Definition verify (s : exact) : result unit :=
  (ux_a <- u_x s (a s) ;;
   u_a <- u s (a s) ;;
   if allclose (- ux_a - Cx.j * Cx.of_R (k s) * u_a)%C (ga s) atol then
     ux_b <- u_x s (b s) ;;
     u_b <- u s (b s) ;;
     if allclose (ux_b - Cx.j * Cx.of_R (k s) * u_b)%C (gb s) atol then Ok tt
     else Raise AssertionError
   else Raise AssertionError)%result.

End Evaluator.

End Exact.


(** ** [VPINN_HelmholtzImpedance] *)

Module VPINN.

(** A test function [v_k]: callable, with [deriv(n)] its derivatives and an
    optional local support [domain_] (three markers). *)
Record testfn : Type := mkTestfn {
  v : R -> R;
  v_deriv : Z -> R -> R;
  domain_ : option (R * R * R)
}.

(** A tensor of shape [(n,)] or of shape [(n, 1)]. *)
Inductive tensor : Type :=
| Flat (elems : list R)
| Column (elems : list R).

(** [torch.sum(t * weights)] for [weights] of shape [(n, 1)]: a column is
    multiplied entry by entry; a flat tensor of shape [(m,)] is broadcast
    against the column to the [(n, m)] table of all products. *)
Definition sum_mul (t : tensor) (weights : list R) : R :=
  match t with
  | Column es => Rsum (zip_with Rmult es weights)
  | Flat es => Rsum (map (fun wt => Rsum (map (fun e => (e * wt)%R) es)) weights)
  end.

(** The value of [loss] in [train_]: the integer [0] it starts from, or a
    tensor once a term has been added. *)
Inductive pyloss : Type :=
| PyInt (z : Z)
| Tensor (r : R).

Definition add_term (l : pyloss) (t : R) : pyloss :=
  match l with
  | PyInt z => Tensor (IZR z + t)
  | Tensor r => Tensor (r + t)
  end.

(** [loss.item()] *)
Definition item (l : pyloss) : result R :=
  match l with
  | Tensor r => Ok r
  | PyInt _ => Raise (AttributeError "'int' object has no attribute 'item'")
  end.

(** The attributes set once by [__init__]. *)
Record config : Type := mkConfig {
  activation : R -> R;
  quad_N : nat;
  f : R -> R;
  k : R;
  penalty : option R;
  a : R;
  b : R;
  ga_re : R;
  ga_im : R;
  gb_re : R;
  gb_im : R;
  quadpoints : list R * list R;
  length : nat
}.

Record history_t : Type := mkHistory {
  epochs : list Z;
  losses : list R;
  errors : option (list R * list R * list R)
}.

(** The tensor [x] handed to [deriv], of shape [(m, 1)]: its rows, and
    whether it requires grad. The tensors the class builds for itself
    ([self.a], [self.b] and the roots of every quadrature rule) are made
    with [requires_grad_()]. *)
Record input : Type := mkInput {
  rows : list R;
  requires_grad : bool
}.

(** A tensor computed from [x], with its graph: row by row a function of
    the row of [x], and whether the graph holds [x]. *)
Record traced : Type := mkTraced {
  fn : R -> R;
  holds_x : bool
}.

Section Network.

(** [nn.Linear]: the type of a layer and its action on one input row. *)
Variable Linear : Type.
Variable apply_linear : Linear -> list R -> list R.

(** The solver object: its configuration, its layers [lins], and what
    [train_] and [H1_error] mutate. [time_elapsed] is CPU time and is left
    out, as are the progress lines, which print it. *)
Record vpinn : Type := mkVpinn {
  cfg : config;
  lins : list Linear;
  history : history_t;
  epoch : Z;
  training : bool
}.

Definition set_lins (l : list Linear) (s : vpinn) : vpinn :=
  mkVpinn (cfg s) l (history s) (epoch s) (training s).
Definition set_history (hst : history_t) (s : vpinn) : vpinn :=
  mkVpinn (cfg s) (lins s) hst (epoch s) (training s).
Definition set_epoch (e : Z) (s : vpinn) : vpinn :=
  mkVpinn (cfg s) (lins s) (history s) e (training s).
Definition set_training (m : bool) (s : vpinn) : vpinn :=
  mkVpinn (cfg s) (lins s) (history s) (epoch s) m.

(** [forward] on one input row: every layer but the last is followed by the
    activation. The output row has two entries, its real and imaginary part
    ([__init__] asserts [layers[-1] == 2]). *)
Fixpoint forward_from (act : R -> R) (n_lins : nat) (idx : list nat)
    (ls : list Linear) (row : list R) : list R :=
  match idx, ls with
  | i :: idx', l :: ls' =>
      let y := apply_linear l row in
      forward_from act n_lins idx' ls'
        (if Nat.eqb i (n_lins - 1) then y else map act y)
  | _, _ => row
  end.

Definition forward (c : config) (ls : list Linear) (t : R) : R * R :=
  let out := forward_from (activation c) (List.length ls)
               (seq 0 (length c)) ls [t] in
  (nth 0 out 0%R, nth 1 out 0%R).

(** [torch.autograd.grad(y, x, grad_outputs=ones, create_graph=True,
    allow_unused=False)[0]] for a [y] whose graph holds [x]: the derivative
    of [y], row by row, with the graph torch builds for it
    ([create_graph=True]); that graph holds [x] or not (it does not when
    [y] is affine in [x], as the output of a network with no hidden
    layer is). *)
Variable autograd : traced -> traced.

(** The call itself: with [allow_unused=False] torch raises [RuntimeError]
    when [x] is not in the graph of [y] (the message is left out). *)
Definition grad (y : traced) : result traced :=
  if holds_x y then Ok (autograd y) else Raise RuntimeError.

Definition decimal (n : Z) : string := NilZero.string_of_int (Z.to_int n).

(** [deriv(n, x)] for [x] of shape [(m, 1)]; both results have that shape.
    The order is tested first; the forward pass [f = self(x)] holds [x] in
    its graph when [x] requires grad; both first derivatives are taken
    when [n >= 1], then both second derivatives when [n >= 2]. *)
Definition deriv (c : config) (ls : list Linear) (n : Z) (x : input)
    : result (list R * list R) :=
  if negb (existsb (Z.eqb n) [0; 1; 2]%Z) then
    Raise (ValueError (String.append "n = "
                         (String.append (decimal n) " is not a valid derivative.")))
  else
    let f_re := mkTraced (fun t => fst (forward c ls t)) (requires_grad x) in
    let f_im := mkTraced (fun t => snd (forward c ls t)) (requires_grad x) in
    if (n =? 0)%Z then Ok (map (fn f_re) (rows x), map (fn f_im) (rows x))
    else
      (f_x_re <- grad f_re ;;
       f_x_im <- grad f_im ;;
       if (n =? 1)%Z then Ok (map (fn f_x_re) (rows x), map (fn f_x_im) (rows x))
       else
         f_xx_re <- grad f_x_re ;;
         f_xx_im <- grad f_x_im ;;
         Ok (map (fn f_xx_re) (rows x), map (fn f_xx_im) (rows x)))%result.

(** [intg(func, quadpoints)]:
    [(roots[-1] - roots[0]) * torch.sum(func(roots) * weights) / 2]. *)
Definition intg (c : config) (func : list R -> result tensor)
    (qp : option (list R * list R)) : result R :=
  let qp := match qp with Some q => q | None => quadpoints c end in
  (r_last <- py_index (fst qp) (-1) ;;
   r_first <- py_index (fst qp) 0 ;;
   vals <- func (fst qp) ;;
   Ok ((r_last - r_first) * sum_mul vals (snd qp) / 2)%R)%result.

(** [self.deriv(n, x)[i]] as a column, for [x] one of the tensors of the
    class (the roots of a quadrature rule, which require grad), and at the
    single point [self.a] or [self.b]. *)
Definition component (c : config) (ls : list Linear) (n : Z) (im : bool)
    (xs : list R) : result (list R) :=
  (p <- deriv c ls n (mkInput xs true) ;; Ok (if im then snd p else fst p))%result.

Definition at_point (c : config) (ls : list Linear) (n : Z) (im : bool)
    (t : R) : result R :=
  (col <- component c ls n im [t] ;; Ok (nth 0 col 0%R))%result.

Definition times (g : R -> R) (col : result (list R)) (xs : list R) : result tensor :=
  (ys <- col ;; Ok (Column (zip_with Rmult ys (map g xs))))%result.

(** [loss_v(v_k, quadpoints)] of the base class: formulation [i = 2]. *)
Definition loss_v (c : config) (ls : list Linear) (v_k : testfn)
    (qp : list R * list R) : result R :=
  (F_k_re <- intg c (fun xs => Ok (Column (map (fun t => f c t * v v_k t)%R xs))) (Some qp) ;;
   let F_k_im := 0%R in
   i1 <- intg c (fun xs => times (v_deriv v_k 1) (component c ls 1 false xs) xs) (Some qp) ;;
   i2 <- intg c (fun xs => times (v v_k) (component c ls 0 false xs) xs) (Some qp) ;;
   u_im_a <- at_point c ls 0 true (a c) ;;
   u_im_b <- at_point c ls 0 true (b c) ;;
   let R_k_re := (i1 - k c ^ 2 * i2
                  - (ga_re c - k c * u_im_a) * v v_k (a c)
                  - (gb_re c - k c * u_im_b) * v v_k (b c))%R in
   j1 <- intg c (fun xs => times (v_deriv v_k 1) (component c ls 1 true xs) xs) (Some qp) ;;
   j2 <- intg c (fun xs => times (v v_k) (component c ls 0 true xs) xs) (Some qp) ;;
   u_re_a <- at_point c ls 0 false (a c) ;;
   u_re_b <- at_point c ls 0 false (b c) ;;
   let R_k_im := (j1 - k c ^ 2 * j2
                  - (ga_im c + k c * u_re_a) * v v_k (a c)
                  - (gb_im c + k c * u_re_b) * v v_k (b c))%R in
   Ok ((R_k_re - F_k_re) ^ 2 + (R_k_im - F_k_im) ^ 2)%R)%result.

(** [if self.penalty:] on the stored tensor, or [None]. *)
Definition truthy (p : option R) : bool :=
  match p with
  | Some r => if Req_dec_T r 0 then false else true
  | None => false
  end.

(** The boundary penalty added to the loss in [train_]. *)
Definition pen (c : config) (ls : list Linear) (p : R) : result R :=
  (u_x_re_a <- at_point c ls 1 false (a c) ;;
   u_im_a <- at_point c ls 0 true (a c) ;;
   let loss_ga_re := (ga_re c + u_x_re_a - k c * u_im_a)%R in
   u_x_im_a <- at_point c ls 1 true (a c) ;;
   u_re_a <- at_point c ls 0 false (a c) ;;
   let loss_ga_im := (ga_im c + u_x_im_a + k c * u_re_a)%R in
   u_x_re_b <- at_point c ls 1 false (b c) ;;
   u_im_b <- at_point c ls 0 true (b c) ;;
   let loss_gb_re := (gb_re c + u_x_re_b - k c * u_im_b)%R in
   u_x_im_b <- at_point c ls 1 true (b c) ;;
   u_re_b <- at_point c ls 0 false (b c) ;;
   let loss_gb_im := (gb_im c + u_x_im_b + k c * u_re_b)%R in
   Ok (p / 2 * (loss_ga_re ^ 2 + loss_ga_im ^ 2 + loss_gb_re ^ 2 + loss_gb_im ^ 2))%R)%result.

(** The integrands [u2] and [ux2] of [H1_error], both of shape [(n,)]:
    the squared distance between the exact values and the network's, and
    between the exact derivative and [deriv(1, x)]. *)
Definition u2 (c : config) (ls : list Linear) (u : R -> C) (xs : list R) : result tensor :=
  Ok (Flat (map (fun t => (Cx.re (u t) - fst (forward c ls t)) ^ 2
                          + (Cx.im (u t) - snd (forward c ls t)) ^ 2)%R xs)).

Definition ux2 (c : config) (ls : list Linear) (u_x : R -> C) (xs : list R) : result tensor :=
  (d_re <- component c ls 1 false xs ;;
   d_im <- component c ls 1 true xs ;;
   Ok (Flat (zip_with Rplus
               (zip_with (fun t d => (Cx.re (u_x t) - d) ^ 2)%R xs d_re)
               (zip_with (fun t d => (Cx.im (u_x t) - d) ^ 2)%R xs d_im))))%result.

(** [H1_error(u, u_x)]: the approximator is put in evaluation mode, then
    the triple [(err_u + err_u_x, err_u, err_u_x)] is computed. *)
Definition H1_error (u u_x : R -> C) : M vpinn (R * R * R) :=
  (s <- get ;;
   modify (set_training false) ;;;
   iu <- lift (intg (cfg s) (u2 (cfg s) (lins s) u) None) ;;
   let err_u := sqrt iu in
   iux <- lift (intg (cfg s) (ux2 (cfg s) (lins s) u_x) None) ;;
   let err_u_x := sqrt iux in
   ret ((err_u + err_u_x)%R, err_u, err_u_x))%monad.

(** [__len__] *)
Definition len (c : config) : Z := (Z.of_nat (length c) - 2)%Z.

(** *** Construction *)

(** The state of torch's global random generator, and the torch calls of
    [__init__] that read or advance it. *)
Variable Rng : Type.
Variable manual_seed : Z -> Rng -> Rng.
Variable nn_Linear : Z -> Z -> Rng -> Linear * Rng.
Variable xavier_normal_ : Linear -> Rng -> Linear * Rng.
Variable uniform_ : R -> R -> Linear -> Rng -> Linear * Rng.
Variable zeros_ : Linear -> Linear.
Variable gauss_lobatto_jacobi_quadrature1D : nat -> R -> R -> list R * list R.

Definition draw {A : Type} (g : Rng -> A * Rng) : M Rng A :=
  fun r => mkOutcome (Ok (fst (g r))) (snd (g r)) [].

Fixpoint map_M {St X Y : Type} (g : X -> M St Y) (xs : list X) : M St (list Y) :=
  match xs with
  | [] => ret []
  | x :: xs' => bind (g x) (fun y => bind (map_M g xs') (fun ys => ret (y :: ys)))
  end.

(** The value kept for [penalty]: [None] when the argument is [None] or 0. *)
Definition stored_penalty (penalty : option R) : option R :=
  match penalty with
  | Some p => if Req_dec_T p 0 then None else Some p
  | None => None
  end.

(** [__init__]. The device is advisory and is left out. *)
Definition init (f : R -> R) (k a b : R) (ga gb : C) (layers : list Z)
    (activation : R -> R) (penalty : option R) (quad_N : nat)
    (seed : option Z) : M Rng vpinn :=
  (match seed with
   | Some z => if (z =? 0)%Z then ret tt else modify (manual_seed z)
   | None => ret tt
   end ;;;
   width <- lift (py_index layers (-1)) ;;
   if negb (width =? 2)%Z then raise AssertionError
   else
     let c := mkConfig activation quad_N f k (stored_penalty penalty) a b
                (Cx.re ga) (Cx.im ga) (Cx.re gb) (Cx.im gb)
                (gauss_lobatto_jacobi_quadrature1D quad_N a b)
                (List.length layers) in
     let n := List.length layers in
     hidden <- map_M (fun io => draw (nn_Linear (fst io) (snd io)))
                 (zip (take (n - 2) layers) (drop 1 (take (n - 1) layers))) ;;
     fan_in <- lift (py_index layers (-2)) ;;
     out <- draw (nn_Linear fan_in width) ;;
     hidden <- map_M (fun lin =>
                   lin <- draw (xavier_normal_ lin) ;;
                   draw (uniform_ a b lin)) hidden ;;
     out <- draw (xavier_normal_ out) ;;
     ret (mkVpinn c (hidden ++ [zeros_ out]) (mkHistory [] [] None) 0 true))%monad.

(** *** Training *)

(** The optimizer and the scheduler handed to [train_], and the torch calls
    made on them. [backward] receives the loss as a function of the layers. *)
Variable Opt : Type.
Variable Sch : Type.
Variable zero_grad : Opt -> list Linear -> list Linear.
Variable backward : (list Linear -> result pyloss) -> list Linear -> list Linear.
Variable optimizer_step : Opt -> list Linear -> Opt * list Linear.
Variable scheduler_step : Sch -> Opt -> Sch * Opt.

(** The method [loss_v] of the object: [loss_v] above for the base class,
    the override for [VPINN_HelmholtzImpedanceHF]. *)
Variable self_loss_v : config -> list Linear -> testfn -> list R * list R -> result R.

(** What a call of [train_] can mutate: the solver, the optimizer and the
    scheduler; [scheduler] is [None] when the argument is left at its
    default. *)
Record tstate : Type := mkTstate {
  model : vpinn;
  optimizer : Opt;
  scheduler : option Sch
}.

Definition on_model {A : Type} (m : M vpinn A) : M tstate A :=
  fun st =>
    let o := m (model st) in
    mkOutcome (value o) (mkTstate (state o) (optimizer st) (scheduler st)) (stdout o).

Definition update_model (g : vpinn -> vpinn) : M tstate unit :=
  on_model (modify g).

(** The quadrature points [train_] attaches to a test function. *)
Definition quadpoints_for (c : config) (v_k : testfn) : list R * list R :=
  match domain_ v_k with
  | Some (xl, _, xr) => gauss_lobatto_jacobi_quadrature1D (quad_N c) xl xr
  | None => quadpoints c
  end.

(** The sum of [loss_v(v_k) / K] over the test functions, from [loss = 0]. *)
Definition residual_loss (c : config) (ls : list Linear)
    (tfs : list (testfn * (list R * list R))) : result pyloss :=
  fold_left
    (fun acc vq =>
       (l <- acc ;;
        t <- self_loss_v c ls (fst vq) (snd vq) ;;
        Ok (add_term l (t / INR (List.length tfs))%R))%result)
    tfs (Ok (PyInt 0)).

(** The loss of one epoch: the residual terms, and the penalty when
    [self.penalty] is set. *)
Definition epoch_loss (c : config) (ls : list Linear)
    (tfs : list (testfn * (list R * list R))) : result pyloss :=
  (loss <- residual_loss c ls tfs ;;
   if truthy (penalty c) then
     match penalty c with
     | Some p => pn <- pen c ls p ;; Ok (add_term loss pn)
     | None => Ok loss
     end
   else Ok loss)%result.

Definition append_epoch (e : Z) (s : vpinn) : vpinn :=
  set_history (mkHistory (epochs (history s) ++ [e]) (losses (history s))
                 (errors (history s))) s.

Definition append_loss (l : R) (s : vpinn) : vpinn :=
  set_history (mkHistory (epochs (history s)) (losses (history s) ++ [l])
                 (errors (history s))) s.

Definition append_error (err : R * R * R) (s : vpinn) : result vpinn :=
  match errors (history s) with
  | None => Raise (TypeError "'NoneType' object is not subscriptable")
  | Some (tot, so, de) =>
      Ok (set_history
            (mkHistory (epochs (history s)) (losses (history s))
               (Some (tot ++ [fst (fst err)], so ++ [snd (fst err)], de ++ [snd err])))
            s)
  end.

(** The block run every 10 epochs and on the last one: the epoch and the
    loss are appended to the history, and the H1 error when [exact] is
    given. *)
Definition record_sample (exact : option ((R -> C) * (R -> C))) (e : Z)
    (loss : pyloss) : M tstate unit :=
  (update_model (append_epoch e) ;;;
   l <- lift (item loss) ;;
   update_model (append_loss l) ;;;
   match exact with
   | Some (u, u_x) =>
       err <- on_model (H1_error u u_x) ;;
       st <- get ;;
       s' <- lift (append_error err (model st)) ;;
       update_model (fun _ => s')
   | None => ret tt
   end)%monad.

(** [optimizer.zero_grad()], [loss.backward(retain_graph=True)],
    [optimizer.step()] and [scheduler.step()], for the loss [loss] whose
    graph, as a function of the layers, is [graph]. *)
Definition optimise (graph : list Linear -> result pyloss) (loss : pyloss) : M tstate unit :=
  (st <- get ;;
   update_model (set_lins (zero_grad (optimizer st) (lins (model st)))) ;;;
   match loss with
   | PyInt _ => raise (AttributeError "'int' object has no attribute 'backward'")
   | Tensor _ => update_model (fun s => set_lins (backward graph (lins s)) s)
   end ;;;
   st <- get ;;
   let stepped := optimizer_step (optimizer st) (lins (model st)) in
   modify (fun st => mkTstate (set_lins (snd stepped) (model st)) (fst stepped)
                       (scheduler st)) ;;;
   st <- get ;;
   match scheduler st with
   | None => raise (AttributeError "'NoneType' object has no attribute 'step'")
   | Some sch =>
       let stepped := scheduler_step sch (optimizer st) in
       modify (fun st => mkTstate (model st) (snd stepped) (Some (fst stepped)))
   end)%monad.

(** The body of the loop of [train_], for the epoch [e]. *)
Definition run_epoch (tfs : list (testfn * (list R * list R))) (last : Z)
    (exact : option ((R -> C) * (R -> C))) (e : Z) : M tstate unit :=
  (st <- get ;;
   let graph := fun ls => epoch_loss (cfg (model st)) ls tfs in
   loss <- lift (graph (lins (model st))) ;;
   (if ((e mod 10 =? 0) || (e =? last))%Z then record_sample exact e loss
    else ret tt) ;;;
   optimise graph loss ;;;
   update_model (fun s => set_epoch (epoch s + 1) s))%monad.

(** [train_(testfunctions, epochs, optimizer, scheduler, exact)] *)
Definition train_ (testfunctions : list testfn) (n_epochs : Z)
    (exact : option ((R -> C) * (R -> C))) : M tstate unit :=
  (st <- get ;;
   (match exact, errors (history (model st)) with
    | Some _, None =>
        update_model (fun s => set_history
                        (mkHistory (epochs (history s)) (losses (history s))
                           (Some ([], [], []))) s)
    | _, _ => ret tt
    end) ;;;
   update_model (set_training true) ;;;
   st <- get ;;
   let tfs := map (fun v_k => (v_k, quadpoints_for (cfg (model st)) v_k)) testfunctions in
   let first := epoch (model st) in
   let last := (n_epochs + (if (first =? 0)%Z then first else first - 1))%Z in
   for_each (py_range first (last + 1)) (run_epoch tfs last exact))%monad.

End Network.

Arguments mkVpinn {Linear} cfg lins history epoch training.
Arguments cfg {Linear} v.
Arguments lins {Linear} v.
Arguments history {Linear} v.
Arguments epoch {Linear} v.
Arguments training {Linear} v.
Arguments set_lins {Linear} l s.
Arguments set_history {Linear} hst s.
Arguments set_epoch {Linear} e s.
Arguments set_training {Linear} m s.
Arguments append_epoch {Linear} e s.
Arguments append_loss {Linear} l s.
Arguments append_error {Linear} err s.
Arguments mkTstate {Linear Opt Sch} model optimizer scheduler.
Arguments model {Linear Opt Sch} t.
Arguments optimizer {Linear Opt Sch} t.
Arguments scheduler {Linear Opt Sch} t.

End VPINN.


(** ** [VPINN_HelmholtzImpedanceHF]

    The subclass keeps [__init__], [forward], [train_], [deriv], [intg] and
    [H1_error] of [VPINN_HelmholtzImpedance]; it adds three attributes and
    overrides [loss_v]. *)

Module VPINN_HF.

(** The attributes [__init__] adds after the call of the base
    constructor: [A = 1 / 3], [x0 = (a + b) / 2] and [beta = (b - a) / 2]. *)
Definition A : R := (1 / 3)%R.
Definition x0 (c : VPINN.config) : R := ((VPINN.a c + VPINN.b c) / 2)%R.
Definition beta (c : VPINN.config) : R := ((VPINN.b c - VPINN.a c) / 2)%R.

(** The entry of a tensor of shape [(1, 1)]. *)
Definition scalar (col : list R) : R := nth 0 col 0%R.

Section Network.

Variable Linear : Type.
Variable apply_linear : Linear -> list R -> list R.
Variable autograd : VPINN.traced -> VPINN.traced.

Section Lambdas.

Variable c : VPINN.config.
Variable ls : list Linear.
Variable v_k : VPINN.testfn.

(** The lambdas of [loss_v], on a column [x] of points. *)
Definition u_re (xs : list R) : result (list R) :=
  VPINN.component Linear apply_linear autograd c ls 0 false xs.
Definition u_im (xs : list R) : result (list R) :=
  VPINN.component Linear apply_linear autograd c ls 0 true xs.
Definition u_x_re (xs : list R) : result (list R) :=
  VPINN.component Linear apply_linear autograd c ls 1 false xs.
Definition u_x_im (xs : list R) : result (list R) :=
  VPINN.component Linear apply_linear autograd c ls 1 true xs.
Definition u_xx_re (xs : list R) : result (list R) :=
  VPINN.component Linear apply_linear autograd c ls 2 false xs.
Definition u_xx_im (xs : list R) : result (list R) :=
  VPINN.component Linear apply_linear autograd c ls 2 true xs.

(** [v_k(x)] and [v_k.deriv(n)(x)] *)
Definition v (xs : list R) : list R := map (VPINN.v v_k) xs.
Definition v_d (n : Z) (xs : list R) : list R := map (VPINN.v_deriv v_k n) xs.

(** [x - self.x0] *)
Definition shifted (xs : list R) : list R := map (fun t => (t - x0 c)%R) xs.

(** [Lu_re] and [Lu_im]: [u_xx(x) + k^2 * u(x)] *)
Definition Lu_re (xs : list R) : result (list R) :=
  (p <- u_xx_re xs ;; q <- u_re xs ;;
   Ok (zip_with Rplus p (map (Rmult (VPINN.k c ^ 2)) q)))%result.
Definition Lu_im (xs : list R) : result (list R) :=
  (p <- u_xx_im xs ;; q <- u_im xs ;;
   Ok (zip_with Rplus p (map (Rmult (VPINN.k c ^ 2)) q)))%result.

(** [Lv]: [v_k.deriv(2)(x) + k^2 * v_k(x)] *)
Definition Lv (xs : list R) : list R :=
  zip_with Rplus (v_d 2 xs) (map (Rmult (VPINN.k c ^ 2)) (v xs)).

(** [Mu_re]: [(x - x0) * u_x_re(x) + k * beta * u_im(x)], and
    [Mu_im]: [(x - x0) * u_x_im(x) - k * beta * u_re(x)] *)
Definition Mu_re (xs : list R) : result (list R) :=
  (p <- u_x_re xs ;; q <- u_im xs ;;
   Ok (zip_with Rplus (zip_with Rmult (shifted xs) p)
         (map (Rmult (VPINN.k c * beta c)) q)))%result.
Definition Mu_im (xs : list R) : result (list R) :=
  (p <- u_x_im xs ;; q <- u_re xs ;;
   Ok (zip_with Rminus (zip_with Rmult (shifted xs) p)
         (map (Rmult (VPINN.k c * beta c)) q)))%result.

(** [Mv_re]: [(x - x0) * v_k.deriv(1)(x)], and
    [Mv_im]: [- k * beta * v_k(x)] *)
Definition Mv_re (xs : list R) : list R := zip_with Rmult (shifted xs) (v_d 1 xs).
Definition Mv_im (xs : list R) : list R :=
  map (Rmult (- VPINN.k c * beta c)) (v xs).

(** A lambda at the single point [self.a] or [self.b]. *)
Definition at1 (g : list R -> result (list R)) (t : R) : result R :=
  (col <- g [t] ;; Ok (scalar col))%result.
Definition at1' (g : list R -> list R) (t : R) : R := scalar (g [t]).

(** [self.intg(lambda x: p(x) * q(x), quadpoints)] for two columns *)
Definition intg2 (p : list R -> result (list R)) (q : list R -> list R)
    (qp : list R * list R) : result R :=
  VPINN.intg c (fun xs => (ys <- p xs ;; Ok (VPINN.Column (zip_with Rmult ys (q xs))))%result)
    (Some qp).

End Lambdas.

(** [loss_v(v_k, quadpoints)] of the subclass *)
Definition loss_v (c : VPINN.config) (ls : list Linear) (v_k : VPINN.testfn)
    (qp : list R * list R) : result R :=
  let k := VPINN.k c in
  let a := VPINN.a c in
  let b := VPINN.b c in
  let ure := at1 (u_re c ls) in
  let uim := at1 (u_im c ls) in
  let uxre := at1 (u_x_re c ls) in
  let uxim := at1 (u_x_im c ls) in
  let mure := at1 (Mu_re c ls) in
  let muim := at1 (Mu_im c ls) in
  let mvre := at1' (Mv_re c v_k) in
  let mvim := at1' (Mv_im c v_k) in
  let vv := at1' (v v_k) in
  let vd := at1' (v_d v_k 1) in
  ((* lhs_re *)
   i1 <- intg2 c (u_x_re c ls) (v_d v_k 1) qp ;;
   i2 <- intg2 c (u_re c ls) (v v_k) qp ;;
   i3 <- VPINN.intg c
           (fun xs =>
              m <- Mu_re c ls xs ;; l <- Lu_re c ls xs ;;
              Ok (VPINN.Column
                    (zip_with Rmult (Lv c v_k xs)
                       (zip_with Rplus m (map (Rmult (A / k ^ 2)) l)))))
           (Some qp) ;;
   ure_a <- ure a ;; uim_a <- uim a ;;
   ure_b <- ure b ;; uim_b <- uim b ;;
   mure_b <- mure b ;; mure_a <- mure a ;;
   ure_b' <- ure b ;; ure_a' <- ure a ;;
   uxre_b <- uxre b ;; uxre_a <- uxre a ;;
   let lhs_re :=
     (i1 + k ^ 2 * i2 + i3
      - k * (ure_a * mvim a - uim_a * mvre a)
      - k * (ure_b * mvim b - uim_b * mvre b)
      - (mure_b * vd b - mure_a * vd a)
      - ((b - x0 c) * k ^ 2 * ure_b' * vv b - (a - x0 c) * k ^ 2 * ure_a' * vv a)
      + ((b - x0 c) * uxre_b * vd b - (a - x0 c) * uxre_a * vd a))%R in
   (* lhs_im *)
   j1 <- intg2 c (u_x_im c ls) (v_d v_k 1) qp ;;
   j2 <- intg2 c (u_im c ls) (v v_k) qp ;;
   j3 <- VPINN.intg c
           (fun xs =>
              m <- Mu_im c ls xs ;; l <- Lu_im c ls xs ;;
              Ok (VPINN.Column
                    (zip_with Rmult (Lv c v_k xs)
                       (zip_with Rplus m (map (Rmult (A / k ^ 2)) l)))))
           (Some qp) ;;
   ure_a2 <- ure a ;; uim_a2 <- uim a ;;
   ure_b2 <- ure b ;; uim_b2 <- uim b ;;
   muim_b <- muim b ;; muim_a <- muim a ;;
   uim_b' <- uim b ;; uim_a' <- uim a ;;
   uxim_b <- uxim b ;; uxim_a <- uxim a ;;
   let lhs_im :=
     (j1 + k ^ 2 * j2 + j3
      - k * (ure_a2 * mvre a + uim_a2 * mvim a)
      - k * (ure_b2 * mvre b + uim_b2 * mvim b)
      - (muim_b * vd b - muim_a * vd a)
      - ((b - x0 c) * k ^ 2 * uim_b' * vv b - (a - x0 c) * k ^ 2 * uim_a' * vv a)
      + ((b - x0 c) * uxim_b * vd b - (a - x0 c) * uxim_a * vd a))%R in
   (* rhs_re *)
   r1 <- VPINN.intg c
           (fun xs =>
              Ok (VPINN.Column
                    (zip_with Rmult (map (VPINN.f c) xs)
                       (zip_with Rminus (Mv_re c v_k xs)
                          (map (Rmult (A / k ^ 2)) (Lv c v_k xs))))))
           (Some qp) ;;
   let rhs_re :=
     (r1 + mvre a * VPINN.ga_re c + mvim a * VPINN.ga_im c
      + mvre b * VPINN.gb_re c + mvim b * VPINN.gb_im c)%R in
   (* rhs_im *)
   r2 <- VPINN.intg c
           (fun xs =>
              Ok (VPINN.Column
                    (zip_with Rmult (map (VPINN.f c) xs)
                       (map Ropp (Mv_im c v_k xs)))))
           (Some qp) ;;
   let rhs_im :=
     (r2 + mvre a * VPINN.ga_im c - mvim a * VPINN.ga_re c
      + mvre b * VPINN.gb_im c - mvim b * VPINN.gb_re c)%R in
   Ok ((lhs_re - rhs_re) ^ 2 + (lhs_im - rhs_im) ^ 2)%R)%result.

End Network.

End VPINN_HF.


(** * Predicates of the statements *)

(** [returns m s v s']: started in [s], [m] returns [v] and ends in [s']. *)
Definition returns {St A : Type} (m : M St A) (s : St) (v : A) (s' : St) : Prop :=
  value (m s) = Ok v /\ state (m s) = s'.

(** [valid_index l j]: [l[j]] is an element of [l]. *)
Definition valid_index {A : Type} (l : list A) (j : Z) : Prop :=
  (- Z.of_nat (length l) <= j < Z.of_nat (length l))%Z.

(** A matrix whose entries off the three central diagonals are zero. *)
Definition tridiagonal (m : list (list C)) : Prop :=
  forall (i j : nat) (row : list C) (e : C),
    m !! i = Some row -> row !! j = Some e ->
    (i + 1 < j \/ j + 1 < i)%nat -> e = Cx.zero.

(** An [n] by [n] matrix. *)
Definition square (n : nat) (m : list (list C)) : Prop :=
  length m = n /\ forall (i : nat) (row : list C), m !! i = Some row -> length row = n.

(** The shape and the band of [A]: what every pass of [solve] keeps. *)
Definition banded (s : FEM.fem) : Prop :=
  square (FEM.N s + 1) (FEM.A s) /\ tridiagonal (FEM.A s).


(** [nonneg xs]: no entry of [xs] is negative. *)
Definition nonneg (xs : list R) : Prop := Forall (fun w => (0 <= w)%R) xs.

(** [sampled last e]: the epoch [e] is recorded in the history of a run
    whose last epoch is [last]. *)
Definition sampled (last e : Z) : bool := ((e mod 10 =? 0) || (e =? last))%Z.

Section Training_model.

Variable Linear : Type.
Variable apply_linear : Linear -> list R -> list R.
Variable autograd : VPINN.traced -> VPINN.traced.
Variable Opt : Type.
Variable Sch : Type.
Variable zero_grad : Opt -> list Linear -> list Linear.
Variable backward : (list Linear -> result VPINN.pyloss) -> list Linear -> list Linear.
Variable optimizer_step : Opt -> list Linear -> Opt * list Linear.
Variable scheduler_step : Sch -> Opt -> Sch * Opt.
Variable self_loss_v :
  VPINN.config -> list Linear -> VPINN.testfn -> list R * list R -> result R.
Variable gauss_lobatto_jacobi_quadrature1D : nat -> R -> R -> list R * list R.

(** What the optimisation acts on: the layers, the optimizer and the
    scheduler. *)
Definition trained : Type := list Linear * Opt * Sch.

(** One optimisation step: gradients reset, backward pass of the loss of
    the epoch, optimizer step, scheduler step. *)
Definition optimisation_step (c : VPINN.config)
    (tfs : list (VPINN.testfn * (list R * list R))) (k : trained) : trained :=
  let '(ls, opt, sch) := k in
  let graph := fun ls' => VPINN.epoch_loss Linear apply_linear autograd self_loss_v c ls' tfs in
  let stepped := optimizer_step opt (backward graph (zero_grad opt ls)) in
  let scheduled := scheduler_step sch (fst stepped) in
  (snd stepped, snd scheduled, fst scheduled).

(** The loss of an epoch, as a number. *)
Definition loss_value (c : VPINN.config)
    (tfs : list (VPINN.testfn * (list R * list R))) (k : trained) : R :=
  match VPINN.epoch_loss Linear apply_linear autograd self_loss_v c (fst (fst k)) tfs with
  | Ok (VPINN.Tensor l) => l
  | _ => 0%R
  end.

(** The samples [(epoch, loss)] recorded over [n] epochs from the epoch [e]
    on, in a run whose last epoch is [last]. *)
Fixpoint trajectory (c : VPINN.config) (tfs : list (VPINN.testfn * (list R * list R)))
    (last e : Z) (n : nat) (k : trained) : list (Z * R) :=
  match n with
  | O => []
  | S n' =>
      (if sampled last e then [(e, loss_value c tfs k)] else [])
      ++ trajectory c tfs last (e + 1) n' (optimisation_step c tfs k)
  end.

(** The layers, optimizer and scheduler of a state of [train_]. *)
Definition trained_of (st : VPINN.tstate Linear Opt Sch) : option trained :=
  match VPINN.scheduler st with
  | Some sch => Some (VPINN.lins (VPINN.model st), VPINN.optimizer st, sch)
  | None => None
  end.

(** The samples in the history of a solver. *)
Definition samples (s : VPINN.vpinn Linear) : list (Z * R) :=
  zip (VPINN.epochs (VPINN.history s)) (VPINN.losses (VPINN.history s)).

(** [loss_v] returns, whatever the layers, for each of the test functions
    with the quadrature points attached to it. *)
Definition loss_v_returns (c : VPINN.config)
    (tfs : list (VPINN.testfn * (list R * list R))) : Prop :=
  forall ls vq, In vq tfs -> exists r, self_loss_v c ls (fst vq) (snd vq) = Ok r.

(** What [exact] asks of the solver: quadrature nodes to integrate over,
    and the three error lists in the history. *)
Definition exact_ready (exact : option ((R -> C) * (R -> C))) (m : VPINN.vpinn Linear) : Prop :=
  exact <> None ->
  fst (VPINN.quadpoints (VPINN.cfg m)) <> [] /\ VPINN.errors (VPINN.history m) <> None.

(** The test functions with the quadrature points [train_] attaches. *)
Definition attached (c : VPINN.config) (testfunctions : list VPINN.testfn)
    : list (VPINN.testfn * (list R * list R)) :=
  map (fun v_k => (v_k, VPINN.quadpoints_for gauss_lobatto_jacobi_quadrature1D c v_k))
      testfunctions.

(** The last epoch of a call of [train_] for [n] epochs on a solver whose
    counter is [first], and the number of epochs the call runs. *)
Definition last_epoch (first n : Z) : Z :=
  (n + (if (first =? 0)%Z then first else first - 1))%Z.

Definition epochs_run (first n : Z) : nat :=
  Z.to_nat (last_epoch first n + 1 - first).

(** The state after an epoch that returned, seen from the state before. *)
Definition epoch_done (tfs : list (VPINN.testfn * (list R * list R))) (last e : Z)
    (k : trained) (st st' : VPINN.tstate Linear Opt Sch) : Prop :=
  let c := VPINN.cfg (VPINN.model st) in
  VPINN.cfg (VPINN.model st') = c
  /\ VPINN.epoch (VPINN.model st') = (VPINN.epoch (VPINN.model st) + 1)%Z
  /\ trained_of st' = Some (optimisation_step c tfs k)
  /\ VPINN.epochs (VPINN.history (VPINN.model st'))
     = VPINN.epochs (VPINN.history (VPINN.model st))
       ++ (if sampled last e then [e] else [])
  /\ VPINN.losses (VPINN.history (VPINN.model st'))
     = VPINN.losses (VPINN.history (VPINN.model st))
       ++ (if sampled last e then [loss_value c tfs k] else [])
  /\ (VPINN.errors (VPINN.history (VPINN.model st')) = None
      <-> VPINN.errors (VPINN.history (VPINN.model st)) = None).

End Training_model.

(** The left-hand sides of the two boundary conditions that [verify]
    compares with [ga] and [gb]. *)
Definition residual_a (s : Exact.exact) : result C :=
  (ux_a <- Exact.u_x s (Exact.a s) ;;
   u_a <- Exact.u s (Exact.a s) ;;
   Ok (- ux_a - Cx.j * Cx.of_R (Exact.k s) * u_a)%C)%result.

Definition residual_b (s : Exact.exact) : result C :=
  (ux_b <- Exact.u_x s (Exact.b s) ;;
   u_b <- Exact.u s (Exact.b s) ;;
   Ok (ux_b - Cx.j * Cx.of_R (Exact.k s) * u_b)%C)%result.

(** [entry m i j]: the entry [m[i, j]] of a matrix, when there is one. *)
Definition entry (m : list (list C)) (i j : nat) : option C :=
  match m !! i with
  | Some row => row !! j
  | None => None
  end.

(** The data of the problem and of its discretisation: what [__init__]
    stores and no other method assigns. *)
Definition problem (s : FEM.fem) :=
  (FEM.source s, FEM.f s, FEM.k s, FEM.a s, FEM.b s, FEM.ga s, FEM.gb s,
   FEM.N s, FEM.h s, FEM.FE s, FEM.bases s, FEM.N_quad s, FEM.x s,
   FEM.roots s, FEM.weights s).

(** [A[i, j]] of [s'] is [lhs(i, j)], and [d[i]] of [s'] is [rhs(i)], both
    computed on [s]. *)
Definition holds_lhs (s s' : FEM.fem) (i j : nat) : Prop :=
  exists e, FEM.lhs s (Z.of_nat i) (Z.of_nat j) = Ok e /\ entry (FEM.A s') i j = Some e.

Definition holds_rhs (s s' : FEM.fem) (i : nat) : Prop :=
  exists r, FEM.rhs s (Z.of_nat i) = Ok r /\ FEM.d s' !! i = Some r.

(** The row [i] of the system of [s'] is the one [solve] assembles. *)
Definition row_assembled (s s' : FEM.fem) (i : nat) : Prop :=
  holds_rhs s s' i
  /\ holds_lhs s s' i i
  /\ (i <> 0%nat -> holds_lhs s s' i (i - 1))
  /\ (i <> FEM.N s -> holds_lhs s s' i (i + 1)).

(** [Cderiv g t d]: the complex function [g] of a real variable has the
    derivative [d] at [t], in its real part and in its imaginary part. *)
Definition Cderiv (g : R -> C) (t : R) (d : C) : Prop :=
  derivable_pt_lim (fun y => Cx.re (g y)) t (Cx.re d)
  /\ derivable_pt_lim (fun y => Cx.im (g y)) t (Cx.im d).

(** The values of the lambdas [u] and [u_x] that [__call__] returns, with 0
    standing for a value that could not be computed. *)
Definition u_at (s : Exact.exact) (t : R) : C :=
  match Exact.u s t with
  | Ok z => z
  | Raise _ => Cx.zero
  end.

Definition u_x_at (s : Exact.exact) (t : R) : C :=
  match Exact.u_x s t with
  | Ok z => z
  | Raise _ => Cx.zero
  end.

(** The integral of [|e|^2] over [(lo, hi)] by a quadrature rule with its
    nodes on [(lo, hi)] and its weights on the reference interval,
    [(hi - lo) / 2 * sum_i weights_i * |e(roots_i)|^2], and the L2 norm of
    [e], its square root: what the docstring of [H1_error] and the
    specification name as the error of the solution and of its
    derivative. *)
Definition L2_square (lo hi : R) (roots weights : list R) (e : R -> C) : R :=
  ((hi - lo)
   * Rsum (zip_with Rmult (map (fun t => (Cx.abs (e t) ^ 2)%R) roots) weights) / 2)%R.

Definition L2_norm (lo hi : R) (roots weights : list R) (e : R -> C) : R :=
  sqrt (L2_square lo hi roots weights e).

Section Network_model.

Variable Linear : Type.
Variable apply_linear : Linear -> list R -> list R.

(** The layers applied in turn to a row, the activation after each of them
    but the last. *)
Fixpoint feed (act : R -> R) (ls : list Linear) (row : list R) : list R :=
  match ls with
  | [] => row
  | l :: ls' =>
      match ls' with
      | [] => apply_linear l row
      | _ :: _ => feed act ls' (map act (apply_linear l row))
      end
  end.

End Network_model.

(** The number a loss stands for. *)
Definition loss_number (l : VPINN.pyloss) : R :=
  match l with
  | VPINN.PyInt z => IZR z
  | VPINN.Tensor r => r
  end.

(** A history whose lists go together: as many losses as epochs, and three
    lists of errors of one length. *)
Definition aligned (h : VPINN.history_t) : Prop :=
  length (VPINN.epochs h) = length (VPINN.losses h)
  /\ match VPINN.errors h with
     | Some (tot, so, de) => length tot = length so /\ length so = length de
     | None => True
     end.

(** * Fixtures

    Concrete collaborators, used to run the solvers on explicit inputs. *)

Module Demo.

(** A basis of [N + 1] functions, the [i]-th one the line of slope [i]
    through the origin, with integrals given by the indices. *)
Definition Finite_Elements (N : nat) (a b : R) : FEM.Finite_Elements_obj :=
  FEM.mkFE
    (map (fun i : nat =>
            FEM.mkBasis (fun t => (INR i * t)%R) (fun _ => INR i))
         (seq 0 (N + 1)))
    (fun i j => IZR (i + j))
    (fun i j => IZR (i * j)).

(** A two-point rule: the end points, with weight 1 each. *)
Definition quadrature (n : nat) (a b : R) : list R * list R :=
  ([a; b], [1%R; 1%R]).

(** A solver that hands back the right-hand side. *)
Definition linalg_solve (A : list (list C)) (d : list C) : result (list C) :=
  Ok d.

(** The solver [FEM_HelmholtzImpedance(f, 1, 0, 1, 1, 0, source=source, N=2)]. *)
Definition fem (f : src) (source : string) : result FEM.fem :=
  FEM.init Finite_Elements quadrature f 1 0 1 (1, 0)%R (0, 0)%R source 2 None.

(** A layer given by its weight rows and its biases, and the derivative of
    a function by the difference of its values at 1 and 0 (exact for the
    affine functions used here); the derivative is a constant, and its
    graph does not hold the input. *)
Definition Linear : Type := list (list R) * list R.

Definition apply_linear (l : Linear) (row : list R) : list R :=
  zip_with (fun wrow bias => (Rsum (zip_with Rmult wrow row) + bias)%R) (fst l) (snd l).

Definition autograd (y : VPINN.traced) : VPINN.traced :=
  VPINN.mkTraced (fun _ => (VPINN.fn y 1 - VPINN.fn y 0)%R) false.

(** The configuration of a solver on [0, 1] with [k = 1], [ga = 1],
    [gb = 0], the two-point rule, and the penalty given. *)
Definition config (penalty : option R) : VPINN.config :=
  VPINN.mkConfig (fun t => t) 1 (fun _ => 1%R) 1 penalty 0 1 1 0 0 0
    (quadrature 1 0 1) 2.

(** One layer from 1 input to 2 outputs: [t] goes to [(t, 2 t + 1)]. *)
Definition lins : list Linear := [([[1%R]; [2%R]], [0%R; 1%R])].

(** Torch's generator as a counter: seeding sets it, every draw advances
    it, and a fresh layer is filled with the value drawn. *)
Definition Rng : Type := Z.
Definition manual_seed (z : Z) (_ : Rng) : Rng := z.
Definition nn_Linear (fan_in fan_out : Z) (r : Rng) : Linear * Rng :=
  ((replicate (Z.to_nat fan_out) (replicate (Z.to_nat fan_in) (IZR r)),
    replicate (Z.to_nat fan_out) 0%R), (r + 1)%Z).
Definition xavier_normal_ (l : Linear) (r : Rng) : Linear * Rng :=
  ((map (map (fun _ => IZR r)) (fst l), snd l), (r + 1)%Z).
Definition uniform_ (a b : R) (l : Linear) (r : Rng) : Linear * Rng :=
  ((fst l, map (fun _ => a) (snd l)), (r + 1)%Z).
Definition zeros_ (l : Linear) : Linear := (fst l, map (fun _ => 0%R) (snd l)).

(** The method [loss_v] of the base class. *)
Definition loss_v : VPINN.config -> list Linear -> VPINN.testfn -> list R * list R -> result R :=
  VPINN.loss_v Linear apply_linear autograd.

(** [VPINN_HelmholtzImpedance(f, 1, 0, 1, 1, 0, layers=[1, 3, 2],
    penalty=penalty, quad_N=1, seed=seed)] with [f] the constant 1. *)
Definition vpinn (penalty : option R) (seed : option Z) : M Rng (VPINN.vpinn Linear) :=
  VPINN.init Linear Rng manual_seed nn_Linear xavier_normal_ uniform_ zeros_
    quadrature (fun _ => 1%R) 1 0 1 (1, 0)%R (0, 0)%R [1; 3; 2]%Z (fun t => t)
    penalty 1 seed.

(** The solver [Demo.fem (Num 1) "const"] as [__init__] leaves it, and
    after [solve]. *)
Definition unsolved : FEM.fem :=
  FEM.mkFem "const" (Num 1) 1 0 1 (1, 0)%R (0, 0)%R 2 ((1 - 0) / INR 2)
    (Finite_Elements 2 0 1) (FEM.FE_call (Finite_Elements 2 0 1)) 20
    (FEM.linspace 0 1 3) (FEM.zeros2 3 3) (FEM.zeros 3) None None None
    [0%R; 1%R] [1%R; 1%R].

Definition solved : FEM.fem := state (FEM.solve linalg_solve unsolved).

(** The same solver with the source type ['bogus']. *)
Definition bogus : FEM.fem :=
  FEM.mkFem "bogus" (Num 1) 1 0 1 (1, 0)%R (0, 0)%R 2 ((1 - 0) / INR 2)
    (Finite_Elements 2 0 1) (FEM.FE_call (Finite_Elements 2 0 1)) 20
    (FEM.linspace 0 1 3) (FEM.zeros2 3 3) (FEM.zeros 3) None None None
    [0%R; 1%R] [1%R; 1%R].

(** A VPINN solver that has not been trained. *)
Definition model (penalty : option R) : VPINN.vpinn Linear :=
  VPINN.mkVpinn (config penalty) lins (VPINN.mkHistory [] [] None) 0 true.

(** What a method returned, for a run that did not raise, and the content
    of an optional result. *)
Definition returned {St A : Type} (o : outcome St A) (default : A) : A :=
  match value o with
  | Ok v => v
  | Raise _ => default
  end.

Definition content {A : Type} (o : option A) (default : A) : A :=
  match o with
  | Some v => v
  | None => default
  end.

(** An optimizer and a scheduler that count their steps; an optimizer step
    raises every bias by 1, and the layers carry no gradient. *)
Definition Opt : Type := nat.
Definition Sch : Type := nat.
Definition zero_grad (_ : Opt) (ls : list Linear) : list Linear := ls.
Definition backward (_ : list Linear -> result VPINN.pyloss) (ls : list Linear)
    : list Linear := ls.
Definition optimizer_step (o : Opt) (ls : list Linear) : Opt * list Linear :=
  (S o, map (fun l : Linear => (fst l, map (Rplus 1) (snd l))) ls).
Definition scheduler_step (s : Sch) (o : Opt) : Sch * Opt := (S s, o).

(** One test function, [v(x) = x], with no local support. *)
Definition testfunctions : list VPINN.testfn :=
  [VPINN.mkTestfn (fun t => t) (fun _ _ => 1%R) None].

(** The untrained solver with a fresh optimizer, and the scheduler given. *)
Definition start (scheduler : option Sch) : VPINN.tstate Linear Opt Sch :=
  VPINN.mkTstate (model None) 0%nat scheduler.

(** [train_(testfunctions, epochs, optimizer, scheduler)] of the base class. *)
Definition train_ (epochs : Z) : M (VPINN.tstate Linear Opt Sch) unit :=
  VPINN.train_ Linear apply_linear autograd quadrature Opt Sch zero_grad backward
    optimizer_step scheduler_step loss_v testfunctions epochs None.

(** The same call with [exact=(u, u_x)] for [u = 0] and [u_x = 1j], and the
    call with an empty list of test functions. *)
Definition train_exact (epochs : Z) : M (VPINN.tstate Linear Opt Sch) unit :=
  VPINN.train_ Linear apply_linear autograd quadrature Opt Sch zero_grad backward
    optimizer_step scheduler_step loss_v testfunctions epochs
    (Some (fun _ => Cx.zero, fun _ => Cx.j)).

Definition train_nothing (epochs : Z) : M (VPINN.tstate Linear Opt Sch) unit :=
  VPINN.train_ Linear apply_linear autograd quadrature Opt Sch zero_grad backward
    optimizer_step scheduler_step loss_v [] epochs None.

End Demo.

(** * Properties *)

(** ** Runs of a computation *)

Section Runs.

Context {St : Type}.

Lemma returns_ret {A : Type} (v w : A) (s s' : St) :
  returns (ret v) s w s' -> w = v /\ s' = s.
Proof. intros [Hv Hs]. simpl in *. split; congruence. Qed.

Lemma returns_get (s v s' : St) :
  returns get s v s' -> v = s /\ s' = s.
Proof. intros [Hv Hs]. simpl in *. split; congruence. Qed.

Lemma returns_modify (g : St -> St) (s s' : St) (u : unit) :
  returns (modify g) s u s' -> s' = g s.
Proof. intros [_ Hs]. simpl in *. congruence. Qed.

Lemma returns_lift {A : Type} (r : result A) (s s' : St) (v : A) :
  returns (lift r) s v s' -> r = Ok v /\ s' = s.
Proof. intros [Hv Hs]. simpl in *. split; congruence. Qed.

Lemma returns_raise {A : Type} (e : exn) (s s' : St) (v : A) :
  returns (raise e) s v s' -> False.
Proof. intros [Hv _]. discriminate. Qed.

Lemma returns_bind {A B : Type} (m : M St A) (k : A -> M St B) (s s' : St) (v : B) :
  returns (bind m k) s v s' ->
  exists (w : A) (s1 : St), returns m s w s1 /\ returns (k w) s1 v s'.
Proof.
  unfold returns, bind. destruct (value (m s)) as [w|e] eqn:Hm; simpl.
  - intros [Hv Hs]. exists w, (state (m s)). auto.
  - intros [Hv _]. discriminate.
Qed.

(** A property kept by every pass of a loop that returns is kept by the loop. *)
Lemma for_each_invariant {X : Type} (P : St -> Prop) (body : X -> M St unit) (xs : list X) :
  (forall x s u s', In x xs -> P s -> returns (body x) s u s' -> P s') ->
  forall s u s', P s -> returns (for_each xs body) s u s' -> P s'.
Proof.
  induction xs as [|x xs IH]; intros Hbody s u s' HP Hrun.
  - apply returns_ret in Hrun as [_ ->]. assumption.
  - simpl in Hrun. apply returns_bind in Hrun as (w & s1 & H1 & H2).
    eapply IH; [| |exact H2].
    + intros y t u' t' Hy. apply Hbody. right. assumption.
    + eapply Hbody; [left; reflexivity|exact HP|exact H1].
Qed.

End Runs.

Ltac run_inv :=
  repeat match goal with
    | H : returns (bind _ _) _ _ _ |- _ =>
        apply returns_bind in H as (? & ? & ? & ?)
    | H : returns get _ _ _ |- _ => apply returns_get in H as [-> ->]
    | H : returns (ret _) _ _ _ |- _ => apply returns_ret in H as [-> ->]
    | H : returns (modify _) _ _ _ |- _ => apply returns_modify in H as ->
    | H : returns (lift _) _ _ _ |- _ => apply returns_lift in H as [? ->]
    | H : returns (raise _) _ _ _ |- _ => apply returns_raise in H as []
    end.

Lemma zeros2_tridiagonal n m : tridiagonal (FEM.zeros2 n m).
Proof.
  intros i j row e Hi Hj _. unfold FEM.zeros2, FEM.zeros in *.
  apply lookup_replicate in Hi as [-> _].
  apply lookup_replicate in Hj as [-> _]. reflexivity.
Qed.

Lemma zeros2_square n : square n (FEM.zeros2 n n).
Proof.
  split.
  - apply length_replicate.
  - intros i row Hi. apply lookup_replicate in Hi as [-> _]. apply length_replicate.
Qed.

Lemma setitem2_tridiagonal m i j e m' :
  tridiagonal m -> (i <= j + 1 /\ j <= i + 1)%nat ->
  FEM.setitem2 m i j e = Ok m' -> tridiagonal m'.
Proof.
  intros Hm Hband. unfold FEM.setitem2.
  destruct (m !! i) as [row|] eqn:Hrow; [|discriminate].
  destruct (decide (j < length row)); [|discriminate].
  intros [= <-] i' j' row' e' Hi' Hj' Hoff.
  destruct (decide (i = i')) as [<-|Hne].
  - rewrite list_lookup_insert_eq in Hi' by (eapply lookup_lt_Some; eauto).
    injection Hi' as <-.
    rewrite list_lookup_insert_ne in Hj' by lia.
    eapply Hm; eauto.
  - rewrite list_lookup_insert_ne in Hi' by assumption.
    eapply Hm; eauto.
Qed.

Lemma setitem2_square n m i j e m' :
  square n m -> FEM.setitem2 m i j e = Ok m' -> square n m'.
Proof.
  intros [Hlen Hrows]. unfold FEM.setitem2.
  destruct (m !! i) as [row|] eqn:Hrow; [|discriminate].
  destruct (decide (j < length row)); [|discriminate].
  intros [= <-]. split.
  - rewrite length_insert. assumption.
  - intros i' row' Hi'.
    destruct (decide (i = i')) as [<-|Hne].
    + rewrite list_lookup_insert_eq in Hi' by (eapply lookup_lt_Some; eauto).
      injection Hi' as <-. rewrite length_insert. eauto.
    + rewrite list_lookup_insert_ne in Hi' by assumption. eauto.
Qed.

Lemma set_A_banded (s : FEM.fem) (i j : nat) (e : C) (m : list (list C)) :
  banded s -> (i <= j + 1 /\ j <= i + 1)%nat ->
  FEM.setitem2 (FEM.A s) i j e = Ok m -> banded (FEM.set_A m s).
Proof.
  intros [Hsq Htri] Hband Hset. split; simpl.
  - eapply setitem2_square; eauto.
  - eapply setitem2_tridiagonal; eauto.
Qed.

Lemma set_d_banded (s : FEM.fem) (v : list C) : banded s -> banded (FEM.set_d v s).
Proof. intros H. exact H. Qed.

Lemma assemble_row_banded (i : nat) (s s' : FEM.fem) (u : unit) :
  banded s -> returns (FEM.assemble_row i) s u s' -> banded s'.
Proof.
  intros Hb Hrun. unfold FEM.assemble_row in Hrun. run_inv.
  assert (Hdiag : banded (FEM.set_A x11 (FEM.set_d x3 s))).
  { apply (set_A_banded _ i i x7); [apply set_d_banded; exact Hb|lia|exact H]. }
  assert (Hleft : banded x16).
  { destruct (negb (i =? 0)); run_inv; [|assumption].
    eapply (set_A_banded _ i (i - 1)); [eassumption|lia|eassumption]. }
  destruct (negb (i =? FEM.N (FEM.set_d x3 s))); run_inv; [|assumption].
  eapply (set_A_banded _ i (i + 1)); [eassumption|lia|eassumption].
Qed.

Section FEM_properties.

Variable Finite_Elements : nat -> R -> R -> FEM.Finite_Elements_obj.
Variable gauss_lobatto_jacobi_quadrature1D : nat -> R -> R -> list R * list R.
Variable linalg_solve : list (list C) -> list C -> result (list C).

Lemma solve_banded (s s' : FEM.fem) (u : unit) :
  banded s -> returns (FEM.solve linalg_solve) s u s' -> banded s'.
Proof.
  intros Hb Hrun. unfold FEM.solve in Hrun. run_inv.
  match goal with
  | H : returns (for_each _ _) s _ ?t |- _ =>
      assert (Hloop : banded t)
        by (eapply (for_each_invariant banded); [|exact Hb|exact H];
            intros i t0 u' t' _; apply assemble_row_banded)
  end.
  exact Hloop.
Qed.

(** [solve] leaves [N] as it is. *)
Lemma assemble_row_N (i : nat) (s s' : FEM.fem) (u : unit) :
  returns (FEM.assemble_row i) s u s' -> FEM.N s' = FEM.N s.
Proof.
  intros Hrun. unfold FEM.assemble_row in Hrun. run_inv.
  repeat match goal with
    | H : returns (if ?c then _ else _) _ _ _ |- _ => destruct c; run_inv
    end; reflexivity.
Qed.

Lemma solve_N (s s' : FEM.fem) (u : unit) :
  returns (FEM.solve linalg_solve) s u s' -> FEM.N s' = FEM.N s.
Proof.
  intros Hrun. unfold FEM.solve in Hrun. run_inv. simpl.
  match goal with
  | H : returns (for_each _ _) s _ ?t |- _ =>
      apply (for_each_invariant (fun t0 => FEM.N t0 = FEM.N s) _ _) in H;
      [exact H| |reflexivity]
  end.
  intros i t0 u' t' _ Ht0 Hrow. rewrite <- Ht0. eapply assemble_row_N; eauto.
Qed.

Lemma init_banded f k a b ga gb source N N_quad s :
  FEM.init Finite_Elements gauss_lobatto_jacobi_quadrature1D
    f k a b ga gb source N N_quad = Ok s ->
  banded s /\ FEM.N s = N /\ FEM.sol s = None.
Proof.
  unfold FEM.init. destruct (Nat.eqb N 0); [discriminate|].
  intros [= <-]. simpl. repeat split.
  - apply zeros2_square.
  - intros i row. unfold FEM.zeros2. intros Hi.
    apply lookup_replicate in Hi as [-> _]. apply length_replicate.
  - apply zeros2_tridiagonal.
Qed.

(** C3. After [solve] returns on a solver built by [__init__] with [N]
    elements, [A] is an (N+1) by (N+1) matrix and every entry [A[i, j]] with
    [|i - j| > 1] is zero, for every [N] and whatever the collaborators
    return. *)
Theorem fem_solve_tridiagonal f k a b ga gb source N N_quad s s' :
  FEM.init Finite_Elements gauss_lobatto_jacobi_quadrature1D
    f k a b ga gb source N N_quad = Ok s ->
  returns (FEM.solve linalg_solve) s tt s' ->
  square (N + 1) (FEM.A s') /\ tridiagonal (FEM.A s').
Proof.
  intros Hinit Hrun. apply init_banded in Hinit as (Hb & HN & _).
  pose proof (solve_banded _ _ _ Hb Hrun) as [Hsq Htri].
  rewrite (solve_N _ _ _ Hrun), HN in Hsq. split; assumption.
Qed.

Lemma py_index_nonneg {A : Type} (l : list A) (j : Z) (v : A) :
  (0 <= j)%Z -> l !! Z.to_nat j = Some v -> py_index l j = Ok v.
Proof.
  intros Hj Hl. unfold py_index.
  assert (Z.to_nat j < length l)%nat by (eapply lookup_lt_Some; eauto).
  destruct (j <? 0)%Z eqn:Hneg; [lia|].
  replace ((0 <=? j)%Z && (j <? Z.of_nat (length l))%Z) with true
    by (symmetry; apply andb_true_iff; split; lia).
  rewrite Hl. reflexivity.
Qed.

Lemma py_index_valid {A : Type} (l : list A) (j : Z) :
  valid_index l j -> exists v, py_index l j = Ok v.
Proof.
  unfold valid_index, py_index. intros Hj.
  set (j' := if (j <? 0)%Z then (j + Z.of_nat (length l))%Z else j).
  assert (Hj' : (0 <= j' < Z.of_nat (length l))%Z)
    by (subst j'; destruct (j <? 0)%Z eqn:Hneg; lia).
  replace ((0 <=? j')%Z && (j' <? Z.of_nat (length l))%Z) with true
    by (symmetry; apply andb_true_iff; split; lia).
  destruct (lookup_lt_is_Some_2 l (Z.to_nat j')) as [v Hv]; [lia|].
  rewrite Hv. eauto.
Qed.

(** X3. For [j] outside the basis, [rhs(j)] raises [IndexError] at the
    lookup [self.bases[j]], whatever the source type. *)
Theorem fem_rhs_out_of_range (s : FEM.fem) (j : Z) :
  ~ valid_index (FEM.bases s) j -> FEM.rhs s j = Raise IndexError.
Proof.
  unfold valid_index, FEM.rhs, py_index. intros Hj.
  destruct (j <? 0)%Z eqn:Hneg;
    match goal with
    | |- context [(?p && ?q)%bool] =>
        replace (p && q)%bool with false
          by (symmetry; apply andb_false_iff; lia)
    end; reflexivity.
Qed.

(** C4. With a source type that is neither ['const'] nor ['func'], [rhs(j)]
    raises [ValueError] for every index [j] of a basis function, and the
    message starts with the source type given. *)
Theorem fem_rhs_invalid_source (s : FEM.fem) (j : Z) :
  FEM.source s <> "const"%string -> FEM.source s <> "func"%string ->
  valid_index (FEM.bases s) j ->
  FEM.rhs s j
  = Raise (ValueError (String.append (FEM.source s) " is not a valid source type.")).
Proof.
  intros Hconst Hfunc Hj. unfold FEM.rhs.
  destruct (py_index_valid _ _ Hj) as [phi_j ->]. simpl.
  apply String.eqb_neq in Hconst, Hfunc. rewrite Hconst, Hfunc. reflexivity.
Qed.


(** C7. With source type ['const'] and the number [v] for [f], [rhs(j)] is
    [h * v + ga * phi_j(a) + gb * phi_j(b)] at an interior node and
    [h * v / 2 + ga * phi_j(a) + gb * phi_j(b)] at the nodes [0] and [N]: no
    quadrature is involved. *)
Theorem fem_rhs_const (s : FEM.fem) (j : Z) (v : R) (phi_j : FEM.basis) :
  FEM.source s = "const"%string -> FEM.f s = Num v ->
  (0 <= j <= Z.of_nat (FEM.N s))%Z ->
  FEM.bases s !! Z.to_nat j = Some phi_j ->
  ((0 < j < Z.of_nat (FEM.N s))%Z ->
   FEM.rhs s j
   = Ok (Cx.of_R (FEM.h s * v)
         + FEM.ga s * Cx.of_R (FEM.phi phi_j (FEM.a s))
         + FEM.gb s * Cx.of_R (FEM.phi phi_j (FEM.b s)))%C)
  /\ ((j = 0 \/ j = Z.of_nat (FEM.N s))%Z ->
      FEM.rhs s j
      = Ok (Cx.of_R (FEM.h s * v / 2)
            + FEM.ga s * Cx.of_R (FEM.phi phi_j (FEM.a s))
            + FEM.gb s * Cx.of_R (FEM.phi phi_j (FEM.b s)))%C).
Proof.
  intros Hsrc Hf Hj Hphi. unfold FEM.rhs.
  rewrite (py_index_nonneg _ _ _ (proj1 Hj) Hphi), Hsrc, Hf. simpl.
  rewrite (Rmult_comm v (FEM.h s)). split.
  - intros Hin.
    replace ((j =? 0)%Z || (j =? Z.of_nat (FEM.N s))%Z) with false
      by (symmetry; apply orb_false_iff; split; apply Z.eqb_neq; lia).
    reflexivity.
  - intros Hbd.
    replace ((j =? 0)%Z || (j =? Z.of_nat (FEM.N s))%Z) with true
      by (symmetry; apply orb_true_iff; destruct Hbd; [left|right]; apply Z.eqb_eq; lia).
    reflexivity.
Qed.

End FEM_properties.

Lemma fem_solve_tridiagonal_witness :
  exists s s',
    Demo.fem (Num 1) "const" = Ok s
    /\ returns (FEM.solve Demo.linalg_solve) s tt s'
    /\ square 3 (FEM.A s') /\ tridiagonal (FEM.A s').
Proof.
  eexists. eexists. split; [reflexivity|]. split; [split; reflexivity|].
  eapply (fem_solve_tridiagonal Demo.Finite_Elements Demo.quadrature
            Demo.linalg_solve (Num 1) 1 0 1 (1, 0)%R (0, 0)%R "const" 2 None).
  - reflexivity.
  - split; reflexivity.
Defined.

Lemma fem_rhs_invalid_source_witness :
  exists s,
    Demo.fem (Num 1) "bogus" = Ok s
    /\ FEM.rhs s 1 = Raise (ValueError "bogus is not a valid source type.").
Proof.
  eexists. split; [reflexivity|].
  refine (fem_rhs_invalid_source
            (FEM.mkFem "bogus" _ _ _ _ _ _ _ _ _ _ _ _ _ _ _ _ _ _ _) 1%Z _ _ _).
  - discriminate.
  - discriminate.
  - unfold valid_index. simpl. lia.
Defined.

Lemma fem_rhs_out_of_range_witness :
  Demo.fem (Num 1) "bogus" = Ok Demo.bogus
  /\ FEM.rhs Demo.bogus 3 = Raise IndexError.
Proof.
  split; [reflexivity|].
  apply fem_rhs_out_of_range. unfold valid_index. simpl. lia.
Defined.


Lemma fem_rhs_const_witness :
  exists s phi_1 phi_2,
    Demo.fem (Num 3) "const" = Ok s
    /\ FEM.rhs s 1
       = Ok (Cx.of_R (FEM.h s * 3)
             + FEM.ga s * Cx.of_R (FEM.phi phi_1 (FEM.a s))
             + FEM.gb s * Cx.of_R (FEM.phi phi_1 (FEM.b s)))%C
    /\ FEM.rhs s 2
       = Ok (Cx.of_R (FEM.h s * 3 / 2)
             + FEM.ga s * Cx.of_R (FEM.phi phi_2 (FEM.a s))
             + FEM.gb s * Cx.of_R (FEM.phi phi_2 (FEM.b s)))%C.
Proof.
  eexists. eexists. eexists. split; [reflexivity|]. split.
  - apply (fem_rhs_const _ 1%Z 3%R); [reflexivity|reflexivity|simpl; lia|reflexivity|simpl; lia].
  - apply (fem_rhs_const _ 2%Z 3%R); [reflexivity|reflexivity|simpl; lia|reflexivity|].
    right. reflexivity.
Defined.

(** ** The approximator and its construction *)

Section VPINN_network.

Variable Linear : Type.
Variable apply_linear : Linear -> list R -> list R.
Variable autograd : VPINN.traced -> VPINN.traced.

Local Abbreviation deriv := (VPINN.deriv Linear apply_linear autograd).

(** What [deriv] gives for one of the three orders: a pair of columns, or
    the [RuntimeError] of [torch.autograd.grad]. *)
Lemma deriv_supported_order (c : VPINN.config) (ls : list Linear) (n : Z) (x : VPINN.input) :
  (n = 0 \/ n = 1 \/ n = 2)%Z ->
  (exists p, deriv c ls n x = Ok p) \/ deriv c ls n x = Raise RuntimeError.
Proof.
  intros [-> | [-> | ->]]; unfold VPINN.deriv, VPINN.grad; cbn [existsb Z.eqb negb orb];
    cbn [VPINN.holds_x].
  - left. eauto.
  - destruct (VPINN.requires_grad x); cbn; eauto.
  - destruct (VPINN.requires_grad x); cbn; [|eauto].
    destruct (VPINN.holds_x (autograd _)); cbn; [|eauto].
    destruct (VPINN.holds_x (autograd _)); cbn; eauto.
Qed.

(** C6. [deriv(n, x)] raises the [ValueError] of its test of the order
    exactly when [n] is not 0, 1 or 2: for every such order (3 among them)
    it raises it, with the message that names [n], and for the orders 0, 1
    and 2 it raises no [ValueError], whatever the network and the input
    (for the orders 1 and 2 [torch.autograd.grad] may still raise its
    [RuntimeError]). *)
Theorem vpinn_deriv_order (c : VPINN.config) (ls : list Linear) (n : Z) (x : VPINN.input) :
  ((n = 0 \/ n = 1 \/ n = 2)%Z ->
   forall msg : string, deriv c ls n x <> Raise (ValueError msg))
  /\ (~ (n = 0 \/ n = 1 \/ n = 2)%Z ->
      deriv c ls n x
      = Raise (ValueError (String.append "n = "
                 (String.append (VPINN.decimal n) " is not a valid derivative.")))).
Proof.
  split.
  - intros Hn msg. destruct (deriv_supported_order c ls n x Hn) as [[p ->] | ->];
      discriminate.
  - intros Hn. unfold VPINN.deriv. simpl.
    destruct (n =? 0)%Z eqn:H0; [apply Z.eqb_eq in H0; tauto|].
    destruct (n =? 1)%Z eqn:H1; [apply Z.eqb_eq in H1; tauto|].
    destruct (n =? 2)%Z eqn:H2; [apply Z.eqb_eq in H2; tauto|].
    reflexivity.
Qed.

Variable Rng : Type.
Variable manual_seed : Z -> Rng -> Rng.
Variable nn_Linear : Z -> Z -> Rng -> Linear * Rng.
Variable xavier_normal_ : Linear -> Rng -> Linear * Rng.
Variable uniform_ : R -> R -> Linear -> Rng -> Linear * Rng.
Variable zeros_ : Linear -> Linear.
Variable gauss_lobatto_jacobi_quadrature1D : nat -> R -> R -> list R * list R.
Variable self_loss_v :
  VPINN.config -> list Linear -> VPINN.testfn -> list R * list R -> result R.

Local Abbreviation init :=
  (VPINN.init Linear Rng manual_seed nn_Linear xavier_normal_ uniform_ zeros_
     gauss_lobatto_jacobi_quadrature1D).
Local Abbreviation epoch_loss := (VPINN.epoch_loss Linear apply_linear autograd self_loss_v).
Local Abbreviation residual_loss := (VPINN.residual_loss Linear self_loss_v).

Lemma returns_draw {A : Type} (g : Rng -> A * Rng) (r r' : Rng) (v : A) :
  returns (VPINN.draw Rng g) r v r' -> v = fst (g r) /\ r' = snd (g r).
Proof. intros [Hv Hs]. simpl in *. split; congruence. Qed.

(** The penalty a solver keeps is the one computed from the argument. *)
Lemma init_penalty f k a b ga gb layers activation penalty quad_N seed r s r' :
  returns (init f k a b ga gb layers activation penalty quad_N seed) r s r' ->
  VPINN.penalty (VPINN.cfg s) = VPINN.stored_penalty penalty.
Proof.
  intros Hrun. unfold VPINN.init in Hrun. run_inv.
  match goal with
  | H : returns (if ?c then _ else _) _ _ _ |- _ => destruct c; run_inv
  end.
  reflexivity.
Qed.

Lemma stored_penalty_zero : VPINN.stored_penalty (Some 0%R) = None.
Proof. unfold VPINN.stored_penalty. destruct (Req_dec_T 0 0); congruence. Qed.

Lemma epoch_loss_no_penalty (c : VPINN.config) (ls : list Linear) tfs :
  VPINN.penalty c = None -> epoch_loss c ls tfs = residual_loss c ls tfs.
Proof.
  intros Hp. unfold VPINN.epoch_loss. rewrite Hp. simpl.
  destruct (residual_loss c ls tfs); reflexivity.
Qed.

(** C9. A penalty of 0 and a seed of 0 are treated as absent: [__init__]
    run with [penalty=0] is [__init__] run with [penalty=None], [__init__]
    run with [seed=0] is [__init__] run with [seed=None] (the generator is
    not seeded), and the loss of an epoch of a solver built with
    [penalty=0] is the sum of the residual terms alone. *)
Theorem vpinn_zero_option_is_absent f k a b ga gb layers activation quad_N
    (penalty : option R) (seed : option Z) (r : Rng) :
  init f k a b ga gb layers activation (Some 0%R) quad_N seed r
  = init f k a b ga gb layers activation None quad_N seed r
  /\ init f k a b ga gb layers activation penalty quad_N (Some 0%Z) r
     = init f k a b ga gb layers activation penalty quad_N None r
  /\ (forall s r',
        returns (init f k a b ga gb layers activation (Some 0%R) quad_N seed) r s r' ->
        forall ls tfs, epoch_loss (VPINN.cfg s) ls tfs = residual_loss (VPINN.cfg s) ls tfs).
Proof.
  split; [|split].
  - unfold VPINN.init. rewrite stored_penalty_zero. reflexivity.
  - reflexivity.
  - intros s r' Hrun ls tfs. apply epoch_loss_no_penalty.
    rewrite (init_penalty _ _ _ _ _ _ _ _ _ _ _ _ _ _ Hrun).
    apply stored_penalty_zero.
Qed.

End VPINN_network.

Lemma vpinn_deriv_order_witness :
  VPINN.deriv Demo.Linear Demo.apply_linear Demo.autograd (Demo.config None) Demo.lins 3
    (VPINN.mkInput [0%R] true)
  = Raise (ValueError "n = 3 is not a valid derivative.")
  /\ forall msg : string,
       VPINN.deriv Demo.Linear Demo.apply_linear Demo.autograd (Demo.config None) Demo.lins 2
         (VPINN.mkInput [0%R] true)
       <> Raise (ValueError msg).
Proof.
  split.
  - refine (proj2 (vpinn_deriv_order Demo.Linear Demo.apply_linear Demo.autograd
                     (Demo.config None) Demo.lins 3 (VPINN.mkInput [0%R] true)) _).
    lia.
  - refine (proj1 (vpinn_deriv_order Demo.Linear Demo.apply_linear Demo.autograd
                     (Demo.config None) Demo.lins 2 (VPINN.mkInput [0%R] true)) _).
    lia.
Defined.

Lemma vpinn_zero_option_is_absent_witness :
  exists s r',
    returns (Demo.vpinn (Some 0%R) None) 7%Z s r'
    /\ forall ls tfs,
         VPINN.epoch_loss Demo.Linear Demo.apply_linear Demo.autograd Demo.loss_v
           (VPINN.cfg s) ls tfs
         = VPINN.residual_loss Demo.Linear Demo.loss_v (VPINN.cfg s) ls tfs.
Proof.
  eexists. eexists. split; [split; reflexivity|].
  refine (proj2 (proj2 (vpinn_zero_option_is_absent Demo.Linear Demo.apply_linear
            Demo.autograd Demo.Rng Demo.manual_seed Demo.nn_Linear Demo.xavier_normal_
            Demo.uniform_ Demo.zeros_ Demo.quadrature Demo.loss_v
            (fun _ => 1%R) 1 0 1 (1, 0)%R (0, 0)%R [1; 3; 2]%Z (fun t => t) 1
            None None 7%Z)) _ _ _).
  split; reflexivity.
Defined.

(** ** The H1 error *)

Lemma Rsum_nonneg (xs : list R) : nonneg xs -> (0 <= Rsum xs)%R.
Proof.
  induction 1 as [|x xs Hx _ IH]; simpl; [lra|].
  pose proof IH. lra.
Qed.

Lemma zip_with_nonneg {A B : Type} (g : A -> B -> R) (xs : list A) (ys : list B) :
  (forall x y, In x xs -> In y ys -> (0 <= g x y)%R) -> nonneg (zip_with g xs ys).
Proof.
  revert ys. induction xs as [|x xs IH]; intros [|y ys] Hg; simpl; try constructor.
  - apply Hg; left; reflexivity.
  - apply IH. intros x' y' Hx' Hy'. apply Hg; right; assumption.
Qed.

Lemma products_nonneg (vs ws : list R) :
  nonneg vs -> nonneg ws -> nonneg (zip_with Rmult vs ws).
Proof.
  intros Hv Hw. apply zip_with_nonneg. intros x y Hx Hy.
  unfold nonneg in *. rewrite Forall_forall in Hv, Hw.
  apply Rmult_le_pos; [apply Hv|apply Hw]; apply list_elem_of_In; assumption.
Qed.

(** [torch.sum] of the table of products, for a tensor of shape [(n,)]: the
    sum of the entries times the sum of the weights. *)
Lemma sum_mul_flat (es ws : list R) :
  VPINN.sum_mul (VPINN.Flat es) ws = (Rsum es * Rsum ws)%R.
Proof.
  simpl. induction ws as [|w ws IH]; simpl; [lra|].
  rewrite IH.
  assert (Hrow : Rsum (map (fun e => (e * w)%R) es) = (Rsum es * w)%R).
  { clear. induction es as [|e es IH]; simpl; [lra|]. rewrite IH. lra. }
  rewrite Hrow. lra.
Qed.

Section VPINN_H1.

Variable Linear : Type.
Variable apply_linear : Linear -> list R -> list R.
Variable autograd : VPINN.traced -> VPINN.traced.

Local Abbreviation u2 := (VPINN.u2 Linear apply_linear).

(** X1. In [H1_error] of the VPINN solver the integrand has shape [(n,)]
    and the weights have shape [(n, 1)], so their product is the table of
    all products: the value [intg(u2)] is
    [(roots[-1] - roots[0]) * (sum of u2 over the nodes) * (sum of the
    weights) / 2], and not the weighted sum of [u2] over the nodes. *)
Theorem vpinn_H1_integral_is_product (c : VPINN.config) (ls : list Linear)
    (u : R -> C) (lo hi : R) :
  py_index (fst (VPINN.quadpoints c)) 0 = Ok lo ->
  py_index (fst (VPINN.quadpoints c)) (-1) = Ok hi ->
  VPINN.intg c (u2 c ls u) None
  = Ok ((hi - lo)
        * (Rsum (map (fun t =>
                        (Cx.re (u t) - fst (VPINN.forward Linear apply_linear c ls t)) ^ 2
                        + (Cx.im (u t) - snd (VPINN.forward Linear apply_linear c ls t)) ^ 2)
                     (fst (VPINN.quadpoints c)))
           * Rsum (snd (VPINN.quadpoints c)))
        / 2)%R.
Proof.
  intros Hlo Hhi. unfold VPINN.intg, VPINN.u2. rewrite Hhi, Hlo. cbn [rbind].
  rewrite sum_mul_flat. reflexivity.
Qed.

End VPINN_H1.

Lemma vpinn_H1_integral_is_product_witness :
  exists y,
    VPINN.intg (Demo.config None)
      (VPINN.u2 Demo.Linear Demo.apply_linear (Demo.config None) Demo.lins (fun _ => Cx.zero))
      None = Ok ((1 - 0) * (y * Rsum [1; 1]) / 2)%R.
Proof.
  eexists.
  apply (vpinn_H1_integral_is_product Demo.Linear Demo.apply_linear
           (Demo.config None) Demo.lins (fun _ => Cx.zero) 0 1); reflexivity.
Defined.

(** ** Training *)

Lemma py_range_cons (lo hi : Z) :
  (lo < hi)%Z -> py_range lo hi = lo :: py_range (lo + 1) hi.
Proof.
  intros Hlt. unfold py_range.
  replace (Z.to_nat (hi - lo)) with (S (Z.to_nat (hi - (lo + 1)))) by lia.
  simpl. f_equal; [lia|].
  rewrite <- seq_shift, map_map. apply map_ext. intros i. lia.
Qed.

Lemma py_range_nil (lo hi : Z) : (hi <= lo)%Z -> py_range lo hi = [].
Proof.
  intros Hle. unfold py_range. replace (Z.to_nat (hi - lo)) with O by lia. reflexivity.
Qed.

Section VPINN_training.

Variable Linear : Type.
Variable apply_linear : Linear -> list R -> list R.
Variable autograd : VPINN.traced -> VPINN.traced.
Variable gauss_lobatto_jacobi_quadrature1D : nat -> R -> R -> list R * list R.
Variable Opt : Type.
Variable Sch : Type.
Variable zero_grad : Opt -> list Linear -> list Linear.
Variable backward : (list Linear -> result VPINN.pyloss) -> list Linear -> list Linear.
Variable optimizer_step : Opt -> list Linear -> Opt * list Linear.
Variable scheduler_step : Sch -> Opt -> Sch * Opt.
Variable self_loss_v :
  VPINN.config -> list Linear -> VPINN.testfn -> list R * list R -> result R.

Local Abbreviation train_ :=
  (VPINN.train_ Linear apply_linear autograd gauss_lobatto_jacobi_quadrature1D
     Opt Sch zero_grad backward optimizer_step scheduler_step self_loss_v).
Local Abbreviation run_epoch :=
  (VPINN.run_epoch Linear apply_linear autograd
     Opt Sch zero_grad backward optimizer_step scheduler_step self_loss_v).
Local Abbreviation optimise :=
  (VPINN.optimise Linear Opt Sch zero_grad backward optimizer_step scheduler_step).
Local Abbreviation record_sample :=
  (VPINN.record_sample Linear apply_linear autograd Opt Sch).
Local Abbreviation epoch_loss := (VPINN.epoch_loss Linear apply_linear autograd self_loss_v).
Local Abbreviation residual_loss := (VPINN.residual_loss Linear self_loss_v).
Local Abbreviation H1_error := (VPINN.H1_error Linear apply_linear autograd).
Local Abbreviation step :=
  (optimisation_step Linear apply_linear autograd Opt Sch zero_grad backward
     optimizer_step scheduler_step self_loss_v).
Local Abbreviation loss_v_returns := (loss_v_returns Linear self_loss_v).
Local Abbreviation exact_ready := (exact_ready Linear).
Local Abbreviation attached := (attached gauss_lobatto_jacobi_quadrature1D).
Local Abbreviation epoch_done :=
  (epoch_done Linear apply_linear autograd Opt Sch zero_grad backward
     optimizer_step scheduler_step self_loss_v).

Lemma at_point_ok c ls (n : Z) im t :
  (n = 0 \/ n = 1)%Z ->
  exists r, VPINN.at_point Linear apply_linear autograd c ls n im t = Ok r.
Proof.
  intros [-> | ->]; unfold VPINN.at_point, VPINN.component, VPINN.deriv; simpl; eauto.
Qed.

Lemma pen_ok c ls p : exists r, VPINN.pen Linear apply_linear autograd c ls p = Ok r.
Proof.
  unfold VPINN.pen, VPINN.at_point, VPINN.component, VPINN.deriv. simpl. eauto.
Qed.

Lemma residual_loss_tensor c ls tfs :
  loss_v_returns c tfs -> tfs <> [] ->
  exists l, residual_loss c ls tfs = Ok (VPINN.Tensor l).
Proof.
  intros Hlv Hne. unfold VPINN.residual_loss.
  generalize (length tfs) as K. intros K.
  assert (Hgen : forall rest acc,
             (forall vq, In vq rest -> In vq tfs) ->
             exists l,
               fold_left
                 (fun acc0 vq =>
                    rbind acc0 (fun l0 =>
                      rbind (self_loss_v c ls (fst vq) (snd vq)) (fun t =>
                        Ok (VPINN.add_term l0 (t / INR K)%R))))
                 rest (Ok (VPINN.Tensor acc)) = Ok (VPINN.Tensor l)).
  { induction rest as [|vq rest IH]; intros acc Hin; simpl; [eauto|].
    destruct (Hlv ls vq (Hin vq (or_introl eq_refl))) as [r ->]. simpl.
    apply IH. intros vq' Hvq'. apply Hin. right. exact Hvq'. }
  destruct tfs as [|vq tfs]; [congruence|]. simpl.
  destruct (Hlv ls vq (or_introl eq_refl)) as [r ->]. simpl.
  apply Hgen. intros vq' Hvq'. right. exact Hvq'.
Qed.

Lemma epoch_loss_tensor c ls tfs :
  loss_v_returns c tfs -> tfs <> [] ->
  exists l, epoch_loss c ls tfs = Ok (VPINN.Tensor l).
Proof.
  intros Hlv Hne. unfold VPINN.epoch_loss.
  destruct (residual_loss_tensor c ls tfs Hlv Hne) as [l ->]. cbn [rbind].
  destruct (VPINN.truthy (VPINN.penalty c)); [|eauto].
  destruct (VPINN.penalty c) as [p|]; [|eauto].
  destruct (pen_ok c ls p) as [r ->]. cbn [rbind VPINN.add_term]. eauto.
Qed.

(** *** Running the blocks of an epoch *)

Lemma bind_ok {St A B : Type} (m : M St A) (k : A -> M St B) (s s' : St) (v : A) :
  m s = mkOutcome (Ok v) s' [] -> bind m k s = k v s'.
Proof. intros H. unfold bind. rewrite H. simpl. destruct (k v s'); reflexivity. Qed.

Lemma bind_raise {St A B : Type} (m : M St A) (k : A -> M St B) (s s' : St)
    (e : exn) (out : list string) :
  m s = mkOutcome (Raise e) s' out -> bind m k s = mkOutcome (Raise e) s' out.
Proof. intros H. unfold bind. rewrite H. reflexivity. Qed.

Lemma py_index_nonempty {A : Type} (l : list A) (j : Z) :
  l <> [] -> (j = 0 \/ j = -1)%Z -> exists v, py_index l j = Ok v.
Proof.
  intros Hl Hj. apply py_index_valid. unfold valid_index.
  destruct l; [congruence|]. simpl length. lia.
Qed.

Lemma intg_returns c (func : list R -> result VPINN.tensor) :
  fst (VPINN.quadpoints c) <> [] ->
  (exists t, func (fst (VPINN.quadpoints c)) = Ok t) ->
  exists y, VPINN.intg c func None = Ok y.
Proof.
  intros Hroots [t Ht]. unfold VPINN.intg.
  destruct (py_index_nonempty _ (-1) Hroots) as [hi ->]; [lia|].
  destruct (py_index_nonempty _ 0 Hroots) as [lo ->]; [lia|].
  cbn [rbind]. rewrite Ht. cbn [rbind]. eauto.
Qed.

Lemma H1_error_returns (u u_x : R -> C) (m : VPINN.vpinn Linear) :
  fst (VPINN.quadpoints (VPINN.cfg m)) <> [] ->
  exists r, H1_error u u_x m = mkOutcome (Ok r) (VPINN.set_training false m) [].
Proof.
  intros Hroots. unfold VPINN.H1_error.
  destruct (intg_returns (VPINN.cfg m)
              (VPINN.u2 Linear apply_linear (VPINN.cfg m) (VPINN.lins m) u) Hroots)
    as [iu Hiu]; [unfold VPINN.u2; eauto|].
  destruct (intg_returns (VPINN.cfg m)
              (VPINN.ux2 Linear apply_linear autograd (VPINN.cfg m) (VPINN.lins m) u_x) Hroots)
    as [iux Hiux];
    [unfold VPINN.ux2, VPINN.component, VPINN.deriv; simpl; eauto|].
  unfold bind, get, modify, lift, ret. simpl. rewrite Hiu. simpl. rewrite Hiux. simpl.
  eauto.
Qed.

Lemma on_model_ok {A : Type} (m : M (VPINN.vpinn Linear) A)
    (st : VPINN.tstate Linear Opt Sch) (v : A) (s' : VPINN.vpinn Linear) :
  m (VPINN.model st) = mkOutcome (Ok v) s' [] ->
  VPINN.on_model Linear Opt Sch m st
  = mkOutcome (Ok v) (VPINN.mkTstate s' (VPINN.optimizer st) (VPINN.scheduler st)) [].
Proof. intros H. unfold VPINN.on_model. rewrite H. reflexivity. Qed.

Lemma record_sample_returns exact (e : Z) (l : R) (st : VPINN.tstate Linear Opt Sch) :
  exact_ready exact (VPINN.model st) ->
  exists m',
    record_sample exact e (VPINN.Tensor l) st
    = mkOutcome (Ok tt) (VPINN.mkTstate m' (VPINN.optimizer st) (VPINN.scheduler st)) []
    /\ VPINN.cfg m' = VPINN.cfg (VPINN.model st)
    /\ VPINN.lins m' = VPINN.lins (VPINN.model st)
    /\ VPINN.epoch m' = VPINN.epoch (VPINN.model st)
    /\ VPINN.epochs (VPINN.history m') = VPINN.epochs (VPINN.history (VPINN.model st)) ++ [e]
    /\ VPINN.losses (VPINN.history m') = VPINN.losses (VPINN.history (VPINN.model st)) ++ [l]
    /\ (VPINN.errors (VPINN.history m') = None
        <-> VPINN.errors (VPINN.history (VPINN.model st)) = None).
Proof.
  intros Hready. destruct st as [m opt sch]. unfold VPINN.record_sample.
  erewrite bind_ok by reflexivity.
  erewrite bind_ok by reflexivity.
  erewrite bind_ok by reflexivity.
  destruct exact as [[u u_x]|].
  - destruct Hready as [Hroots Herr]; [discriminate|]. simpl in Hroots, Herr.
    destruct (H1_error_returns u u_x
                (VPINN.append_loss l (VPINN.append_epoch e m)) Hroots) as [r Hr].
    destruct (VPINN.errors (VPINN.history m)) as [[[tot so] de]|] eqn:Herrs; [|congruence].
    erewrite bind_ok by (apply on_model_ok; exact Hr).
    erewrite bind_ok by reflexivity.
    erewrite bind_ok
      by (unfold lift, VPINN.append_error; simpl; rewrite Herrs; reflexivity).
    eexists. split; [reflexivity|].
    simpl. rewrite ?Herrs. repeat split; try reflexivity; intros; discriminate.
  - eexists. split; [reflexivity|]. simpl. repeat split; tauto.
Qed.

Lemma optimise_returns c tfs (l : R) (st : VPINN.tstate Linear Opt Sch) (sch : Sch) :
  VPINN.scheduler st = Some sch ->
  optimise (fun ls => epoch_loss c ls tfs) (VPINN.Tensor l) st
  = mkOutcome (Ok tt)
      (VPINN.mkTstate
         (VPINN.set_lins
            (fst (fst (step c tfs (VPINN.lins (VPINN.model st), VPINN.optimizer st, sch))))
            (VPINN.model st))
         (snd (fst (step c tfs (VPINN.lins (VPINN.model st), VPINN.optimizer st, sch))))
         (Some (snd (step c tfs (VPINN.lins (VPINN.model st), VPINN.optimizer st, sch)))))
      [].
Proof.
  intros Hsch. destruct st as [m opt sch0]. simpl in Hsch. subst sch0.
  reflexivity.
Qed.

Lemma optimise_without_scheduler graph (l : R) (st : VPINN.tstate Linear Opt Sch) :
  VPINN.scheduler st = None ->
  optimise graph (VPINN.Tensor l) st
  = mkOutcome (Raise (AttributeError "'NoneType' object has no attribute 'step'"))
      (VPINN.mkTstate
         (VPINN.set_lins
            (snd (optimizer_step (VPINN.optimizer st)
                    (backward graph (zero_grad (VPINN.optimizer st)
                                       (VPINN.lins (VPINN.model st))))))
            (VPINN.model st))
         (fst (optimizer_step (VPINN.optimizer st)
                 (backward graph (zero_grad (VPINN.optimizer st)
                                    (VPINN.lins (VPINN.model st))))))
         None) [].
Proof.
  intros Hsch. destruct st as [m opt sch0]. simpl in Hsch. subst sch0.
  reflexivity.
Qed.

Local Abbreviation trained_of := (trained_of Linear Opt Sch).
Local Abbreviation loss_value := (loss_value Linear apply_linear autograd Opt Sch self_loss_v).
Local Abbreviation trajectory :=
  (trajectory Linear apply_linear autograd Opt Sch zero_grad backward
     optimizer_step scheduler_step self_loss_v).

Lemma run_epoch_returns tfs (last : Z) exact (e : Z) st k :
  loss_v_returns (VPINN.cfg (VPINN.model st)) tfs -> tfs <> [] ->
  trained_of st = Some k ->
  exact_ready exact (VPINN.model st) ->
  exists st',
    run_epoch tfs last exact e st = mkOutcome (Ok tt) st' []
    /\ epoch_done tfs last e k st st'.
Proof.
  intros Hlv Hne Hk Hready. destruct st as [m opt [sch|]]; [|discriminate].
  injection Hk as <-.
  destruct (epoch_loss_tensor (VPINN.cfg m) (VPINN.lins m) tfs Hlv Hne) as [l Hl].
  unfold VPINN.run_epoch.
  erewrite bind_ok by reflexivity.
  erewrite bind_ok by (unfold lift; cbn [VPINN.model VPINN.cfg VPINN.lins]; rewrite Hl; reflexivity).
  change (((e mod 10 =? 0) || (e =? last))%Z) with (sampled last e).
  unfold epoch_done, loss_value. cbn [fst snd]. cbn [VPINN.model]. rewrite Hl.
  destruct (sampled last e).
  - destruct (record_sample_returns exact e l (VPINN.mkTstate m opt (Some sch)) Hready)
      as (m' & Hrun & Hcfg & Hlins & Hepoch & Hepochs & Hlosses & Herrors).
    cbn [VPINN.model VPINN.optimizer VPINN.scheduler] in *.
    erewrite bind_ok by exact Hrun.
    erewrite bind_ok by (apply optimise_returns; reflexivity).
    eexists. split; [reflexivity|].
    cbn. rewrite Hcfg, Hlins, Hepoch, Hepochs, Hlosses.
    repeat split; try reflexivity; apply Herrors.
  - erewrite bind_ok by reflexivity.
    erewrite bind_ok by (apply optimise_returns; reflexivity).
    eexists. split; [reflexivity|].
    cbn. rewrite !app_nil_r. repeat split; tauto.
Qed.

(** *** The loop of [train_] *)

Lemma iter_step_shift {A : Type} (g : A -> A) (n : nat) (k : A) :
  Nat.iter n g (g k) = Nat.iter (S n) g k.
Proof. induction n as [|n IH]; simpl; [reflexivity|]. rewrite IH. reflexivity. Qed.

Lemma epochs_return tfs (last : Z) exact (n : nat) :
  tfs <> [] ->
  forall (e : Z) st k,
    loss_v_returns (VPINN.cfg (VPINN.model st)) tfs ->
    trained_of st = Some k -> exact_ready exact (VPINN.model st) ->
    exists st',
      for_each (py_range e (e + Z.of_nat n)) (run_epoch tfs last exact) st
      = mkOutcome (Ok tt) st' []
      /\ VPINN.cfg (VPINN.model st') = VPINN.cfg (VPINN.model st)
      /\ VPINN.epoch (VPINN.model st') = (VPINN.epoch (VPINN.model st) + Z.of_nat n)%Z
      /\ trained_of st' = Some (Nat.iter n (step (VPINN.cfg (VPINN.model st)) tfs) k)
      /\ VPINN.epochs (VPINN.history (VPINN.model st'))
         = VPINN.epochs (VPINN.history (VPINN.model st))
           ++ map fst (trajectory (VPINN.cfg (VPINN.model st)) tfs last e n k)
      /\ VPINN.losses (VPINN.history (VPINN.model st'))
         = VPINN.losses (VPINN.history (VPINN.model st))
           ++ map snd (trajectory (VPINN.cfg (VPINN.model st)) tfs last e n k)
      /\ (VPINN.errors (VPINN.history (VPINN.model st')) = None
          <-> VPINN.errors (VPINN.history (VPINN.model st)) = None).
Proof.
  intros Hne. induction n as [|n IH]; intros e st k Hlv Hk Hready.
  - rewrite py_range_nil by lia. exists st. simpl.
    rewrite Z.add_0_r, !app_nil_r. repeat split; tauto.
  - rewrite py_range_cons by lia.
    replace (e + Z.of_nat (S n))%Z with (e + 1 + Z.of_nat n)%Z by lia.
    destruct (run_epoch_returns tfs last exact e st k Hlv Hne Hk Hready)
      as (st1 & Hrun1 & Hcfg1 & Hepoch1 & Hk1 & Hepochs1 & Hlosses1 & Herrors1).
    cbv zeta in Hcfg1, Hk1, Hepochs1, Hlosses1.
    assert (Hready1 : exact_ready exact (VPINN.model st1)).
    { intros Hex. destruct (Hready Hex) as [Hroots Herr].
      rewrite Hcfg1. split; [assumption|]. rewrite Herrors1. assumption. }
    assert (Hlv1 : loss_v_returns (VPINN.cfg (VPINN.model st1)) tfs)
      by (rewrite Hcfg1; exact Hlv).
    destruct (IH (e + 1)%Z st1 _ Hlv1 Hk1 Hready1)
      as (st' & Hrun & Hcfg & Hepoch & Hk' & Hepochs & Hlosses & Herrors).
    exists st'. split; [|split; [|split; [|split; [|split; [|split]]]]].
    + cbn [for_each]. erewrite bind_ok by exact Hrun1. exact Hrun.
    + congruence.
    + rewrite Hepoch, Hepoch1. lia.
    + rewrite Hk', Hcfg1, iter_step_shift. reflexivity.
    + rewrite Hepochs, Hepochs1, Hcfg1. cbn [trajectory].
      rewrite map_app, <- app_assoc. f_equal. f_equal.
      destruct (sampled last e); reflexivity.
    + rewrite Hlosses, Hlosses1, Hcfg1. cbn [trajectory].
      rewrite map_app, <- app_assoc. f_equal. f_equal.
      destruct (sampled last e); reflexivity.
    + rewrite Herrors, Herrors1. reflexivity.
Qed.

(** *** A call of [train_] *)

Lemma train_returns testfunctions (n : Z) exact st k :
  loss_v_returns (VPINN.cfg (VPINN.model st))
    (attached (VPINN.cfg (VPINN.model st)) testfunctions) ->
  testfunctions <> [] -> (0 <= n)%Z ->
  trained_of st = Some k ->
  (exact <> None -> fst (VPINN.quadpoints (VPINN.cfg (VPINN.model st))) <> []) ->
  exists st',
    train_ testfunctions n exact st = mkOutcome (Ok tt) st' []
    /\ VPINN.cfg (VPINN.model st') = VPINN.cfg (VPINN.model st)
    /\ VPINN.epoch (VPINN.model st')
       = (VPINN.epoch (VPINN.model st)
          + Z.of_nat (epochs_run (VPINN.epoch (VPINN.model st)) n))%Z
    /\ trained_of st'
       = Some (Nat.iter (epochs_run (VPINN.epoch (VPINN.model st)) n)
                 (step (VPINN.cfg (VPINN.model st))
                    (attached (VPINN.cfg (VPINN.model st)) testfunctions)) k)
    /\ VPINN.epochs (VPINN.history (VPINN.model st'))
       = VPINN.epochs (VPINN.history (VPINN.model st))
         ++ map fst (trajectory (VPINN.cfg (VPINN.model st))
                       (attached (VPINN.cfg (VPINN.model st)) testfunctions)
                       (last_epoch (VPINN.epoch (VPINN.model st)) n)
                       (VPINN.epoch (VPINN.model st))
                       (epochs_run (VPINN.epoch (VPINN.model st)) n) k)
    /\ VPINN.losses (VPINN.history (VPINN.model st'))
       = VPINN.losses (VPINN.history (VPINN.model st))
         ++ map snd (trajectory (VPINN.cfg (VPINN.model st))
                       (attached (VPINN.cfg (VPINN.model st)) testfunctions)
                       (last_epoch (VPINN.epoch (VPINN.model st)) n)
                       (VPINN.epoch (VPINN.model st))
                       (epochs_run (VPINN.epoch (VPINN.model st)) n) k).
Proof.
  intros Hlv Hne Hn Hk Hroots.
  destruct st as [m opt [sch|]]; [|discriminate]. cbn [VPINN.model] in *.
  assert (Hatt : attached (VPINN.cfg m) testfunctions <> [])
    by (unfold attached; destruct testfunctions; [congruence|discriminate]).
  assert (Hcount : (VPINN.epoch m + Z.of_nat (epochs_run (VPINN.epoch m) n))%Z
                   = (last_epoch (VPINN.epoch m) n + 1)%Z).
  { unfold epochs_run, last_epoch. destruct (VPINN.epoch m =? 0)%Z eqn:H0; lia. }
  unfold VPINN.train_.
  erewrite bind_ok by reflexivity. cbn [VPINN.model].
  set (prologue := match exact with
                   | Some _ =>
                       match VPINN.errors (VPINN.history m) with
                       | Some _ => m
                       | None =>
                           VPINN.set_history
                             (VPINN.mkHistory (VPINN.epochs (VPINN.history m))
                                (VPINN.losses (VPINN.history m)) (Some ([], [], []))) m
                       end
                   | None => m
                   end).
  erewrite (bind_ok _ _ _ (VPINN.mkTstate prologue opt (Some sch)))
    by (subst prologue; destruct exact; [destruct (VPINN.errors (VPINN.history m))|];
        reflexivity).
  erewrite bind_ok by reflexivity.
  erewrite bind_ok by reflexivity.
  cbn [state modify VPINN.model VPINN.optimizer VPINN.scheduler VPINN.cfg
       VPINN.epoch VPINN.set_training].
  assert (Hsame : VPINN.cfg prologue = VPINN.cfg m
                  /\ VPINN.epoch prologue = VPINN.epoch m
                  /\ VPINN.lins prologue = VPINN.lins m
                  /\ VPINN.epochs (VPINN.history prologue) = VPINN.epochs (VPINN.history m)
                  /\ VPINN.losses (VPINN.history prologue) = VPINN.losses (VPINN.history m)
                  /\ (exact <> None -> VPINN.errors (VPINN.history prologue) <> None)).
  { subst prologue.
    destruct exact; [destruct (VPINN.errors (VPINN.history m)) eqn:He|];
      cbn; rewrite ?He; repeat split; congruence. }
  destruct Hsame as (Hcfg & Hepoch & Hlins & Hepochs & Hlosses & Herrors).
  rewrite Hcfg, Hepoch.
  fold (attached (VPINN.cfg m) testfunctions).
  fold (last_epoch (VPINN.epoch m) n).
  rewrite <- Hcount.
  destruct (epochs_return (attached (VPINN.cfg m) testfunctions)
              (last_epoch (VPINN.epoch m) n) exact (epochs_run (VPINN.epoch m) n)
              Hatt (VPINN.epoch m)
              (VPINN.mkTstate (VPINN.set_training true prologue) opt (Some sch))
              (VPINN.lins m, opt, sch))
    as (st' & Hrun & Hcfg' & Hepoch' & Hk' & Hepochs' & Hlosses' & _).
  - cbn. rewrite Hcfg. exact Hlv.
  - unfold trained_of. cbn. rewrite Hlins. reflexivity.
  - intros Hex. cbn. rewrite Hcfg. split; [apply Hroots, Hex|apply Herrors, Hex].
  - cbn in Hrun, Hcfg', Hepoch', Hk', Hepochs', Hlosses'.
    rewrite Hcfg in *. rewrite Hepoch in *. rewrite Hepochs in *. rewrite Hlosses in *.
    injection Hk as <-.
    exists st'. repeat split; assumption.
Qed.

Lemma run_epoch_without_scheduler tfs (last : Z) exact (e : Z) st :
  loss_v_returns (VPINN.cfg (VPINN.model st)) tfs -> tfs <> [] ->
  VPINN.scheduler st = None ->
  exact_ready exact (VPINN.model st) ->
  exists st',
    run_epoch tfs last exact e st
    = mkOutcome (Raise (AttributeError "'NoneType' object has no attribute 'step'")) st' []
    /\ VPINN.epoch (VPINN.model st') = VPINN.epoch (VPINN.model st)
    /\ (VPINN.optimizer st', VPINN.lins (VPINN.model st'))
       = optimizer_step (VPINN.optimizer st)
           (backward (fun ls => epoch_loss (VPINN.cfg (VPINN.model st)) ls tfs)
              (zero_grad (VPINN.optimizer st) (VPINN.lins (VPINN.model st)))).
Proof.
  intros Hlv Hne Hsch Hready. destruct st as [m opt sch]. cbn in Hsch. subst sch.
  destruct (epoch_loss_tensor (VPINN.cfg m) (VPINN.lins m) tfs Hlv Hne) as [l Hl].
  unfold VPINN.run_epoch.
  erewrite bind_ok by reflexivity.
  erewrite bind_ok by (unfold lift; cbn [VPINN.model VPINN.cfg VPINN.lins]; rewrite Hl; reflexivity).
  change (((e mod 10 =? 0) || (e =? last))%Z) with (sampled last e).
  cbn [VPINN.model VPINN.optimizer].
  destruct (sampled last e).
  - destruct (record_sample_returns exact e l (VPINN.mkTstate m opt None) Hready)
      as (m' & Hrun & Hcfg & Hlins & Hepoch & _).
    cbn [VPINN.model VPINN.optimizer VPINN.scheduler] in *.
    erewrite bind_ok by exact Hrun.
    erewrite bind_raise by (apply optimise_without_scheduler; reflexivity).
    eexists. split; [reflexivity|].
    cbn. rewrite Hlins, Hepoch. split; [reflexivity|].
    symmetry. apply surjective_pairing.
  - erewrite bind_ok by reflexivity.
    erewrite bind_raise by (apply optimise_without_scheduler; reflexivity).
    eexists. split; [reflexivity|].
    cbn. split; [reflexivity|]. symmetry. apply surjective_pairing.
Qed.


(** *** Two calls of [train_] against one *)

Lemma zip_fst_snd_map {A B : Type} (l : list (A * B)) : zip (map fst l) (map snd l) = l.
Proof. induction l as [|[x y] l IH]; simpl; [reflexivity|]. rewrite IH. reflexivity. Qed.

Lemma trajectory_app c tfs (last e : Z) (n m : nat) k :
  trajectory c tfs last e (n + m) k
  = trajectory c tfs last e n k
    ++ trajectory c tfs last (e + Z.of_nat n) m (Nat.iter n (step c tfs) k).
Proof.
  revert e k. induction n as [|n IH]; intros e k.
  - simpl. rewrite Z.add_0_r. reflexivity.
  - cbn [Nat.add trajectory]. rewrite IH, <- app_assoc.
    replace (e + 1 + Z.of_nat n)%Z with (e + Z.of_nat (S n))%Z by lia.
    rewrite iter_step_shift. reflexivity.
Qed.

Lemma trajectory_filter c tfs (last last' e : Z) (n : nat) k :
  (forall e' : Z, (e <= e' < e + Z.of_nat n)%Z ->
                  sampled last' e' = true -> sampled last e' = true) ->
  List.filter (fun p => sampled last' (fst p)) (trajectory c tfs last e n k)
  = trajectory c tfs last' e n k.
Proof.
  revert e k. induction n as [|n IH]; intros e k Hle; [reflexivity|].
  cbn [trajectory]. rewrite List.filter_app, IH by (intros e' He'; apply Hle; lia).
  f_equal.
  destruct (sampled last e) eqn:Hs; simpl.
  - destruct (sampled last' e); reflexivity.
  - destruct (sampled last' e) eqn:Hs'; [|reflexivity].
    rewrite (Hle e) in Hs by (assumption || lia). discriminate.
Qed.


(** *** The base class *)

Lemma intg_given_returns c (func : list R -> result VPINN.tensor) (qp : list R * list R) :
  fst qp <> [] -> (exists t, func (fst qp) = Ok t) ->
  exists y, VPINN.intg c func (Some qp) = Ok y.
Proof.
  intros Hroots [t Ht]. unfold VPINN.intg.
  destruct (py_index_nonempty _ (-1) Hroots) as [hi ->]; [lia|].
  destruct (py_index_nonempty _ 0 Hroots) as [lo ->]; [lia|].
  cbn [rbind]. rewrite Ht. cbn [rbind]. eauto.
Qed.

Lemma times_component_returns c ls (g : R -> R) (n : Z) im xs :
  (n = 0 \/ n = 1)%Z ->
  exists t, VPINN.times g (VPINN.component Linear apply_linear autograd c ls n im xs) xs = Ok t.
Proof.
  intros [-> | ->]; unfold VPINN.times, VPINN.component, VPINN.deriv; simpl; eauto.
Qed.

(** [loss_v] of the base class returns on every non-empty set of nodes. *)
Lemma base_loss_v_returns c ls v_k (qp : list R * list R) :
  fst qp <> [] ->
  exists r, VPINN.loss_v Linear apply_linear autograd c ls v_k qp = Ok r.
Proof.
  intros Hroots. unfold VPINN.loss_v.
  destruct (intg_given_returns c
              (fun xs => Ok (VPINN.Column (map (fun t => (VPINN.f c t * VPINN.v v_k t)%R) xs)))
              qp Hroots) as [F ->]; [eauto|].
  destruct (intg_given_returns c
              (fun xs => VPINN.times (VPINN.v_deriv v_k 1)
                           (VPINN.component Linear apply_linear autograd c ls 1 false xs) xs)
              qp Hroots) as [i1 ->]; [apply times_component_returns; lia|].
  destruct (intg_given_returns c
              (fun xs => VPINN.times (VPINN.v v_k)
                           (VPINN.component Linear apply_linear autograd c ls 0 false xs) xs)
              qp Hroots) as [i2 ->]; [apply times_component_returns; lia|].
  destruct (at_point_ok c ls 0 true (VPINN.a c)) as [uia ->]; [lia|].
  destruct (at_point_ok c ls 0 true (VPINN.b c)) as [uib ->]; [lia|].
  destruct (intg_given_returns c
              (fun xs => VPINN.times (VPINN.v_deriv v_k 1)
                           (VPINN.component Linear apply_linear autograd c ls 1 true xs) xs)
              qp Hroots) as [j1 ->]; [apply times_component_returns; lia|].
  destruct (intg_given_returns c
              (fun xs => VPINN.times (VPINN.v v_k)
                           (VPINN.component Linear apply_linear autograd c ls 0 true xs) xs)
              qp Hroots) as [j2 ->]; [apply times_component_returns; lia|].
  destruct (at_point_ok c ls 0 false (VPINN.a c)) as [ura ->]; [lia|].
  destruct (at_point_ok c ls 0 false (VPINN.b c)) as [urb ->]; [lia|].
  cbn [rbind]. eauto.
Qed.

End VPINN_training.

Lemma demo_loss_v_returns :
  loss_v_returns Demo.Linear Demo.loss_v (Demo.config None)
    (attached Demo.quadrature (Demo.config None) Demo.testfunctions).
Proof.
  intros ls vq [<- | []]. apply base_loss_v_returns. discriminate.
Qed.




(** ** The exact solution *)

Lemma Cx_exp_j (t : R) : Cx.exp (Cx.j * Cx.of_R t)%C = (cos t, sin t).
Proof.
  unfold Cx.exp, Cx.mul, Cx.j, Cx.of_R, Cx.re, Cx.im. simpl.
  replace (0 * t - 1 * 0)%R with 0%R by ring.
  replace (0 * 0 + 1 * t)%R with t by ring.
  rewrite exp_0. f_equal; ring.
Qed.

Lemma Cx_exp_j_times (k t : R) :
  Cx.exp (Cx.j * Cx.of_R k * Cx.of_R t)%C = (cos (k * t), sin (k * t)).
Proof.
  unfold Cx.exp, Cx.mul, Cx.j, Cx.of_R, Cx.re, Cx.im. simpl.
  replace ((0 * k - 1 * 0) * t - (0 * 0 + 1 * k) * 0)%R with 0%R by ring.
  replace ((0 * k - 1 * 0) * 0 + (0 * 0 + 1 * k) * t)%R with (k * t)%R by ring.
  rewrite exp_0. f_equal; ring.
Qed.

Lemma Cx_exp_neg_j_times (k t : R) :
  Cx.exp (- Cx.j * Cx.of_R k * Cx.of_R t)%C = (cos (k * t), (- sin (k * t))%R).
Proof.
  unfold Cx.exp, Cx.mul, Cx.opp, Cx.j, Cx.of_R, Cx.re, Cx.im. simpl.
  replace ((- 0 * k - - (1) * 0) * t - (- 0 * 0 + - (1) * k) * 0)%R with 0%R by ring.
  replace ((- 0 * k - - (1) * 0) * 0 + (- 0 * 0 + - (1) * k) * t)%R with (- (k * t))%R by ring.
  rewrite exp_0, cos_neg, sin_neg. f_equal; ring.
Qed.

Section Exact_properties.

Variable gauss_lobatto_jacobi_quadrature1D : nat -> R -> R -> list R * list R.

Local Abbreviation init := (Exact.init gauss_lobatto_jacobi_quadrature1D).

(** With a constant source [v], the left boundary condition evaluates to
    [ga * e^(i k (1 + a)) + (i v / k) (1 - e^(i k (1 + a)))]. *)
Lemma residual_a_const (s : Exact.exact) (v : R) :
  Exact.is_const s = true -> Exact.f s = Num v -> Exact.k s <> 0%R ->
  residual_a s
  = Ok (Exact.ga s * Cx.exp (Cx.j * Cx.of_R (Exact.k s * (1 + Exact.a s)))
        + Cx.j * Cx.of_R (v / Exact.k s)
          * (Cx.of_R 1 - Cx.exp (Cx.j * Cx.of_R (Exact.k s * (1 + Exact.a s)))))%C.
Proof.
  intros Hc Hf Hk. unfold residual_a, Exact.u_x, Exact.u, Exact.uG_x, Exact.uG.
  rewrite Hc, Hf. destruct (Req_dec_T (Exact.k s) 0) as [|_]; [contradiction|].
  cbn [rbind]. f_equal.
  unfold Exact.w, Exact.w_x.
  rewrite !Cx_exp_j, !Cx_exp_j_times, !Cx_exp_neg_j_times.
  replace (Exact.k s * (1 + Exact.a s))%R with (Exact.k s + Exact.k s * Exact.a s)%R by ring.
  rewrite cos_plus, sin_plus.
  destruct (Exact.ga s) as [gar gai]. destruct (Exact.gb s) as [gbr gbi].
  unfold Cx.div, Cx.inv, Cx.add, Cx.sub, Cx.mul, Cx.opp, Cx.j, Cx.of_R, Cx.re, Cx.im.
  cbn [fst snd].
  f_equal; field; lra.
Qed.

(** With a constant source [v], the right boundary condition evaluates to
    [gb * e^(i k (1 - b)) + (i v / k) (1 - e^(i k (1 - b)))]. *)
Lemma residual_b_const (s : Exact.exact) (v : R) :
  Exact.is_const s = true -> Exact.f s = Num v -> Exact.k s <> 0%R ->
  residual_b s
  = Ok (Exact.gb s * Cx.exp (Cx.j * Cx.of_R (Exact.k s * (1 - Exact.b s)))
        + Cx.j * Cx.of_R (v / Exact.k s)
          * (Cx.of_R 1 - Cx.exp (Cx.j * Cx.of_R (Exact.k s * (1 - Exact.b s)))))%C.
Proof.
  intros Hc Hf Hk. unfold residual_b, Exact.u_x, Exact.u, Exact.uG_x, Exact.uG.
  rewrite Hc, Hf. destruct (Req_dec_T (Exact.k s) 0) as [|_]; [contradiction|].
  cbn [rbind]. f_equal.
  unfold Exact.w, Exact.w_x.
  rewrite !Cx_exp_j, !Cx_exp_j_times, !Cx_exp_neg_j_times.
  replace (Exact.k s * (1 - Exact.b s))%R with (Exact.k s - Exact.k s * Exact.b s)%R by ring.
  rewrite cos_minus, sin_minus.
  destruct (Exact.ga s) as [gar gai]. destruct (Exact.gb s) as [gbr gbi].
  unfold Cx.div, Cx.inv, Cx.add, Cx.sub, Cx.mul, Cx.opp, Cx.j, Cx.of_R, Cx.re, Cx.im.
  cbn [fst snd].
  f_equal; field; lra.
Qed.

(** [verify] compares the two residuals with [ga] and [gb] in turn. *)
Lemma verify_residuals (s : Exact.exact) :
  Exact.verify s
  = match residual_a s with
    | Raise e => Raise e
    | Ok ra =>
        if Exact.allclose ra (Exact.ga s) Exact.atol then
          match residual_b s with
          | Raise e => Raise e
          | Ok rb =>
              if Exact.allclose rb (Exact.gb s) Exact.atol then Ok tt
              else Raise AssertionError
          end
        else Raise AssertionError
    end.
Proof.
  unfold Exact.verify, residual_a, residual_b.
  destruct (Exact.u_x s (Exact.a s)) as [ux_a|]; [|reflexivity].
  destruct (Exact.u s (Exact.a s)) as [u_a|]; [|reflexivity].
  cbn [rbind]. destruct (Exact.allclose _ _ _); [|reflexivity].
  destruct (Exact.u_x s (Exact.b s)) as [ux_b|]; [|reflexivity].
  destruct (Exact.u s (Exact.b s)) as [u_b|]; reflexivity.
Qed.

Lemma allclose_same (z g : C) : z = g -> Exact.allclose z g Exact.atol = true.
Proof.
  intros ->. unfold Exact.allclose.
  destruct (Rle_dec _ _) as [|Hn]; [reflexivity|]. exfalso. apply Hn.
  unfold Cx.abs at 1, Cx.sub, Cx.re, Cx.im. cbn [fst snd].
  replace ((fst g - fst g) * (fst g - fst g) + (snd g - snd g) * (snd g - snd g))%R
    with 0%R by ring.
  rewrite sqrt_0.
  pose proof (sqrt_pos (Cx.re g * Cx.re g + Cx.im g * Cx.im g)).
  unfold Exact.atol, Exact.rtol, Cx.abs. nra.
Qed.

Lemma allclose_far (z g : C) (m : R) :
  (Exact.atol + Exact.rtol * Cx.abs g < m)%R ->
  (m <= Rabs (Cx.im z - Cx.im g))%R ->
  Exact.allclose z g Exact.atol = false.
Proof.
  intros Htol Hfar. unfold Exact.allclose.
  destruct (Rle_dec _ _) as [Hle|]; [|reflexivity]. exfalso.
  assert (Rabs (Cx.im z - Cx.im g) <= Cx.abs (z - g)%C)%R.
  { unfold Cx.abs, Cx.sub, Cx.re, Cx.im. cbn [fst snd].
    rewrite <- sqrt_Rsqr_abs. apply sqrt_le_1_alt. unfold Rsqr.
    pose proof (Rle_0_sqr (fst z - fst g)) as Hsq. unfold Rsqr in Hsq. lra. }
  lra.
Qed.

Lemma sin_1_bound : (4 / 5 < sin 1)%R.
Proof.
  pose proof PI2_1.
  destruct (SIN 1) as [Hlb _]; [lra|lra|].
  unfold sin_lb, sin_approx, sin_term, sum_f_R0 in Hlb.
  simpl in Hlb. lra.
Qed.

(** C2, at an input on which the code departs from it. On the domain
    [(0, 1)] with [k = 1], [ga = 1], [gb = 0] and the constant source 0, the
    left boundary condition evaluates to [e^i] instead of [ga = 1]: the
    difference has modulus above 4/5, the tolerance is 0.00011, and
    [verify] raises [AssertionError]. *)
Theorem exact_verify_fails :
  Exact.verify (init (Num 0, Num 0) 1 0 1 (1, 0)%R (0, 0)%R (Some "const"%string))
  = Raise AssertionError.
Proof.
  rewrite verify_residuals.
  rewrite (residual_a_const _ 0%R) by (reflexivity || (cbn; lra)).
  cbn [Exact.init Exact.k Exact.a Exact.ga fst snd].
  rewrite Cx_exp_j. replace (1 * (1 + 0))%R with 1%R by ring.
  rewrite (allclose_far _ _ (4 / 5)%R); [reflexivity| |].
  - unfold Cx.abs, Cx.re, Cx.im, Exact.atol, Exact.rtol. cbn [fst snd].
    replace (1 * 1 + 0 * 0)%R with 1%R by ring. rewrite sqrt_1. lra.
  - unfold Cx.add, Cx.sub, Cx.mul, Cx.j, Cx.of_R, Cx.re, Cx.im. cbn [fst snd].
    replace (1 * sin 1 + 0 * cos 1 + ((0 * (0 / 1) - 1 * 0) * (0 - sin 1)
             + (0 * 0 + 1 * (0 / 1)) * (1 - cos 1)) - 0)%R
      with (sin 1) by field.
    pose proof sin_1_bound. pose proof (Rle_abs (sin 1)). lra.
Qed.

End Exact_properties.

(** ** More on the finite-element solver *)

Section Indexed_loops.
Context {St : Type}.

(** A loop over [range(n)] whose passes move an indexed property one step. *)
Lemma for_each_seq_invariant (P : nat -> St -> Prop) (body : nat -> M St unit) (n : nat) :
  (forall i s u s', (i < n)%nat -> P i s -> returns (body i) s u s' -> P (S i) s') ->
  forall s u s', P 0%nat s -> returns (for_each (seq 0 n) body) s u s' -> P n s'.
Proof.
  intros Hbody.
  assert (Hgen : forall len start s u s',
             (start + len = n)%nat -> P start s ->
             returns (for_each (seq start len) body) s u s' -> P n s').
  { induction len as [|len IH]; intros start s u s' Hn HP Hrun.
    - apply returns_ret in Hrun as [_ ->]. replace n with start by lia. exact HP.
    - simpl in Hrun. apply returns_bind in Hrun as (w & s1 & H1 & H2).
      apply (IH (S start) s1 u s'); [lia| |exact H2].
      eapply Hbody; [|exact HP|exact H1]. lia. }
  intros s u s'. apply Hgen. lia.
Qed.

End Indexed_loops.

Lemma lhs_problem (s s' : FEM.fem) (i j : Z) :
  problem s' = problem s -> FEM.lhs s' i j = FEM.lhs s i j.
Proof.
  destruct s, s'. unfold problem. simpl. intros [=]. subst. reflexivity.
Qed.

Lemma rhs_problem (s s' : FEM.fem) (j : Z) :
  problem s' = problem s -> FEM.rhs s' j = FEM.rhs s j.
Proof.
  destruct s, s'. unfold problem. simpl. intros [=]. subst. reflexivity.
Qed.

Lemma entry_insert_row (m : list (list C)) (i i' j : nat) (row : list C) :
  i <> i' -> entry (<[i := row]> m) i' j = entry m i' j.
Proof. intros Hne. unfold entry. rewrite list_lookup_insert_ne by exact Hne. reflexivity. Qed.

Lemma setitem2_entry m i j e m' :
  FEM.setitem2 m i j e = Ok m' ->
  entry m' i j = Some e
  /\ (forall i' j', (i', j') <> (i, j) -> entry m' i' j' = entry m i' j').
Proof.
  unfold FEM.setitem2. destruct (m !! i) as [row|] eqn:Hrow; [|discriminate].
  destruct (decide (j < length row)) as [Hj|]; [|discriminate].
  intros [= <-]. assert (Hi : (i < length m)%nat) by (eapply lookup_lt_Some; eauto). split.
  - unfold entry. rewrite list_lookup_insert_eq by exact Hi.
    apply list_lookup_insert_eq. exact Hj.
  - intros i' j' Hne. unfold entry. destruct (decide (i = i')) as [<-|Hi'].
    + rewrite list_lookup_insert_eq by exact Hi. rewrite Hrow.
      apply list_lookup_insert_ne. congruence.
    + rewrite list_lookup_insert_ne by exact Hi'. reflexivity.
Qed.

Lemma setitem_lookup v i e v' :
  FEM.setitem v i e = Ok v' ->
  v' !! i = Some e /\ (forall i', i' <> i -> v' !! i' = v !! i').
Proof.
  unfold FEM.setitem. destruct (decide (i < length v)) as [Hi|]; [|discriminate].
  intros [= <-]. split.
  - apply list_lookup_insert_eq. exact Hi.
  - intros i' Hne. apply list_lookup_insert_ne. congruence.
Qed.

Lemma returns_write (cond : bool) (s0 : FEM.fem) (i j : nat) (jz : Z)
    (st st' : FEM.fem) (u : unit) :
  returns
    (if cond then
       (e <- lift (FEM.lhs s0 (Z.of_nat i) jz) ;;
        s <- get ;;
        A' <- lift (FEM.setitem2 (FEM.A s) i j e) ;;
        modify (FEM.set_A A'))%monad
     else ret tt) st u st' ->
  if cond then
    exists e A', FEM.lhs s0 (Z.of_nat i) jz = Ok e
                 /\ FEM.setitem2 (FEM.A st) i j e = Ok A' /\ st' = FEM.set_A A' st
  else st' = st.
Proof.
  destruct cond; intros Hrun; run_inv; eauto.
Qed.

(** What one pass of the loop of [solve] does: the problem is kept, the row
    [i] is assembled, and no other row of [A] or entry of [d] is touched. *)
Lemma assemble_row_spec (i : nat) (s s' : FEM.fem) (u : unit) :
  returns (FEM.assemble_row i) s u s' ->
  problem s' = problem s
  /\ row_assembled s s' i
  /\ (forall i' j, i' <> i -> entry (FEM.A s') i' j = entry (FEM.A s) i' j)
  /\ (forall i', i' <> i -> FEM.d s' !! i' = FEM.d s !! i')
  /\ FEM.c s' = FEM.c s /\ FEM.sol s' = FEM.sol s /\ FEM.der s' = FEM.der s.
Proof.
  intros Hrun. unfold FEM.assemble_row in Hrun. run_inv.
  match goal with
  | H1 : FEM.rhs s _ = Ok ?r, H2 : FEM.setitem _ i ?r = Ok ?d',
    H3 : FEM.lhs s _ _ = Ok ?e, H4 : FEM.setitem2 _ i i ?e = Ok ?A1,
    H5 : returns (if negb (i =? 0) then _ else _) _ _ ?s2,
    H6 : returns (if negb (i =? _) then _ else _) ?s2 _ _ |- _ =>
      rename H1 into Hrhs; rename H2 into Hd; rename H3 into Hl; rename H4 into HA;
      rename H5 into Hleft; rename H6 into Hright;
      rename r into r0; rename d' into d1; rename e into e0;
      rename A1 into A1'; rename s2 into s2';
      apply (returns_write _ _ i (i - 1)) in Hleft;
      apply (returns_write _ _ i (i + 1)) in Hright
  end.
  apply setitem_lookup in Hd as [Hd_at Hd_off].
  apply setitem2_entry in HA as [HA_at HA_off].
  cbn [FEM.set_d FEM.set_A FEM.A FEM.d FEM.N] in *.
  assert (Hz1 : i <> 0%nat -> (Z.of_nat i - 1)%Z = Z.of_nat (i - 1)) by lia.
  assert (Hz2 : (Z.of_nat i + 1)%Z = Z.of_nat (i + 1)) by lia.
  rewrite Hz2 in Hright.
  destruct (Nat.eqb_spec i 0) as [Hi0|Hi0];
    destruct (Nat.eqb_spec i (FEM.N s)) as [HiN|HiN];
    cbn [negb] in Hleft, Hright.
  - subst s2' s'. cbn. unfold row_assembled, holds_rhs, holds_lhs. cbn.
    repeat split; eauto; try congruence.
    intros i' j Hne. apply HA_off. congruence.
  - subst s2'. destruct Hright as (e3 & A3 & Hl3 & HA3 & ->).
    apply setitem2_entry in HA3 as [HA3_at HA3_off].
    cbn [FEM.set_d FEM.set_A FEM.A FEM.d FEM.N] in *.
    unfold row_assembled, holds_rhs, holds_lhs. cbn.
    repeat split; eauto; try congruence.
    + exists e0. split; [exact Hl|]. rewrite HA3_off by (intros [=]; lia). exact HA_at.
    + intros i' j Hne. rewrite HA3_off, HA_off by congruence. reflexivity.
  - destruct Hleft as (e2 & A2 & Hl2 & HA2 & ->). subst s'.
    apply setitem2_entry in HA2 as [HA2_at HA2_off].
    cbn [FEM.set_d FEM.set_A FEM.A FEM.d FEM.N] in *.
    rewrite Hz1 in Hl2 by exact Hi0.
    unfold row_assembled, holds_rhs, holds_lhs. cbn.
    repeat split; eauto; try congruence.
    + exists e0. split; [exact Hl|]. rewrite HA2_off by (intros [=]; lia). exact HA_at.
    + intros i' j Hne. rewrite HA2_off, HA_off by congruence. reflexivity.
  - destruct Hleft as (e2 & A2 & Hl2 & HA2 & ->).
    destruct Hright as (e3 & A3 & Hl3 & HA3 & ->).
    apply setitem2_entry in HA2 as [HA2_at HA2_off].
    apply setitem2_entry in HA3 as [HA3_at HA3_off].
    cbn [FEM.set_d FEM.set_A FEM.A FEM.d FEM.N] in *.
    rewrite Hz1 in Hl2 by exact Hi0.
    unfold row_assembled, holds_rhs, holds_lhs. cbn.
    repeat split; eauto; try congruence.
    + exists e0. split; [exact Hl|].
      rewrite HA3_off, HA2_off by (intros [=]; lia). exact HA_at.
    + intros _. exists e2. split; [exact Hl2|].
      rewrite HA3_off by (intros [=]; lia). exact HA2_at.
    + intros i' j Hne. rewrite HA3_off, HA2_off, HA_off by congruence. reflexivity.
Qed.

Lemma N_problem (s s' : FEM.fem) : problem s' = problem s -> FEM.N s' = FEM.N s.
Proof. destruct s, s'. unfold problem. simpl. intros [=]. subst. reflexivity. Qed.

Lemma row_assembled_problem (s0 s s' : FEM.fem) (i : nat) :
  problem s = problem s0 -> row_assembled s s' i -> row_assembled s0 s' i.
Proof.
  intros Hp (Hr & Hd & Hl & Hu). unfold row_assembled, holds_rhs, holds_lhs in *.
  rewrite <- (N_problem _ _ Hp).
  repeat split; intros;
    [destruct Hr as (r & Hr & ?)|destruct Hd as (e & Hd & ?)
     |destruct Hl as (e & Hl & ?); [assumption|]|destruct Hu as (e & Hu & ?); [assumption|]];
    eexists; (split; [|eassumption]);
    first [rewrite <- (rhs_problem _ _ _ Hp)|rewrite <- (lhs_problem _ _ _ _ Hp)]; assumption.
Qed.

Lemma row_assembled_kept (s0 s s' : FEM.fem) (i : nat) :
  (forall j, entry (FEM.A s') i j = entry (FEM.A s) i j) ->
  FEM.d s' !! i = FEM.d s !! i ->
  row_assembled s0 s i -> row_assembled s0 s' i.
Proof.
  intros HA Hd. unfold row_assembled, holds_rhs, holds_lhs.
  rewrite !HA, Hd. tauto.
Qed.

Section FEM_assembly.

Variable linalg_solve : list (list C) -> list C -> result (list C).

(** What [solve] does when it returns: the problem is kept, the rows
    [0 .. N] are assembled, the rows below are not touched, and the
    coefficients are those [np.linalg.solve] gives for the system. *)
Lemma solve_spec (s s' : FEM.fem) (u : unit) :
  returns (FEM.solve linalg_solve) s u s' ->
  problem s' = problem s
  /\ (forall i, (i <= FEM.N s)%nat -> row_assembled s s' i)
  /\ (exists cs, linalg_solve (FEM.A s') (FEM.d s') = Ok cs /\ FEM.c s' = Some cs)
  /\ FEM.sol s' = Some FEM.Lam_sol /\ FEM.der s' = Some FEM.Lam_der.
Proof.
  intros Hrun. unfold FEM.solve in Hrun. run_inv.
  match goal with
  | H : returns (for_each _ _) s _ ?t |- _ =>
      apply (for_each_seq_invariant
               (fun k st => problem st = problem s
                            /\ forall i, (i < k)%nat -> row_assembled s st i)) in H;
      [destruct H as [Hp Hrows]| |split; [reflexivity|intros; lia]]
  end.
  - cbn. split; [exact Hp|]. split; [|split; [eauto|split; reflexivity]].
    intros i Hi. eapply row_assembled_kept; [| |apply Hrows; lia]; reflexivity.
  - intros i st u' st' Hi [Hp Hrows] Hpass.
    apply assemble_row_spec in Hpass as (Hp' & Hrow & HA & Hd & _).
    split; [congruence|]. intros i' Hi'.
    destruct (decide (i' = i)) as [->|Hne].
    + eapply row_assembled_problem; eauto.
    + apply (row_assembled_kept _ st); [intros; apply HA; exact Hne|apply Hd; exact Hne|].
      apply Hrows. lia.
Qed.

End FEM_assembly.

(** ** Writing a value that is already there *)

Lemma setitem_same (v : list C) (i : nat) (e : C) :
  v !! i = Some e -> FEM.setitem v i e = Ok v.
Proof.
  intros Hv. unfold FEM.setitem.
  destruct (decide (i < length v)) as [|Hn].
  - rewrite list_insert_id by exact Hv. reflexivity.
  - exfalso. apply Hn. eapply lookup_lt_Some; eauto.
Qed.

Lemma setitem2_same (m : list (list C)) (i j : nat) (e : C) :
  entry m i j = Some e -> FEM.setitem2 m i j e = Ok m.
Proof.
  unfold entry, FEM.setitem2. destruct (m !! i) as [row|] eqn:Hrow; [|discriminate].
  intros Hj. destruct (decide (j < length row)) as [|Hn].
  - rewrite (list_insert_id row) by exact Hj. rewrite list_insert_id by exact Hrow. reflexivity.
  - exfalso. apply Hn. eapply lookup_lt_Some; eauto.
Qed.

Lemma set_d_same (s : FEM.fem) : FEM.set_d (FEM.d s) s = s.
Proof. destruct s. reflexivity. Qed.

Lemma set_A_same (s : FEM.fem) : FEM.set_A (FEM.A s) s = s.
Proof. destruct s. reflexivity. Qed.

Lemma for_each_fixed {St X : Type} (body : X -> M St unit) (xs : list X) (s : St) :
  (forall x, In x xs -> body x s = mkOutcome (Ok tt) s []) ->
  for_each xs body s = mkOutcome (Ok tt) s [].
Proof.
  induction xs as [|x xs IH]; intros Hbody; [reflexivity|].
  cbn [for_each]. erewrite bind_ok by (apply Hbody; left; reflexivity).
  apply IH. intros y Hy. apply Hbody. right. exact Hy.
Qed.

(** On a system whose row [i] is assembled, the pass for the row [i]
    changes nothing. *)
Lemma assemble_row_fixed (i : nat) (s : FEM.fem) :
  row_assembled s s i -> FEM.assemble_row i s = mkOutcome (Ok tt) s [].
Proof.
  intros ((r & Hr & Hd) & (e & He & HA) & Hleft & Hright).
  unfold FEM.assemble_row.
  erewrite bind_ok by reflexivity.
  erewrite bind_ok by (unfold lift; rewrite Hr; reflexivity).
  erewrite bind_ok by (unfold lift; rewrite (setitem_same _ _ _ Hd); reflexivity).
  erewrite bind_ok by (unfold modify; rewrite set_d_same; reflexivity).
  erewrite bind_ok by (unfold lift; rewrite He; reflexivity).
  erewrite bind_ok by reflexivity.
  erewrite bind_ok by (unfold lift; rewrite (setitem2_same _ _ _ _ HA); reflexivity).
  erewrite bind_ok by (unfold modify; rewrite set_A_same; reflexivity).
  assert (Hwrite : forall (cond : bool) (j : nat) (jz : Z),
             jz = Z.of_nat j -> (cond = true -> holds_lhs s s i j) ->
             (if cond then
                (e <- lift (FEM.lhs s (Z.of_nat i) jz) ;;
                 s <- get ;;
                 A' <- lift (FEM.setitem2 (FEM.A s) i j e) ;;
                 modify (FEM.set_A A'))%monad
              else ret tt) s = mkOutcome (Ok tt) s []).
  { intros [|] j jz -> Hj; [|reflexivity].
    destruct (Hj eq_refl) as (e' & He' & HA').
    erewrite bind_ok by (unfold lift; rewrite He'; reflexivity).
    erewrite bind_ok by reflexivity.
    erewrite bind_ok by (unfold lift; rewrite (setitem2_same _ _ _ _ HA'); reflexivity).
    unfold modify. rewrite set_A_same. reflexivity. }
  erewrite bind_ok.
  - apply (Hwrite _ (i + 1)%nat); [lia|].
    intros Hc. apply Hright. apply negb_true_iff, Nat.eqb_neq in Hc. exact Hc.
  - destruct (Nat.eqb_spec i 0) as [Hi|Hi]; cbn [negb].
    + reflexivity.
    + apply (Hwrite true (i - 1)%nat); [lia|]. intros _. apply Hleft. exact Hi.
Qed.

Lemma set_solution_same (s : FEM.fem) (cs : list C) :
  FEM.c s = Some cs -> FEM.sol s = Some FEM.Lam_sol -> FEM.der s = Some FEM.Lam_der ->
  FEM.set_solution cs s = s.
Proof. destruct s. simpl. intros -> -> ->. reflexivity. Qed.

(** ** The symmetry of the form *)

Lemma lhs_symmetric (s : FEM.fem) (i j : Z) :
  (forall p q, FEM.intphi_x (FEM.FE s) p q = FEM.intphi_x (FEM.FE s) q p) ->
  (forall p q, FEM.intphi (FEM.FE s) p q = FEM.intphi (FEM.FE s) q p) ->
  FEM.lhs s i j = FEM.lhs s j i.
Proof.
  intros Hx H0. unfold FEM.lhs.
  destruct (py_index (FEM.bases s) i) as [phi_i|] eqn:Hi;
    destruct (py_index (FEM.bases s) j) as [phi_j|] eqn:Hj; cbn [rbind];
    try reflexivity.
  - rewrite (Hx i j), (H0 i j). do 3 f_equal. unfold Cx.of_R. f_equal. ring.
  - unfold py_index in Hi, Hj.
    repeat match goal with
      | H : (if ?c then _ else _) = _ |- _ => destruct c; try discriminate
      | H : match ?o with Some _ => _ | None => _ end = _ |- _ => destruct o; try discriminate
      end; congruence.
Qed.

Section FEM_system.

Variable Finite_Elements : nat -> R -> R -> FEM.Finite_Elements_obj.
Variable gauss_lobatto_jacobi_quadrature1D : nat -> R -> R -> list R * list R.
Variable linalg_solve : list (list C) -> list C -> result (list C).

(** X4. When [solve] returns, the system it leaves is the assembled one:
    for every row [i] of [0 .. N], [d[i]] is [rhs(i)], [A[i, i]] is
    [lhs(i, i)], [A[i, i - 1]] is [lhs(i, i - 1)] (for [i > 0]) and
    [A[i, i + 1]] is [lhs(i, i + 1)] (for [i < N]); the coefficients [c] are
    what [np.linalg.solve] returns for this system, and the data of the
    problem are as they were. *)
Theorem fem_solve_assembles (s s' : FEM.fem) :
  returns (FEM.solve linalg_solve) s tt s' ->
  problem s' = problem s
  /\ (forall i : nat, (i <= FEM.N s)%nat ->
        (exists r, FEM.rhs s (Z.of_nat i) = Ok r /\ FEM.d s' !! i = Some r)
        /\ (forall j : nat, (j <= FEM.N s)%nat -> (i <= j + 1 /\ j <= i + 1)%nat ->
              exists e, FEM.lhs s (Z.of_nat i) (Z.of_nat j) = Ok e
                        /\ entry (FEM.A s') i j = Some e))
  /\ exists cs, linalg_solve (FEM.A s') (FEM.d s') = Ok cs /\ FEM.c s' = Some cs.
Proof.
  intros Hrun.
  destruct (solve_spec linalg_solve s s' tt Hrun) as (Hp & Hrows & Hc & _).
  split; [exact Hp|]. split; [|exact Hc].
  intros i Hi. destruct (Hrows i Hi) as (Hd & Hdiag & Hleft & Hright).
  split; [exact Hd|]. intros j Hj Hband.
  destruct (decide (j = i)) as [->|Hne]; [exact Hdiag|].
  destruct (decide (j = i - 1)%nat) as [->|Hne'].
  - apply Hleft. lia.
  - replace j with (i + 1)%nat by lia. apply Hright. lia.
Qed.

(** X5. [solve] on a solver it has already solved changes nothing: the
    second call returns and leaves [A], [d], [c] and the stored lambdas
    as the first call left them. *)
Theorem fem_solve_again (s s' : FEM.fem) :
  returns (FEM.solve linalg_solve) s tt s' ->
  FEM.solve linalg_solve s' = mkOutcome (Ok tt) s' [].
Proof.
  intros Hrun.
  destruct (solve_spec linalg_solve s s' tt Hrun) as (Hp & Hrows & (cs & Hcs & Hc) & Hsol & Hder).
  unfold FEM.solve.
  erewrite bind_ok by reflexivity.
  erewrite bind_ok.
  2:{ apply for_each_fixed. intros i Hi. apply assemble_row_fixed.
      apply (row_assembled_problem s' s); [symmetry; exact Hp|].
      apply Hrows. apply in_seq in Hi. rewrite (N_problem _ _ Hp) in Hi. lia. }
  erewrite bind_ok by reflexivity.
  erewrite bind_ok by (unfold lift; rewrite Hcs; reflexivity).
  unfold modify. rewrite (set_solution_same _ _ Hc Hsol Hder). reflexivity.
Qed.

(** X6. With a source type that is neither ['const'] nor ['func'], [solve]
    raises [ValueError] in its first pass, at [rhs(0)]: nothing has been
    written by then, so [A], [d] and the solution are as before and the
    solver still counts as not solved. *)
Theorem fem_solve_invalid_source (s : FEM.fem) :
  FEM.source s <> "const"%string -> FEM.source s <> "func"%string ->
  FEM.bases s <> [] ->
  FEM.solve linalg_solve s
  = mkOutcome
      (Raise (ValueError (String.append (FEM.source s) " is not a valid source type.")))
      s [].
Proof.
  intros Hconst Hfunc Hbases.
  assert (Hrhs : FEM.rhs s (Z.of_nat 0)
                 = Raise (ValueError (String.append (FEM.source s)
                                        " is not a valid source type."))).
  { unfold FEM.rhs. change (Z.of_nat 0) with 0%Z.
    destruct (py_index_nonempty (FEM.bases s) 0 Hbases) as [phi_0 ->]; [lia|].
    apply String.eqb_neq in Hconst, Hfunc. cbn [rbind]. rewrite Hconst, Hfunc.
    reflexivity. }
  unfold FEM.solve.
  erewrite bind_ok by reflexivity.
  erewrite bind_raise; [reflexivity|].
  replace (FEM.N s + 1)%nat with (S (FEM.N s)) by lia. cbn [seq for_each].
  erewrite bind_raise; [reflexivity|].
  unfold FEM.assemble_row.
  erewrite bind_ok by reflexivity.
  erewrite bind_raise; [reflexivity|].
  unfold lift. rewrite Hrhs. reflexivity.
Qed.

(** X7. When the integrals of the basis are symmetric in their two
    indices, the matrix [solve] assembles on a solver built by [__init__]
    is symmetric: [A[i, j] = A[j, i]] for all [i] and [j]. *)
Theorem fem_system_symmetric f k a b ga gb source N N_quad s s' :
  FEM.init Finite_Elements gauss_lobatto_jacobi_quadrature1D
    f k a b ga gb source N N_quad = Ok s ->
  (forall p q, FEM.intphi_x (FEM.FE s) p q = FEM.intphi_x (FEM.FE s) q p) ->
  (forall p q, FEM.intphi (FEM.FE s) p q = FEM.intphi (FEM.FE s) q p) ->
  returns (FEM.solve linalg_solve) s tt s' ->
  forall i j : nat, entry (FEM.A s') i j = entry (FEM.A s') j i.
Proof.
  intros Hinit Hx H0 Hrun.
  apply init_banded in Hinit as (Hb & HN & _).
  pose proof (solve_banded linalg_solve _ _ _ Hb Hrun) as [[Hlen Hrowlen] Htri].
  rewrite (solve_N linalg_solve _ _ _ Hrun) in Hlen, Hrowlen.
  destruct (solve_spec linalg_solve s s' tt Hrun) as (_ & Hrows & _).
  assert (Hnext : forall i, (i < FEM.N s)%nat ->
            entry (FEM.A s') i (i + 1) = entry (FEM.A s') (i + 1) i).
  { intros i Hi.
    destruct (Hrows i ltac:(lia)) as (_ & _ & _ & Hright).
    destruct (Hrows (i + 1)%nat ltac:(lia)) as (_ & _ & Hleft & _).
    destruct (Hright ltac:(lia)) as (e & He & ->).
    destruct (Hleft ltac:(lia)) as (e' & He' & HA').
    replace (i + 1 - 1)%nat with i in He', HA' by lia.
    rewrite (lhs_symmetric s _ _ Hx H0) in He'. congruence. }
  assert (Hout : forall i j, (FEM.N s < i \/ FEM.N s < j)%nat -> entry (FEM.A s') i j = None).
  { intros i j Hij. unfold entry.
    destruct (FEM.A s' !! i) as [row|] eqn:Hrow; [|reflexivity].
    pose proof (lookup_lt_Some _ _ _ Hrow).
    apply lookup_ge_None. rewrite (Hrowlen _ _ Hrow). lia. }
  assert (Hzero : forall i j, (i <= FEM.N s)%nat -> (j <= FEM.N s)%nat ->
            (i + 1 < j \/ j + 1 < i)%nat -> entry (FEM.A s') i j = Some Cx.zero).
  { intros i j Hi Hj Hoff. unfold entry.
    destruct (lookup_lt_is_Some_2 (FEM.A s') i ltac:(lia)) as [row Hrow]. rewrite Hrow.
    destruct (lookup_lt_is_Some_2 row j) as [e He]; [rewrite (Hrowlen _ _ Hrow); lia|].
    rewrite He. f_equal. eapply Htri; eauto. }
  intros i j.
  destruct (le_lt_dec i (FEM.N s)) as [Hi|Hi];
    [destruct (le_lt_dec j (FEM.N s)) as [Hj|Hj]|].
  - destruct (lt_eq_lt_dec i j) as [[Hlt | ->] | Hgt]; [|reflexivity|].
    + destruct (decide (j = i + 1)%nat) as [->|Hne]; [apply Hnext; lia|].
      rewrite !Hzero by lia. reflexivity.
    + destruct (decide (i = j + 1)%nat) as [->|Hne]; [symmetry; apply Hnext; lia|].
      rewrite !Hzero by lia. reflexivity.
  - rewrite !Hout by lia. reflexivity.
  - rewrite !Hout by lia. reflexivity.
Qed.

End FEM_system.

(** ** The solution as a sum over the basis *)

Lemma mapR_ext {A B : Type} (g h : A -> result B) (xs : list A) :
  (forall x, In x xs -> g x = h x) -> mapR g xs = mapR h xs.
Proof.
  induction xs as [|x xs IH]; intros Hgh; [reflexivity|]. simpl.
  rewrite (Hgh x (or_introl eq_refl)), IH; [reflexivity|].
  intros y Hy. apply Hgh. right. exact Hy.
Qed.

Lemma mapR_seq_shift {B : Type} (g : nat -> result B) (start len : nat) :
  mapR g (seq (S start) len) = mapR (fun i => g (S i)) (seq start len).
Proof.
  revert start. induction len as [|len IH]; intros start; [reflexivity|].
  simpl. rewrite IH. reflexivity.
Qed.

(** Subscription at an index that is not negative, as a lookup. *)
Lemma py_index_lookup {A : Type} (l : list A) (j : Z) :
  (0 <= j)%Z ->
  py_index l j = match l !! Z.to_nat j with
                 | Some v => Ok v
                 | None => Raise IndexError
                 end.
Proof.
  intros Hj. unfold py_index.
  rewrite (proj2 (Z.ltb_ge j 0)) by lia.
  destruct ((0 <=? j)%Z && (j <? Z.of_nat (length l))%Z) eqn:Hin; [reflexivity|].
  apply andb_false_iff in Hin as [Hin|Hin].
  - apply Z.leb_gt in Hin. lia.
  - apply Z.ltb_ge in Hin. rewrite (proj2 (lookup_ge_None l (Z.to_nat j))) by lia.
    reflexivity.
Qed.

Lemma py_index_cons_S {A : Type} (x : A) (l : list A) (i : nat) :
  py_index (x :: l) (Z.of_nat (S i)) = py_index l (Z.of_nat i).
Proof. rewrite !py_index_lookup by lia. rewrite !Nat2Z.id. reflexivity. Qed.

Lemma py_index_head {A : Type} (x : A) (l : list A) : py_index (x :: l) (Z.of_nat 0) = Ok x.
Proof. apply py_index_nonneg; [lia|reflexivity]. Qed.

(** The list comprehension over [range(n)] of [h(c[i], bases[i])] is the
    list of the [h(c_i, phi_i)], for [n] coefficients and [n] functions. *)
Lemma mapR_zip_with {X Y Z' : Type} (h : X -> Y -> Z') (cs : list X) (bs : list Y) :
  length bs = length cs ->
  mapR (fun i : nat =>
          (ci <- py_index cs (Z.of_nat i) ;;
           bi <- py_index bs (Z.of_nat i) ;;
           Ok (h ci bi))%result)
       (seq 0 (length cs))
  = Ok (zip_with h cs bs).
Proof.
  revert bs. induction cs as [|c cs IH]; intros [|b bs] Hlen; try discriminate;
    [reflexivity|].
  simpl length. cbn [seq mapR].
  rewrite !py_index_head. cbn [rbind].
  rewrite mapR_seq_shift.
  erewrite mapR_ext.
  - rewrite (IH bs) by (simpl in Hlen; lia). reflexivity.
  - intros i _. cbv beta. rewrite !py_index_cons_S. reflexivity.
Qed.

Lemma apply_closure_sum (s : FEM.fem) (l : FEM.closure) (t : R) (cs : list C) :
  FEM.c s = Some cs -> length cs = (FEM.N s + 1)%nat ->
  length (FEM.bases s) = (FEM.N s + 1)%nat ->
  FEM.apply_closure s l t
  = Ok (Cx.sum (zip_with (fun ci bi =>
                            (ci * Cx.of_R (match l with
                                           | FEM.Lam_sol => FEM.phi bi t
                                           | FEM.Lam_der => FEM.deriv1 bi t
                                           end))%C)
                  cs (FEM.bases s))).
Proof.
  intros Hc Hcs Hbs. unfold FEM.apply_closure. rewrite Hc, <- Hcs.
  rewrite (mapR_zip_with
             (fun ci bi => (ci * Cx.of_R (match l with
                                          | FEM.Lam_sol => FEM.phi bi t
                                          | FEM.Lam_der => FEM.deriv1 bi t
                                          end))%C)) by lia.
  reflexivity.
Qed.

Section FEM_solution.

Variable linalg_solve : list (list C) -> list C -> result (list C).

(** X8. After [solve], [__call__(x)] prints nothing, leaves the solver as
    it is and returns the pair [(sum of c_i * phi_i(x), sum of
    c_i * phi_i'(x))] over the basis, for a basis of [N + 1] functions and
    the [N + 1] coefficients [np.linalg.solve] gave. *)
Theorem fem_call_after_solve (s s' : FEM.fem) (t : R) (cs : list C) :
  returns (FEM.solve linalg_solve) s tt s' ->
  FEM.c s' = Some cs -> length cs = (FEM.N s + 1)%nat ->
  length (FEM.bases s) = (FEM.N s + 1)%nat ->
  FEM.call t s'
  = mkOutcome
      (Ok (Some (Cx.sum (zip_with (fun ci bi => (ci * Cx.of_R (FEM.phi bi t))%C)
                           cs (FEM.bases s)),
                 Cx.sum (zip_with (fun ci bi => (ci * Cx.of_R (FEM.deriv1 bi t))%C)
                           cs (FEM.bases s)))))
      s' [].
Proof.
  intros Hrun Hc Hcs Hbs.
  destruct (solve_spec linalg_solve s s' tt Hrun) as (Hp & _ & _ & Hsol & Hder).
  assert (HN : FEM.N s' = FEM.N s) by (apply N_problem; exact Hp).
  assert (Hb : FEM.bases s' = FEM.bases s)
    by (destruct s, s'; unfold problem in Hp; simpl in *; congruence).
  unfold FEM.call.
  erewrite bind_ok by reflexivity. rewrite Hsol.
  erewrite bind_ok
    by (unfold lift; rewrite (apply_closure_sum s' FEM.Lam_sol t cs Hc) by congruence;
        reflexivity).
  rewrite Hder.
  erewrite bind_ok
    by (unfold lift; rewrite (apply_closure_sum s' FEM.Lam_der t cs Hc) by congruence;
        reflexivity).
  rewrite Hb. reflexivity.
Qed.

End FEM_solution.

(** ** The error of the solution against itself *)

Lemma mapR_const {A B : Type} (g : A -> result B) (y : B) (xs : list A) :
  (forall x, In x xs -> g x = Ok y) -> mapR g xs = Ok (replicate (length xs) y).
Proof.
  induction xs as [|x xs IH]; intros Hg; [reflexivity|]. simpl.
  rewrite (Hg x (or_introl eq_refl)), IH; [reflexivity|].
  intros x' Hx'. apply Hg. right. exact Hx'.
Qed.

Lemma Rsum_zeros (n : nat) (ws : list R) :
  Rsum (zip_with Rmult (replicate n 0%R) ws) = 0%R.
Proof.
  revert ws. induction n as [|n IH]; intros [|w ws]; simpl; try reflexivity.
  rewrite IH. ring.
Qed.

Lemma abs_sub_same (z : C) : (Cx.abs (z - z)%C ^ 2 = 0)%R.
Proof.
  unfold Cx.abs, Cx.sub, Cx.re, Cx.im. cbn [fst snd].
  replace ((fst z - fst z) * (fst z - fst z) + (snd z - snd z) * (snd z - snd z))%R
    with 0%R by ring.
  rewrite sqrt_0. ring.
Qed.

(** X9. Measured against the finite-element solution itself (a pair
    [(u, u_x)] that agrees with [sol] and [der] on the quadrature nodes),
    [H1_error] returns [(0, 0, 0)]. *)
Theorem fem_H1_error_own_solution (s : FEM.fem) (u u_x : R -> C) :
  FEM.sol s = Some FEM.Lam_sol -> FEM.der s = Some FEM.Lam_der ->
  (forall t, In t (FEM.roots s) ->
     FEM.apply_closure s FEM.Lam_sol t = Ok (u t)
     /\ FEM.apply_closure s FEM.Lam_der t = Ok (u_x t)) ->
  FEM.H1_error u u_x s = mkOutcome (Ok (Some (0, 0, 0)%R)) s [].
Proof.
  intros Hsol Hder Hsame.
  assert (Hint : forall l w,
             (forall t, In t (FEM.roots s) -> FEM.apply_closure s l t = Ok (w t)) ->
             FEM.intgR s (FEM.sq_err s (Some l) w) = Ok 0%R).
  { intros l w Hw. unfold FEM.intgR.
    rewrite (mapR_const _ 0%R).
    - cbn [rbind]. rewrite Rsum_zeros. f_equal. field.
    - intros t Ht. unfold FEM.sq_err. rewrite (Hw t Ht). cbn [rbind].
      rewrite abs_sub_same. reflexivity. }
  unfold FEM.H1_error.
  erewrite bind_ok by reflexivity. rewrite Hsol.
  erewrite bind_ok
    by (unfold lift; rewrite Hint by (intros t Ht; apply (Hsame t Ht)); reflexivity).
  rewrite Hder.
  erewrite bind_ok
    by (unfold lift; rewrite Hint by (intros t Ht; apply (Hsame t Ht)); reflexivity).
  unfold ret. rewrite sqrt_0. replace (0 + 0)%R with 0%R by ring. reflexivity.
Qed.

(** ** The discretisation set up by [__init__] *)

Lemma linspace_lookup (lo hi : R) (num i : nat) :
  (i < num)%nat ->
  FEM.linspace lo hi num !! i = Some (lo + INR i * ((hi - lo) / INR (num - 1)))%R.
Proof.
  intros Hi. unfold FEM.linspace.
  rewrite list_lookup_fmap, lookup_seq_lt by exact Hi. reflexivity.
Qed.

Section FEM_init.

Variable Finite_Elements : nat -> R -> R -> FEM.Finite_Elements_obj.
Variable gauss_lobatto_jacobi_quadrature1D : nat -> R -> R -> list R * list R.

(** X10. The solver [__init__] builds has a uniform mesh and a bounded
    number of quadrature points: [x] has [N + 1] nodes, [x[i] = a + i * h],
    [x[0] = a], [x[N] = b], and [N * h = b - a]; [N_quad] is the number
    given when it is positive, and [min(10 N, 1000)] when it is [None] or 0;
    the nodes and weights are those of the rule with [N_quad] points on
    [(a, b)]. *)
Theorem fem_init_discretisation f k a b ga gb source N N_quad s :
  FEM.init Finite_Elements gauss_lobatto_jacobi_quadrature1D
    f k a b ga gb source N N_quad = Ok s ->
  (INR N * FEM.h s = b - a)%R
  /\ length (FEM.x s) = (N + 1)%nat
  /\ (forall i : nat, (i <= N)%nat -> FEM.x s !! i = Some (a + INR i * FEM.h s)%R)
  /\ FEM.x s !! 0%nat = Some a /\ FEM.x s !! N = Some b
  /\ FEM.N_quad s = match N_quad with
                    | Some (S q) => S q
                    | _ => Nat.min (10 * N) 1000
                    end
  /\ (FEM.roots s, FEM.weights s)
     = gauss_lobatto_jacobi_quadrature1D (FEM.N_quad s) a b.
Proof.
  unfold FEM.init. destruct (Nat.eqb_spec N 0) as [|HN]; [discriminate|].
  intros [= <-]. cbn [FEM.h FEM.x FEM.N_quad FEM.roots FEM.weights].
  assert (HNR : INR N <> 0%R) by (apply not_0_INR; exact HN).
  assert (Hnode : forall i : nat, (i <= N)%nat ->
            FEM.linspace a b (N + 1) !! i = Some (a + INR i * ((b - a) / INR N))%R).
  { intros i Hi. rewrite linspace_lookup by lia.
    replace (N + 1 - 1)%nat with N by lia. reflexivity. }
  split; [field; exact HNR|].
  split; [unfold FEM.linspace; rewrite length_map, length_seq; reflexivity|].
  split; [exact Hnode|].
  split; [rewrite Hnode by lia; f_equal; simpl; field; exact HNR|].
  split; [rewrite Hnode by lia; f_equal; field; exact HNR|].
  split; [|symmetry; apply surjective_pairing].
  assert (Hmin : (if Nat.ltb 1000 (N * 10) then 1000%nat else (N * 10)%nat)
                 = Nat.min (10 * N) 1000).
  { destruct (Nat.ltb_spec 1000 (N * 10)); lia. }
  destruct N_quad as [[|q]|]; cbn [Nat.eqb]; rewrite ?Hmin; reflexivity.
Qed.

End FEM_init.

(** ** The quadrature of the solver *)

Lemma Rsum_zip_linear (c1 c2 : R) (g1 g2 : R -> R) (xs ws : list R) :
  Rsum (zip_with Rmult (map (fun t => c1 * g1 t + c2 * g2 t)%R xs) ws)
  = (c1 * Rsum (zip_with Rmult (map g1 xs) ws)
     + c2 * Rsum (zip_with Rmult (map g2 xs) ws))%R.
Proof.
  revert ws. induction xs as [|x xs IH]; intros [|w ws]; simpl; try ring.
  rewrite IH. ring.
Qed.

Lemma Rsum_zip_const (c : R) (xs ws : list R) :
  length xs = length ws ->
  Rsum (zip_with Rmult (map (fun _ => c) xs) ws) = (c * Rsum ws)%R.
Proof.
  revert ws. induction xs as [|x xs IH]; intros [|w ws] Hlen; simpl; try discriminate;
    [ring|].
  rewrite IH by (simpl in Hlen; lia). ring.
Qed.

(** X11. [intg] is linear in the integrand, and it integrates a constant
    [c] to [c * (b - a)] exactly when the rule has as many weights as nodes
    and its weights add up to 2 (the weights of the reference interval:
    [intg] does the scaling by [(b - a) / 2] itself). *)
Theorem fem_intg_linear (s : FEM.fem) :
  (forall (c1 c2 : R) (g1 g2 : R -> R),
     FEM.intg s (fun t => c1 * g1 t + c2 * g2 t)%R
     = (c1 * FEM.intg s g1 + c2 * FEM.intg s g2)%R)
  /\ (length (FEM.roots s) = length (FEM.weights s) ->
      Rsum (FEM.weights s) = 2%R ->
      forall c : R, FEM.intg s (fun _ => c) = (c * (FEM.b s - FEM.a s))%R).
Proof.
  split.
  - intros c1 c2 g1 g2. unfold FEM.intg. rewrite Rsum_zip_linear. field.
  - intros Hlen Hsum c. unfold FEM.intg. rewrite Rsum_zip_const by exact Hlen.
    rewrite Hsum. field.
Qed.


Lemma fem_solve_assembles_witness :
  returns (FEM.solve Demo.linalg_solve) Demo.unsolved tt Demo.solved
  /\ problem Demo.solved = problem Demo.unsolved
  /\ exists cs,
       Demo.linalg_solve (FEM.A Demo.solved) (FEM.d Demo.solved) = Ok cs
       /\ FEM.c Demo.solved = Some cs.
Proof.
  assert (Hrun : returns (FEM.solve Demo.linalg_solve) Demo.unsolved tt Demo.solved)
    by (split; vm_compute; reflexivity).
  split; [exact Hrun|].
  destruct (fem_solve_assembles Demo.linalg_solve Demo.unsolved Demo.solved Hrun)
    as (Hp & _ & Hc).
  split; [exact Hp|exact Hc].
Defined.

Lemma fem_solve_again_witness :
  returns (FEM.solve Demo.linalg_solve) Demo.unsolved tt Demo.solved
  /\ FEM.solve Demo.linalg_solve Demo.solved = mkOutcome (Ok tt) Demo.solved [].
Proof.
  assert (Hrun : returns (FEM.solve Demo.linalg_solve) Demo.unsolved tt Demo.solved)
    by (split; vm_compute; reflexivity).
  split; [exact Hrun|].
  exact (fem_solve_again Demo.linalg_solve Demo.unsolved Demo.solved Hrun).
Defined.

Lemma fem_solve_invalid_source_witness :
  FEM.solve Demo.linalg_solve Demo.bogus
  = mkOutcome (Raise (ValueError "bogus is not a valid source type.")) Demo.bogus [].
Proof.
  apply (fem_solve_invalid_source Demo.linalg_solve Demo.bogus);
    [discriminate|discriminate|discriminate].
Defined.

Lemma fem_system_symmetric_witness :
  Demo.fem (Num 1) "const" = Ok Demo.unsolved
  /\ returns (FEM.solve Demo.linalg_solve) Demo.unsolved tt Demo.solved
  /\ entry (FEM.A Demo.solved) 1 2 = entry (FEM.A Demo.solved) 2 1.
Proof.
  split; [reflexivity|].
  assert (Hrun : returns (FEM.solve Demo.linalg_solve) Demo.unsolved tt Demo.solved)
    by (split; vm_compute; reflexivity).
  split; [exact Hrun|].
  apply (fem_system_symmetric Demo.Finite_Elements Demo.quadrature Demo.linalg_solve
           (Num 1) 1 0 1 (1, 0)%R (0, 0)%R "const" 2 None Demo.unsolved Demo.solved).
  - reflexivity.
  - intros p q. cbn. f_equal. lia.
  - intros p q. cbn. f_equal. lia.
  - exact Hrun.
Defined.

Lemma fem_call_after_solve_witness :
  exists cs u u',
    returns (FEM.solve Demo.linalg_solve) Demo.unsolved tt Demo.solved
    /\ FEM.c Demo.solved = Some cs
    /\ FEM.call 0 Demo.solved = mkOutcome (Ok (Some (u, u'))) Demo.solved [].
Proof.
  assert (Hrun : returns (FEM.solve Demo.linalg_solve) Demo.unsolved tt Demo.solved)
    by (split; vm_compute; reflexivity).
  pose (cs := Demo.content (FEM.c Demo.solved) []).
  assert (Hc : FEM.c Demo.solved = Some cs) by (vm_compute; reflexivity).
  exists cs. eexists. eexists. split; [exact Hrun|]. split; [exact Hc|].
  apply (fem_call_after_solve Demo.linalg_solve Demo.unsolved Demo.solved 0 cs Hrun Hc);
    reflexivity.
Defined.

Lemma fem_H1_error_own_solution_witness :
  exists u u_x : R -> C,
    FEM.H1_error u u_x Demo.solved = mkOutcome (Ok (Some (0, 0, 0)%R)) Demo.solved [].
Proof.
  pose (u := fun t => Demo.returned (lift (FEM.apply_closure Demo.solved FEM.Lam_sol t) tt)
                        Cx.zero).
  pose (u_x := fun t => Demo.returned (lift (FEM.apply_closure Demo.solved FEM.Lam_der t) tt)
                          Cx.zero).
  exists u, u_x.
  apply (fem_H1_error_own_solution Demo.solved u u_x).
  - vm_compute. reflexivity.
  - vm_compute. reflexivity.
  - intros t Ht. split; vm_compute; reflexivity.
Defined.

Lemma fem_init_discretisation_witness :
  exists s,
    Demo.fem (Num 1) "const" = Ok s
    /\ FEM.x s !! 2%nat = Some 1%R /\ FEM.N_quad s = 20%nat.
Proof.
  eexists. split; [reflexivity|].
  destruct (fem_init_discretisation Demo.Finite_Elements Demo.quadrature
              (Num 1) 1 0 1 (1, 0)%R (0, 0)%R "const" 2 None Demo.unsolved eq_refl)
    as (_ & _ & _ & _ & Hb & Hq & _).
  split; [exact Hb|exact Hq].
Defined.

Lemma fem_intg_linear_witness :
  FEM.intg Demo.unsolved (fun _ => 3%R) = (3 * (1 - 0))%R.
Proof.
  apply (proj2 (fem_intg_linear Demo.unsolved)).
  - reflexivity.
  - simpl. ring.
Defined.

(** ** More on the exact solution *)

(** A function that is affine in [cos (k y)] and [sin (k y)]. *)
Lemma derivable_pt_lim_trig (A B D k t : R) :
  derivable_pt_lim (fun y => A * cos (k * y) + B * sin (k * y) + D)%R t
    (- A * k * sin (k * t) + B * k * cos (k * t))%R.
Proof.
  assert (Hlin : derivable_pt_lim (fun y => k * y)%R t k).
  { pose proof (derivable_pt_lim_scal id k t 1 (derivable_pt_lim_id t)) as H.
    rewrite Rmult_1_r in H. exact H. }
  pose proof (derivable_pt_lim_comp _ cos t _ _ Hlin (derivable_pt_lim_cos (k * t))) as Hc.
  pose proof (derivable_pt_lim_comp _ sin t _ _ Hlin (derivable_pt_lim_sin (k * t))) as Hs.
  pose proof (derivable_pt_lim_scal _ A t _ Hc) as HAc.
  pose proof (derivable_pt_lim_scal _ B t _ Hs) as HBs.
  pose proof (derivable_pt_lim_plus _ _ t _ _
                (derivable_pt_lim_plus _ _ t _ _ HAc HBs)
                (derivable_pt_lim_const D t)) as Hsum.
  replace (- A * k * sin (k * t) + B * k * cos (k * t))%R
    with (A * (- sin (k * t) * k) + B * (cos (k * t) * k) + 0)%R by ring.
  eapply derivable_pt_lim_ext; [|exact Hsum].
  intros y. reflexivity.
Qed.

Lemma derivable_pt_lim_affine_trig (F : R -> R -> R) (k t : R) :
  (forall c s : R,
     F c s = ((F 1 0 - F 0 0) * c + (F 0 1 - F 0 0) * s + F 0 0)%R) ->
  derivable_pt_lim (fun y => F (cos (k * y)) (sin (k * y))) t
    (- (F 1 0 - F 0 0) * k * sin (k * t) + (F 0 1 - F 0 0) * k * cos (k * t))%R.
Proof.
  intros Haff.
  eapply derivable_pt_lim_ext; [|apply derivable_pt_lim_trig].
  intros y. cbv beta. symmetry. apply Haff.
Qed.

Section Exact_calculus.

(** [u] and [u_x] for a constant source [v], as functions of
    [c = cos (k x)] and [s = sin (k x)]. *)
Local Abbreviation u_trig s v :=
  (fun c s' : R =>
     (Cx.of_R (- v / Exact.k s ^ 2)
      * (Cx.of_R 1 - Cx.exp (Cx.j * Cx.of_R (Exact.k s)) * Cx.of_R c)
      + - Cx.exp (Cx.j * Cx.of_R (Exact.k s)) / ((0, 2)%R * Cx.of_R (Exact.k s))
        * (Exact.ga s * (c, s') + Exact.gb s * (c, (- s')%R)))%C).

Local Abbreviation u_x_trig s v :=
  (fun c s' : R =>
     (Cx.of_R (- v / Exact.k s)
      * (Cx.exp (Cx.j * Cx.of_R (Exact.k s)) * Cx.of_R s')
      + - Cx.exp (Cx.j * Cx.of_R (Exact.k s)) / Cx.of_R 2
        * (Exact.ga s * (c, s') - Exact.gb s * (c, (- s')%R)))%C).

Lemma u_at_trig (s : Exact.exact) (v t : R) :
  Exact.is_const s = true -> Exact.f s = Num v -> Exact.k s <> 0%R ->
  Exact.u s t = Ok (u_at s t)
  /\ u_at s t = u_trig s v (cos (Exact.k s * t)) (sin (Exact.k s * t)).
Proof.
  intros Hc Hf Hk. unfold u_at, Exact.u, Exact.uG. rewrite Hc, Hf.
  destruct (Req_dec_T (Exact.k s) 0) as [|_]; [contradiction|]. cbn [rbind].
  split; [reflexivity|]. unfold Exact.w.
  rewrite Cx_exp_j_times, Cx_exp_neg_j_times. reflexivity.
Qed.

Lemma u_x_at_trig (s : Exact.exact) (v t : R) :
  Exact.is_const s = true -> Exact.f s = Num v -> Exact.k s <> 0%R ->
  Exact.u_x s t = Ok (u_x_at s t)
  /\ u_x_at s t = u_x_trig s v (cos (Exact.k s * t)) (sin (Exact.k s * t)).
Proof.
  intros Hc Hf Hk. unfold u_x_at, Exact.u_x, Exact.uG_x. rewrite Hc, Hf.
  destruct (Req_dec_T (Exact.k s) 0) as [|_]; [contradiction|]. cbn [rbind].
  split; [reflexivity|]. unfold Exact.w_x.
  rewrite Cx_exp_j_times, Cx_exp_neg_j_times. reflexivity.
Qed.

Ltac cx_field Hk :=
  rewrite ?Cx_exp_j;
  repeat match goal with
    | |- context [Exact.ga ?s] => destruct (Exact.ga s) as [? ?]
    | |- context [Exact.gb ?s] => destruct (Exact.gb s) as [? ?]
    end;
  unfold Cx.div, Cx.inv, Cx.add, Cx.sub, Cx.mul, Cx.opp, Cx.j, Cx.of_R, Cx.re, Cx.im;
  cbn [fst snd]; field; exact Hk.

(** X12. With a constant source and [k <> 0], both lambdas of [__call__]
    return at every point, and [u_x] is the derivative of [u]: at every
    real [t], the real and the imaginary part of [u] are differentiable
    with derivatives the real and the imaginary part of [u_x(t)]. *)
Theorem exact_u_x_is_derivative (s : Exact.exact) (v : R) :
  Exact.is_const s = true -> Exact.f s = Num v -> Exact.k s <> 0%R ->
  forall t : R,
    Exact.u s t = Ok (u_at s t) /\ Exact.u_x s t = Ok (u_x_at s t)
    /\ Cderiv (u_at s) t (u_x_at s t).
Proof.
  intros Hc Hf Hk t.
  split; [apply (u_at_trig s v t Hc Hf Hk)|]. split; [apply (u_x_at_trig s v t Hc Hf Hk)|].
  rewrite (proj2 (u_x_at_trig s v t Hc Hf Hk)). split.
  - apply (derivable_pt_lim_ext
             (fun y => Cx.re (u_trig s v (cos (Exact.k s * y)) (sin (Exact.k s * y))))).
    + intros y. rewrite (proj2 (u_at_trig s v y Hc Hf Hk)). reflexivity.
    + match goal with
      | |- derivable_pt_lim _ _ ?d =>
          replace d with
            (- (Cx.re (u_trig s v 1 0) - Cx.re (u_trig s v 0 0)) * Exact.k s
               * sin (Exact.k s * t)
             + (Cx.re (u_trig s v 0 1) - Cx.re (u_trig s v 0 0)) * Exact.k s
               * cos (Exact.k s * t))%R
      end.
      * apply (derivable_pt_lim_affine_trig (fun c s' => Cx.re (u_trig s v c s'))).
        intros c s'. cx_field Hk.
      * cx_field Hk.
  - apply (derivable_pt_lim_ext
             (fun y => Cx.im (u_trig s v (cos (Exact.k s * y)) (sin (Exact.k s * y))))).
    + intros y. rewrite (proj2 (u_at_trig s v y Hc Hf Hk)). reflexivity.
    + match goal with
      | |- derivable_pt_lim _ _ ?d =>
          replace d with
            (- (Cx.im (u_trig s v 1 0) - Cx.im (u_trig s v 0 0)) * Exact.k s
               * sin (Exact.k s * t)
             + (Cx.im (u_trig s v 0 1) - Cx.im (u_trig s v 0 0)) * Exact.k s
               * cos (Exact.k s * t))%R
      end.
      * apply (derivable_pt_lim_affine_trig (fun c s' => Cx.im (u_trig s v c s'))).
        intros c s'. cx_field Hk.
      * cx_field Hk.
Qed.

(** X13. With a constant source [f] and [k <> 0], the function the class
    evaluates solves the Helmholtz equation on the whole line, whatever the
    domain [(a, b)]: [u_x] is differentiable at every [t] and its
    derivative [u_xx] satisfies [- u_xx - k^2 * u(t) = f]. *)
Theorem exact_solves_helmholtz (s : Exact.exact) (v : R) :
  Exact.is_const s = true -> Exact.f s = Num v -> Exact.k s <> 0%R ->
  forall t : R,
    exists u_xx : C,
      Cderiv (u_x_at s) t u_xx
      /\ (- u_xx - Cx.of_R (Exact.k s ^ 2) * u_at s t)%C = Cx.of_R v.
Proof.
  intros Hc Hf Hk t.
  exists ((- (Cx.re (u_x_trig s v 1 0) - Cx.re (u_x_trig s v 0 0)) * Exact.k s
             * sin (Exact.k s * t)
           + (Cx.re (u_x_trig s v 0 1) - Cx.re (u_x_trig s v 0 0)) * Exact.k s
             * cos (Exact.k s * t))%R,
          (- (Cx.im (u_x_trig s v 1 0) - Cx.im (u_x_trig s v 0 0)) * Exact.k s
             * sin (Exact.k s * t)
           + (Cx.im (u_x_trig s v 0 1) - Cx.im (u_x_trig s v 0 0)) * Exact.k s
             * cos (Exact.k s * t))%R).
  split; [split|].
  - apply (derivable_pt_lim_ext
             (fun y => Cx.re (u_x_trig s v (cos (Exact.k s * y)) (sin (Exact.k s * y))))).
    + intros y. rewrite (proj2 (u_x_at_trig s v y Hc Hf Hk)). reflexivity.
    + apply (derivable_pt_lim_affine_trig (fun c s' => Cx.re (u_x_trig s v c s'))).
      intros c s'. cx_field Hk.
  - apply (derivable_pt_lim_ext
             (fun y => Cx.im (u_x_trig s v (cos (Exact.k s * y)) (sin (Exact.k s * y))))).
    + intros y. rewrite (proj2 (u_x_at_trig s v y Hc Hf Hk)). reflexivity.
    + apply (derivable_pt_lim_affine_trig (fun c s' => Cx.im (u_x_trig s v c s'))).
      intros c s'. cx_field Hk.
  - rewrite (proj2 (u_at_trig s v t Hc Hf Hk)). rewrite ?Cx_exp_j.
    destruct (Exact.ga s) as [gar gai]. destruct (Exact.gb s) as [gbr gbi].
    unfold Cx.div, Cx.inv, Cx.add, Cx.sub, Cx.mul, Cx.opp, Cx.j, Cx.of_R, Cx.re, Cx.im.
    cbn [fst snd]. f_equal; field; exact Hk.
Qed.

End Exact_calculus.

(** X14. [verify] returns exactly when each boundary residual is within
    [1e-4 + 1e-5 * |g|] of its target [g] ([np.allclose] adds its default
    relative tolerance to [atol]); otherwise it raises [AssertionError]. *)
Theorem exact_verify_tolerance (s : Exact.exact) (ra rb : C) :
  residual_a s = Ok ra -> residual_b s = Ok rb ->
  (Exact.verify s = Ok tt
   <-> (Cx.abs (ra - Exact.ga s)%C <= 1 / 10000 + 1 / 100000 * Cx.abs (Exact.ga s))%R
       /\ (Cx.abs (rb - Exact.gb s)%C <= 1 / 10000 + 1 / 100000 * Cx.abs (Exact.gb s))%R)
  /\ (Exact.verify s = Ok tt \/ Exact.verify s = Raise AssertionError).
Proof.
  intros Ha Hb. pose proof (verify_residuals s) as Hv. rewrite Ha, Hb in Hv.
  unfold Exact.allclose, Exact.atol, Exact.rtol in Hv.
  destruct (Rle_dec _ _) as [Hla|Hla] in Hv;
    [destruct (Rle_dec _ _) as [Hlb|Hlb] in Hv|]; rewrite Hv.
  - split; [tauto|left; reflexivity].
  - split; [|right; reflexivity]. split; [discriminate|]. intros [_ H]. contradiction.
  - split; [|right; reflexivity]. split; [discriminate|]. intros [H _]. contradiction.
Qed.

(** X2. Over the real numbers, on the domain [(-1, 1)], with a constant
    source and [k <> 0], the function [u = uG + w] meets both boundary
    conditions exactly: [u] and [u_x] return at [a] and at [b], and the
    left-hand sides [- u_x(a) - 1j * k * u(a)] and
    [u_x(b) - 1j * k * u(b)] that [verify] compares with [ga] and [gb] are
    [ga] and [gb]. *)
Theorem exact_boundary_reference_domain (s : Exact.exact) (v : R) :
  Exact.is_const s = true -> Exact.f s = Num v -> Exact.k s <> 0%R ->
  Exact.a s = (-1)%R -> Exact.b s = 1%R ->
  exists u_a ux_a u_b ux_b : C,
    (Exact.u s (Exact.a s) = Ok u_a /\ Exact.u_x s (Exact.a s) = Ok ux_a)
    /\ (Exact.u s (Exact.b s) = Ok u_b /\ Exact.u_x s (Exact.b s) = Ok ux_b)
    /\ (- ux_a - Cx.j * Cx.of_R (Exact.k s) * u_a)%C = Exact.ga s
    /\ (ux_b - Cx.j * Cx.of_R (Exact.k s) * u_b)%C = Exact.gb s.
Proof.
  intros Hc Hf Hk Ha Hb.
  pose proof (residual_a_const s v Hc Hf Hk) as Hra.
  pose proof (residual_b_const s v Hc Hf Hk) as Hrb.
  unfold residual_a in Hra. unfold residual_b in Hrb.
  destruct (Exact.u_x s (Exact.a s)) as [ux_a|]; [|discriminate].
  destruct (Exact.u s (Exact.a s)) as [u_a|]; [|discriminate].
  destruct (Exact.u_x s (Exact.b s)) as [ux_b|]; [|discriminate].
  destruct (Exact.u s (Exact.b s)) as [u_b|]; [|discriminate].
  cbn [rbind] in Hra, Hrb.
  assert (Hinj : forall x y : C, Ok x = Ok y -> x = y) by (intros x y [=]; assumption).
  apply Hinj in Hra. apply Hinj in Hrb.
  exists u_a, ux_a, u_b, ux_b. split; [tauto|]. split; [tauto|].
  rewrite Hra, Hrb, Ha, Hb.
  replace (Exact.k s * (1 + -1))%R with 0%R by ring.
  replace (Exact.k s * (1 - 1))%R with 0%R by ring.
  rewrite Cx_exp_j, cos_0, sin_0.
  destruct (Exact.ga s) as [gar gai]. destruct (Exact.gb s) as [gbr gbi].
  unfold Cx.add, Cx.sub, Cx.mul, Cx.j, Cx.of_R, Cx.re, Cx.im. cbn [fst snd].
  split; f_equal; field; exact Hk.
Qed.

Lemma exact_intg_no_nodes (s : Exact.exact) (func : list R -> result (list C)) :
  fst (Exact.quadpoints s) = [] -> Exact.intg s func = Raise IndexError.
Proof. intros Hroots. unfold Exact.intg. rewrite Hroots. reflexivity. Qed.

Lemma exact_intg_raises (s : Exact.exact) (func : list R -> result (list C)) (e : exn) :
  fst (Exact.quadpoints s) <> [] -> func (fst (Exact.quadpoints s)) = Raise e ->
  Exact.intg s func = Raise e.
Proof.
  intros Hroots Hfunc. unfold Exact.intg.
  destruct (py_index_nonempty _ (-1) Hroots) as [hi ->]; [lia|].
  destruct (py_index_nonempty _ 0 Hroots) as [lo ->]; [lia|].
  cbn [rbind]. rewrite Hfunc. reflexivity.
Qed.

(** X15. A source type other than ['const'] (the default [None] among
    them) makes [uG] and [uG_x] integrate over the quadrature rule, and
    the integrand calls [f]. With a number for [f]: on a rule without
    nodes, [verify] and [uG(a)] raise [IndexError] at the look-up of the
    last node; on a rule with nodes, [verify] raises [TypeError] at its
    first evaluation of [u_x], whatever [k] is, and [uG(a)] raises
    [TypeError] for [k <> 0] and [ZeroDivisionError] for [k = 0], since
    [G] divides by [1j * k] before [f] is called. *)
Theorem exact_default_source_needs_callable (s : Exact.exact) (v : R) :
  Exact.source s <> Some "const"%string -> Exact.f s = Num v ->
  (fst (Exact.quadpoints s) = [] ->
   Exact.verify s = Raise IndexError /\ Exact.uG s (Exact.a s) = Raise IndexError)
  /\ (fst (Exact.quadpoints s) <> [] ->
      (exists msg : string, Exact.verify s = Raise (TypeError msg))
      /\ (Exact.k s <> 0%R ->
          exists msg : string, Exact.uG s (Exact.a s) = Raise (TypeError msg))
      /\ (Exact.k s = 0%R -> Exact.uG s (Exact.a s) = Raise ZeroDivisionError)).
Proof.
  intros Hsrc Hf.
  assert (Hc : Exact.is_const s = false).
  { unfold Exact.is_const. destruct (Exact.source s) as [name|]; [|reflexivity].
    apply String.eqb_neq. congruence. }
  unfold Exact.verify, Exact.u_x, Exact.uG_x, Exact.uG. rewrite Hc.
  split; intros Hroots.
  - rewrite !exact_intg_no_nodes by exact Hroots. split; reflexivity.
  - split; [|split].
    + eexists. erewrite exact_intg_raises; [reflexivity|exact Hroots|].
      unfold Exact.call_f. rewrite Hf. reflexivity.
    + intros Hk. eexists. apply exact_intg_raises; [exact Hroots|].
      destruct (Req_dec_T (Exact.k s) 0) as [|_]; [contradiction|].
      unfold Exact.call_f. rewrite Hf. reflexivity.
    + intros Hk. apply exact_intg_raises; [exact Hroots|].
      destruct (Req_dec_T (Exact.k s) 0) as [_|]; [reflexivity|contradiction].
Qed.

Lemma exact_verify_tolerance_witness :
  let s := Exact.init Demo.quadrature (Num 2, Num 0) 3 (-1) 1 (1, 0)%R (0, 1)%R
             (Some "const"%string) in
  exists ra rb,
    residual_a s = Ok ra /\ residual_b s = Ok rb
    /\ (Exact.verify s = Ok tt \/ Exact.verify s = Raise AssertionError).
Proof.
  cbv zeta.
  pose (s := Exact.init Demo.quadrature (Num 2, Num 0) 3 (-1) 1 (1, 0)%R (0, 1)%R
               (Some "const"%string)).
  assert (Hk : Exact.k s <> 0%R) by (cbn; lra).
  pose proof (residual_a_const s 2 eq_refl eq_refl Hk) as Ha.
  pose proof (residual_b_const s 2 eq_refl eq_refl Hk) as Hb.
  eexists. eexists. split; [exact Ha|]. split; [exact Hb|].
  exact (proj2 (exact_verify_tolerance s _ _ Ha Hb)).
Defined.

Lemma exact_boundary_reference_domain_witness :
  let s := Exact.init Demo.quadrature (Num 2, Num 0) 3 (-1) 1 (1, 0)%R (0, 1)%R
             (Some "const"%string) in
  exists u_a ux_a u_b ux_b : C,
    (Exact.u s (-1) = Ok u_a /\ Exact.u_x s (-1) = Ok ux_a)
    /\ (Exact.u s 1 = Ok u_b /\ Exact.u_x s 1 = Ok ux_b)
    /\ (- ux_a - Cx.j * Cx.of_R 3 * u_a)%C = (1, 0)%R
    /\ (ux_b - Cx.j * Cx.of_R 3 * u_b)%C = (0, 1)%R.
Proof.
  cbv zeta.
  apply (exact_boundary_reference_domain
           (Exact.init Demo.quadrature (Num 2, Num 0) 3 (-1) 1 (1, 0)%R (0, 1)%R
              (Some "const"%string)) 2%R); try reflexivity.
  cbn. lra.
Defined.

Lemma exact_default_source_needs_callable_witness :
  let s := Exact.init Demo.quadrature (Num 2, Num 0) 3 0 1 (1, 0)%R (0, 1)%R None in
  (exists msg : string, Exact.verify s = Raise (TypeError msg))
  /\ exists msg : string, Exact.uG s 0 = Raise (TypeError msg).
Proof.
  cbv zeta.
  destruct (proj2 (exact_default_source_needs_callable
                     (Exact.init Demo.quadrature (Num 2, Num 0) 3 0 1 (1, 0)%R (0, 1)%R None)
                     2%R ltac:(discriminate) eq_refl) ltac:(discriminate))
    as (Hverify & HuG & _).
  split; [exact Hverify|]. apply HuG. cbn. lra.
Defined.

Lemma exact_u_x_is_derivative_witness :
  let s := Exact.init Demo.quadrature (Num 2, Num 0) 3 0 1 (1, 0)%R (0, 1)%R
             (Some "const"%string) in
  Exact.u s 0 = Ok (u_at s 0) /\ Exact.u_x s 0 = Ok (u_x_at s 0)
  /\ Cderiv (u_at s) 0 (u_x_at s 0).
Proof.
  cbv zeta. apply (exact_u_x_is_derivative _ 2%R); try reflexivity.
  cbn. lra.
Defined.

Lemma exact_solves_helmholtz_witness :
  let s := Exact.init Demo.quadrature (Num 2, Num 0) 3 0 1 (1, 0)%R (0, 1)%R
             (Some "const"%string) in
  exists u_xx : C,
    Cderiv (u_x_at s) 0 u_xx
    /\ (- u_xx - Cx.of_R (Exact.k s ^ 2) * u_at s 0)%C = Cx.of_R 2.
Proof.
  cbv zeta. apply (exact_solves_helmholtz _ 2%R); try reflexivity.
  cbn. lra.
Defined.

(** ** The H1 error as a norm *)

Lemma mapR_ok {A B : Type} (g : A -> result B) (h : A -> B) (xs : list A) :
  (forall x, In x xs -> g x = Ok (h x)) -> mapR g xs = Ok (map h xs).
Proof.
  induction xs as [|x xs IH]; intros Hg; [reflexivity|]. simpl.
  rewrite (Hg x (or_introl eq_refl)), IH; [reflexivity|].
  intros x' Hx'. apply Hg. right. exact Hx'.
Qed.

Lemma L2_square_nonneg (lo hi : R) (roots weights : list R) (e : R -> C) :
  (lo <= hi)%R -> nonneg weights -> (0 <= L2_square lo hi roots weights e)%R.
Proof.
  intros Hord Hw. unfold L2_square.
  assert (0 <= Rsum (zip_with Rmult (map (fun t => (Cx.abs (e t) ^ 2)%R) roots) weights))%R.
  { apply Rsum_nonneg, products_nonneg; [|exact Hw].
    unfold nonneg. apply Forall_map, Forall_forall. intros t _. apply pow2_ge_0. }
  assert (0 <= (hi - lo)
               * Rsum (zip_with Rmult (map (fun t => (Cx.abs (e t) ^ 2)%R) roots) weights))%R
    by (apply Rmult_le_pos; lra).
  lra.
Qed.

(** The integral of an integrand of [H1_error], for a solver that holds
    [N + 1] coefficients and [N + 1] basis functions. *)
Lemma fem_intgR_sq_err (s : FEM.fem) (l : FEM.closure) (w : R -> C) (cs : list C) :
  FEM.c s = Some cs -> length cs = (FEM.N s + 1)%nat ->
  length (FEM.bases s) = (FEM.N s + 1)%nat ->
  FEM.intgR s (FEM.sq_err s (Some l) w)
  = Ok (L2_square (FEM.a s) (FEM.b s) (FEM.roots s) (FEM.weights s)
          (fun t => (w t - Cx.sum (zip_with (fun ci bi =>
                                               ci * Cx.of_R (match l with
                                                             | FEM.Lam_sol => FEM.phi bi t
                                                             | FEM.Lam_der => FEM.deriv1 bi t
                                                             end))
                                     cs (FEM.bases s)))%C)).
Proof.
  intros Hc Hcs Hbs. unfold FEM.intgR, L2_square.
  erewrite mapR_ok; [reflexivity|].
  intros t _. unfold FEM.sq_err.
  rewrite (apply_closure_sum s l t cs Hc Hcs Hbs). reflexivity.
Qed.

Section FEM_error.

Variable linalg_solve : list (list C) -> list C -> result (list C).

(** X16. After [solve], [H1_error(u, u_x)] of the FEM solver prints
    nothing, leaves the solver as it is and returns
    [(err_u + err_u_x, err_u, err_u_x)], where [err_u] is the L2 norm, by
    the quadrature rule of the solver (as many weights as nodes), of [u]
    minus the sum of the [c_i * phi_i], and [err_u_x] the L2 norm of [u_x]
    minus the sum of the [c_i * phi_i']; the integrals under the square
    roots are not negative when [a <= b] and no weight is negative. *)
Theorem fem_H1_error_L2_norms (s s' : FEM.fem) (u u_x : R -> C) (cs : list C) :
  returns (FEM.solve linalg_solve) s tt s' ->
  FEM.c s' = Some cs -> length cs = (FEM.N s + 1)%nat ->
  length (FEM.bases s) = (FEM.N s + 1)%nat ->
  length (FEM.roots s) = length (FEM.weights s) ->
  exists err_u err_u_x : R,
    FEM.H1_error u u_x s'
    = mkOutcome (Ok (Some ((err_u + err_u_x)%R, err_u, err_u_x))) s' []
    /\ err_u
       = L2_norm (FEM.a s) (FEM.b s) (FEM.roots s) (FEM.weights s)
           (fun t => (u t - Cx.sum (zip_with (fun ci bi => ci * Cx.of_R (FEM.phi bi t))
                                      cs (FEM.bases s)))%C)
    /\ err_u_x
       = L2_norm (FEM.a s) (FEM.b s) (FEM.roots s) (FEM.weights s)
           (fun t => (u_x t - Cx.sum (zip_with (fun ci bi => ci * Cx.of_R (FEM.deriv1 bi t))
                                        cs (FEM.bases s)))%C)
    /\ ((FEM.a s <= FEM.b s)%R -> nonneg (FEM.weights s) ->
        forall e : R -> C,
          (0 <= L2_square (FEM.a s) (FEM.b s) (FEM.roots s) (FEM.weights s) e)%R).
Proof.
  intros Hrun Hc Hcs Hbs _.
  destruct (solve_spec linalg_solve s s' tt Hrun) as (Hp & _ & _ & Hsol & Hder).
  assert (Hsame : FEM.N s' = FEM.N s /\ FEM.bases s' = FEM.bases s
                  /\ FEM.a s' = FEM.a s /\ FEM.b s' = FEM.b s
                  /\ FEM.roots s' = FEM.roots s /\ FEM.weights s' = FEM.weights s).
  { destruct s, s'; unfold problem in Hp; simpl in *.
    repeat split; congruence. }
  destruct Hsame as (HN & Hb & Ha' & Hb' & Hr & Hw).
  eexists. eexists. split; [|split; [reflexivity|split; [reflexivity|]]].
  - unfold FEM.H1_error.
    erewrite bind_ok by reflexivity. rewrite Hsol.
    erewrite bind_ok
      by (unfold lift; rewrite (fem_intgR_sq_err s' FEM.Lam_sol u cs Hc) by congruence;
          reflexivity).
    rewrite Hder.
    erewrite bind_ok
      by (unfold lift; rewrite (fem_intgR_sq_err s' FEM.Lam_der u_x cs Hc) by congruence;
          reflexivity).
    unfold ret, L2_norm. rewrite Hb, Ha', Hb', Hr, Hw. reflexivity.
  - intros Hab Hnn e. apply L2_square_nonneg; assumption.
Qed.

End FEM_error.

Lemma zip_with_map_r {A B D : Type} (g : A -> B -> D) (h : A -> B) (xs : list A) :
  zip_with g xs (map h xs) = map (fun t => g t (h t)) xs.
Proof. induction xs as [|x xs IH]; simpl; [reflexivity|]. rewrite IH. reflexivity. Qed.

Lemma zip_with_plus_map {A : Type} (g h : A -> R) (xs : list A) :
  zip_with Rplus (map g xs) (map h xs) = map (fun t => (g t + h t)%R) xs.
Proof. induction xs as [|x xs IH]; simpl; [reflexivity|]. rewrite IH. reflexivity. Qed.

Lemma Rsum_squares_nonneg {A : Type} (g h : A -> R) (xs : list A) :
  (0 <= Rsum (map (fun t => (g t ^ 2 + h t ^ 2)%R) xs))%R.
Proof.
  apply Rsum_nonneg. unfold nonneg. apply Forall_map, Forall_forall. intros t _.
  pose proof (pow2_ge_0 (g t)). pose proof (pow2_ge_0 (h t)). lra.
Qed.

Section VPINN_error.

Variable Linear : Type.
Variable apply_linear : Linear -> list R -> list R.
Variable autograd : VPINN.traced -> VPINN.traced.

Local Abbreviation forward := (VPINN.forward Linear apply_linear).
Local Abbreviation H1_error := (VPINN.H1_error Linear apply_linear autograd).

(** [deriv(1, x)] on a tensor of the class. *)
Lemma deriv_first (c : VPINN.config) (ls : list Linear) (xs : list R) :
  VPINN.deriv Linear apply_linear autograd c ls 1 (VPINN.mkInput xs true)
  = Ok (map (VPINN.fn (autograd (VPINN.mkTraced (fun y => fst (forward c ls y)) true))) xs,
        map (VPINN.fn (autograd (VPINN.mkTraced (fun y => snd (forward c ls y)) true))) xs).
Proof. reflexivity. Qed.

(** The value of [H1_error]: both integrands have shape [(n,)] and are
    summed against every weight. *)
Lemma vpinn_H1_error_value (s : VPINN.vpinn Linear) (u u_x : R -> C) (lo hi : R) :
  py_index (fst (VPINN.quadpoints (VPINN.cfg s))) 0 = Ok lo ->
  py_index (fst (VPINN.quadpoints (VPINN.cfg s))) (-1) = Ok hi ->
  forall iu iux : R,
    iu = ((hi - lo)
          * (Rsum (map (fun t =>
                          (Cx.re (u t) - fst (forward (VPINN.cfg s) (VPINN.lins s) t)) ^ 2
                          + (Cx.im (u t) - snd (forward (VPINN.cfg s) (VPINN.lins s) t)) ^ 2)
                       (fst (VPINN.quadpoints (VPINN.cfg s))))
             * Rsum (snd (VPINN.quadpoints (VPINN.cfg s))))
          / 2)%R ->
    iux = ((hi - lo)
           * (Rsum (map (fun t =>
                           (Cx.re (u_x t)
                            - VPINN.fn (autograd (VPINN.mkTraced
                                 (fun y => fst (forward (VPINN.cfg s) (VPINN.lins s) y))
                                 true)) t) ^ 2
                           + (Cx.im (u_x t)
                              - VPINN.fn (autograd (VPINN.mkTraced
                                   (fun y => snd (forward (VPINN.cfg s) (VPINN.lins s) y))
                                   true)) t) ^ 2)
                        (fst (VPINN.quadpoints (VPINN.cfg s))))
              * Rsum (snd (VPINN.quadpoints (VPINN.cfg s))))
           / 2)%R ->
    H1_error u u_x s
    = mkOutcome (Ok ((sqrt iu + sqrt iux)%R, sqrt iu, sqrt iux))
        (VPINN.set_training false s) [].
Proof.
  intros Hlo Hhi iu iux -> ->. unfold VPINN.H1_error.
  erewrite bind_ok by reflexivity.
  erewrite bind_ok by reflexivity.
  erewrite bind_ok.
  2:{ unfold lift, VPINN.intg, VPINN.u2. rewrite Hhi, Hlo. cbn [rbind].
      rewrite sum_mul_flat. reflexivity. }
  erewrite bind_ok.
  2:{ unfold lift, VPINN.intg, VPINN.ux2, VPINN.component.
      rewrite Hhi, Hlo, deriv_first. cbn [rbind fst snd].
      rewrite !zip_with_map_r, zip_with_plus_map, sum_mul_flat. reflexivity. }
  reflexivity.
Qed.

(** X17. [H1_error(u, u_x)] of the VPINN solver puts the approximator in
    evaluation mode, prints nothing and returns
    [(err_u + err_u_x, err_u, err_u_x)], where, over the nodes [x_i] of the
    solver's rule with first node [lo] and last node [hi], [err_u] is the
    square root of [(hi - lo) / 2 * (sum_i |u(x_i) - net(x_i)|^2) * (sum of
    the weights)] and [err_u_x] the same with [u_x] and the derivative of
    the network that [autograd] gives; both radicands are not negative
    when [lo <= hi] and no weight is negative. *)
Theorem vpinn_H1_error_components (s : VPINN.vpinn Linear) (u u_x : R -> C) (lo hi : R) :
  py_index (fst (VPINN.quadpoints (VPINN.cfg s))) 0 = Ok lo ->
  py_index (fst (VPINN.quadpoints (VPINN.cfg s))) (-1) = Ok hi ->
  exists iu iux : R,
    H1_error u u_x s
    = mkOutcome (Ok ((sqrt iu + sqrt iux)%R, sqrt iu, sqrt iux))
        (VPINN.set_training false s) []
    /\ iu = ((hi - lo)
             * (Rsum (map (fun t =>
                             (Cx.re (u t) - fst (forward (VPINN.cfg s) (VPINN.lins s) t)) ^ 2
                             + (Cx.im (u t) - snd (forward (VPINN.cfg s) (VPINN.lins s) t)) ^ 2)
                          (fst (VPINN.quadpoints (VPINN.cfg s))))
                * Rsum (snd (VPINN.quadpoints (VPINN.cfg s))))
             / 2)%R
    /\ iux = ((hi - lo)
              * (Rsum (map (fun t =>
                              (Cx.re (u_x t)
                               - VPINN.fn (autograd (VPINN.mkTraced
                                    (fun y => fst (forward (VPINN.cfg s) (VPINN.lins s) y))
                                    true)) t) ^ 2
                              + (Cx.im (u_x t)
                                 - VPINN.fn (autograd (VPINN.mkTraced
                                      (fun y => snd (forward (VPINN.cfg s) (VPINN.lins s) y))
                                      true)) t) ^ 2)
                           (fst (VPINN.quadpoints (VPINN.cfg s))))
                 * Rsum (snd (VPINN.quadpoints (VPINN.cfg s))))
              / 2)%R
    /\ ((lo <= hi)%R -> nonneg (snd (VPINN.quadpoints (VPINN.cfg s))) ->
        (0 <= iu)%R /\ (0 <= iux)%R).
Proof.
  intros Hlo Hhi. eexists. eexists.
  split; [apply (vpinn_H1_error_value s u u_x lo hi Hlo Hhi); reflexivity|].
  split; [reflexivity|]. split; [reflexivity|].
  intros Hord Hw.
  pose proof (Rsum_nonneg _ Hw) as Hsw.
  split.
  - pose proof (Rsum_squares_nonneg
                  (fun t => (Cx.re (u t) - fst (forward (VPINN.cfg s) (VPINN.lins s) t))%R)
                  (fun t => (Cx.im (u t) - snd (forward (VPINN.cfg s) (VPINN.lins s) t))%R)
                  (fst (VPINN.quadpoints (VPINN.cfg s)))) as Hsq.
    cbv beta in Hsq.
    match goal with
    | |- (0 <= (hi - lo) * (?x * ?y) / 2)%R =>
        assert (0 <= x * y)%R by (apply Rmult_le_pos; assumption);
        assert (0 <= (hi - lo) * (x * y))%R by (apply Rmult_le_pos; lra)
    end.
    lra.
  - pose proof (Rsum_squares_nonneg
                  (fun t => (Cx.re (u_x t)
                             - VPINN.fn (autograd (VPINN.mkTraced
                                  (fun y => fst (forward (VPINN.cfg s) (VPINN.lins s) y))
                                  true)) t)%R)
                  (fun t => (Cx.im (u_x t)
                             - VPINN.fn (autograd (VPINN.mkTraced
                                  (fun y => snd (forward (VPINN.cfg s) (VPINN.lins s) y))
                                  true)) t)%R)
                  (fst (VPINN.quadpoints (VPINN.cfg s)))) as Hsq.
    cbv beta in Hsq.
    match goal with
    | |- (0 <= (hi - lo) * (?x * ?y) / 2)%R =>
        assert (0 <= x * y)%R by (apply Rmult_le_pos; assumption);
        assert (0 <= (hi - lo) * (x * y))%R by (apply Rmult_le_pos; lra)
    end.
    lra.
Qed.

End VPINN_error.

Lemma Cx_abs_sq (z : C) : (Cx.abs z ^ 2 = Cx.re z ^ 2 + Cx.im z ^ 2)%R.
Proof.
  unfold Cx.abs. rewrite pow2_sqrt; [ring|].
  pose proof (pow2_ge_0 (Cx.re z)). pose proof (pow2_ge_0 (Cx.im z)). nra.
Qed.

(** C8, at an input on which the code departs from it. The solver on
    [(0, 1)] has the two-point rule (nodes 0 and 1, weights 1 and 1) and
    the network [t -> (t, 2 t + 1)], whose derivative is [(1, 2)];
    [H1_error] is called with [u = 0] and [u_x = 1j]. The L2 norms of the
    two differences by this rule are [sqrt (11 / 2)] and [sqrt 2];
    [H1_error] returns [sqrt 11] and [sqrt 4] for them (and their sum as
    the first component): the integrand of shape [(n,)] is multiplied with
    the weights of shape [(n, 1)], and every node is counted with the sum
    of all the weights. *)
Theorem vpinn_H1_error_not_L2 :
  value (VPINN.H1_error Demo.Linear Demo.apply_linear Demo.autograd
           (fun _ => Cx.zero) (fun _ => Cx.j) (Demo.model None))
  = Ok ((sqrt 11 + sqrt 4)%R, sqrt 11, sqrt 4)
  /\ L2_norm 0 1 [0%R; 1%R] [1%R; 1%R]
       (fun t => (Cx.zero
                  - VPINN.forward Demo.Linear Demo.apply_linear (Demo.config None)
                      Demo.lins t)%C)
     = sqrt (11 / 2)
  /\ L2_norm 0 1 [0%R; 1%R] [1%R; 1%R] (fun _ => (Cx.j - (1, 2)%R)%C) = sqrt 2
  /\ sqrt 11 <> sqrt (11 / 2) /\ sqrt 4 <> sqrt 2.
Proof.
  split; [|split; [|split; [|split]]].
  - rewrite (vpinn_H1_error_value Demo.Linear Demo.apply_linear Demo.autograd
               (Demo.model None) (fun _ => Cx.zero) (fun _ => Cx.j) 0 1
               eq_refl eq_refl 11 4).
    + reflexivity.
    + cbn. lra.
    + cbn. lra.
  - unfold L2_norm, L2_square. f_equal. cbn [map zip_with Rsum fold_right].
    rewrite !Cx_abs_sq. cbn. lra.
  - unfold L2_norm, L2_square. f_equal. cbn [map zip_with Rsum fold_right].
    rewrite !Cx_abs_sq. cbn. lra.
  - intros H. apply sqrt_inj in H; lra.
  - intros H. apply sqrt_inj in H; lra.
Qed.


Lemma fem_H1_error_L2_norms_witness :
  exists (cs : list C) (err_u err_u_x : R),
    returns (FEM.solve Demo.linalg_solve) Demo.unsolved tt Demo.solved
    /\ FEM.c Demo.solved = Some cs
    /\ FEM.H1_error (fun _ => Cx.zero) (fun _ => Cx.j) Demo.solved
       = mkOutcome (Ok (Some ((err_u + err_u_x)%R, err_u, err_u_x))) Demo.solved [].
Proof.
  assert (Hrun : returns (FEM.solve Demo.linalg_solve) Demo.unsolved tt Demo.solved)
    by (split; vm_compute; reflexivity).
  pose (cs := Demo.content (FEM.c Demo.solved) []).
  assert (Hc : FEM.c Demo.solved = Some cs) by (vm_compute; reflexivity).
  destruct (fem_H1_error_L2_norms Demo.linalg_solve Demo.unsolved Demo.solved
              (fun _ => Cx.zero) (fun _ => Cx.j) cs Hrun Hc eq_refl eq_refl eq_refl)
    as (err_u & err_u_x & Hval & _).
  exists cs, err_u, err_u_x. split; [exact Hrun|]. split; [exact Hc|exact Hval].
Defined.

Lemma vpinn_H1_error_components_witness :
  exists iu iux : R,
    VPINN.H1_error Demo.Linear Demo.apply_linear Demo.autograd
      (fun _ => Cx.zero) (fun _ => Cx.j) (Demo.model None)
    = mkOutcome (Ok ((sqrt iu + sqrt iux)%R, sqrt iu, sqrt iux))
        (VPINN.set_training false (Demo.model None)) []
    /\ (0 <= iu)%R /\ (0 <= iux)%R.
Proof.
  destruct (vpinn_H1_error_components Demo.Linear Demo.apply_linear Demo.autograd
              (Demo.model None) (fun _ => Cx.zero) (fun _ => Cx.j) 0 1 eq_refl eq_refl)
    as (iu & iux & Hval & _ & _ & Hnn).
  exists iu, iux. split; [exact Hval|]. apply Hnn.
  - lra.
  - change (nonneg [1%R; 1%R]). repeat constructor; lra.
Defined.

(** ** The forward pass *)

Section VPINN_forward.

Variable Linear : Type.
Variable apply_linear : Linear -> list R -> list R.

Lemma forward_from_feed (act : R -> R) (ls : list Linear) :
  forall (i n : nat) (row : list R),
    (length ls <= n)%nat ->
    VPINN.forward_from Linear apply_linear act (i + length ls) (seq i n) ls row
    = feed Linear apply_linear act ls row.
Proof.
  induction ls as [|l ls IH]; intros i n row Hn.
  - destruct n; reflexivity.
  - destruct n as [|n]; [simpl in Hn; lia|].
    cbn [seq VPINN.forward_from length].
    destruct ls as [|l' ls].
    + rewrite (proj2 (Nat.eqb_eq _ _)) by (simpl; lia).
      destruct n; reflexivity.
    + rewrite (proj2 (Nat.eqb_neq _ _)) by (simpl; lia).
      replace (i + S (length (l' :: ls)))%nat with (S i + length (l' :: ls))%nat by lia.
      rewrite IH by (simpl in Hn |- *; lia). reflexivity.
Qed.

(** X18. [forward(x)] applies the layers of [lins] in order, with the
    activation after every layer but the last, whenever [self.length] is at
    least the number of layers (as for a solver built by [__init__], where
    it is that number plus one): the output layer is never followed by the
    activation, and no layer is skipped. *)
Theorem vpinn_forward_feeds (c : VPINN.config) (ls : list Linear) (t : R) :
  (length ls <= VPINN.length c)%nat ->
  VPINN.forward Linear apply_linear c ls t
  = (nth 0 (feed Linear apply_linear (VPINN.activation c) ls [t]) 0%R,
     nth 1 (feed Linear apply_linear (VPINN.activation c) ls [t]) 0%R).
Proof.
  intros Hlen. unfold VPINN.forward.
  pose proof (forward_from_feed (VPINN.activation c) ls 0 (VPINN.length c) [t] Hlen)
    as Hfeed.
  cbn [Nat.add] in Hfeed. rewrite Hfeed. reflexivity.
Qed.

End VPINN_forward.

(** ** The construction of the approximator *)

Lemma map_M_returns {St X Y : Type} (g : X -> M St Y) (xs : list X) :
  (forall x s, exists y s', g x s = mkOutcome (Ok y) s' []) ->
  forall s, exists ys s',
    VPINN.map_M g xs s = mkOutcome (Ok ys) s' [] /\ length ys = length xs.
Proof.
  intros Hg. induction xs as [|x xs IH]; intros s.
  - exists [], s. split; reflexivity.
  - destruct (Hg x s) as (y & s1 & Hy). destruct (IH s1) as (ys & s2 & Hys & Hlen).
    exists (y :: ys), s2. split; [|simpl; rewrite Hlen; reflexivity].
    cbn [VPINN.map_M]. erewrite bind_ok by exact Hy.
    erewrite bind_ok by exact Hys. reflexivity.
Qed.

Section VPINN_construction.

Variable Linear : Type.
Variable Rng : Type.
Variable manual_seed : Z -> Rng -> Rng.
Variable nn_Linear : Z -> Z -> Rng -> Linear * Rng.
Variable xavier_normal_ : Linear -> Rng -> Linear * Rng.
Variable uniform_ : R -> R -> Linear -> Rng -> Linear * Rng.
Variable zeros_ : Linear -> Linear.
Variable gauss_lobatto_jacobi_quadrature1D : nat -> R -> R -> list R * list R.

Local Abbreviation init :=
  (VPINN.init Linear Rng manual_seed nn_Linear xavier_normal_ uniform_ zeros_
     gauss_lobatto_jacobi_quadrature1D).

Lemma seeding_returns (seed : option Z) (r : Rng) :
  exists r0,
    match seed with
    | Some z => if (z =? 0)%Z then ret tt else modify (manual_seed z)
    | None => ret tt
    end r = mkOutcome (Ok tt) r0 [].
Proof.
  destruct seed as [z|]; [destruct (z =? 0)%Z|]; eexists; reflexivity.
Qed.

Lemma init_accepts f k a b ga gb (layers : list Z) activation penalty quad_N
    seed (r : Rng) :
  let o := init f k a b ga gb layers activation penalty quad_N seed r in
  (layers = [] -> value o = Raise IndexError)
  /\ (forall w : Z, py_index layers (-1) = Ok w -> w <> 2%Z ->
        value o = Raise AssertionError)
  /\ (layers = [2%Z] -> value o = Raise IndexError)
  /\ ((2 <= length layers)%nat -> py_index layers (-1) = Ok 2%Z ->
      exists s,
        value o = Ok s
        /\ length (VPINN.lins s) = (length layers - 1)%nat
        /\ VPINN.length (VPINN.cfg s) = length layers
        /\ VPINN.len (VPINN.cfg s) = (Z.of_nat (length (VPINN.lins s)) - 1)%Z
        /\ VPINN.epoch s = 0%Z
        /\ VPINN.history s = VPINN.mkHistory [] [] None
        /\ VPINN.training s = true).
Proof.
  cbv zeta. unfold VPINN.init.
  destruct (seeding_returns seed r) as [r0 Hseed].
  erewrite bind_ok by exact Hseed.
  split; [|split; [|split]].
  - intros ->. reflexivity.
  - intros w Hw Hne.
    erewrite bind_ok by (unfold lift; rewrite Hw; reflexivity).
    rewrite (proj2 (Z.eqb_neq w 2) Hne). reflexivity.
  - intros ->. reflexivity.
  - intros Hlen Hlast.
    erewrite bind_ok by (unfold lift; rewrite Hlast; reflexivity).
    cbn [Z.eqb Pos.eqb negb].
    set (n := length layers) in *.
    destruct (map_M_returns
                (fun io : Z * Z => VPINN.draw Rng (nn_Linear (fst io) (snd io)))
                (zip (take (n - 2) layers) (drop 1 (take (n - 1) layers))) ) with (s := r0)
      as (hidden & r1 & Hhidden & Hhlen).
    { intros io s. eexists. eexists. reflexivity. }
    erewrite bind_ok by exact Hhidden.
    destruct (py_index_valid layers (-2)) as [fan_in Hfan];
      [unfold valid_index; fold n; lia|].
    erewrite bind_ok by (unfold lift; rewrite Hfan; reflexivity).
    erewrite bind_ok by reflexivity.
    destruct (map_M_returns
                (fun lin : Linear =>
                   (lin <- VPINN.draw Rng (xavier_normal_ lin) ;;
                    VPINN.draw Rng (uniform_ a b lin))%monad)
                hidden) with (s := snd (nn_Linear fan_in 2 r1))
      as (hidden' & r2 & Hhidden' & Hhlen').
    { intros lin s. eexists. eexists. reflexivity. }
    erewrite bind_ok by exact Hhidden'.
    erewrite bind_ok by reflexivity.
    eexists. split; [reflexivity|].
    cbn [VPINN.lins VPINN.cfg VPINN.length VPINN.epoch VPINN.history VPINN.training].
    assert (Hlins : length (hidden' ++ [zeros_ (fst (xavier_normal_ (fst (nn_Linear fan_in 2 r1)) r2))])
                    = (n - 1)%nat).
    { rewrite length_app, Hhlen', Hhlen, length_zip_with, length_take, length_drop, length_take.
      fold n. simpl. lia. }
    split; [exact Hlins|]. split; [reflexivity|].
    split; [unfold VPINN.len; cbn [VPINN.length]; rewrite Hlins; fold n; lia|].
    repeat split.
Qed.


(** X19. What [__init__] asks of [layers]. An empty list raises
    [IndexError] (at [layers[-1]]), a last entry other than 2 raises
    [AssertionError], and the one-entry list [[2]] raises [IndexError] (at
    [layers[-2]], after the assertion has passed). When [__init__]
    returns, [layers] has at least two entries and ends with 2, the solver
    has one layer less than [layers] has entries, [__len__()] is the
    number of hidden layers, and the solver starts at epoch 0, with an
    empty history, in training mode. *)
Theorem vpinn_init_layers f k a b ga gb (layers : list Z) activation penalty quad_N
    seed (r : Rng) :
  let o := init f k a b ga gb layers activation penalty quad_N seed r in
  (layers = [] -> value o = Raise IndexError)
  /\ (forall w : Z, py_index layers (-1) = Ok w -> w <> 2%Z ->
        value o = Raise AssertionError)
  /\ (layers = [2%Z] -> value o = Raise IndexError)
  /\ (forall s, value o = Ok s ->
        (2 <= length layers)%nat /\ py_index layers (-1) = Ok 2%Z
        /\ length (VPINN.lins s) = (length layers - 1)%nat
        /\ VPINN.length (VPINN.cfg s) = length layers
        /\ VPINN.len (VPINN.cfg s) = (Z.of_nat (length (VPINN.lins s)) - 1)%Z
        /\ VPINN.epoch s = 0%Z
        /\ VPINN.history s = VPINN.mkHistory [] [] None
        /\ VPINN.training s = true).
Proof.
  cbv zeta.
  destruct (init_accepts f k a b ga gb layers activation penalty quad_N seed r)
    as (Hempty & Hlast & Hone & Hacc).
  cbv zeta in Hempty, Hlast, Hone, Hacc.
  split; [exact Hempty|]. split; [exact Hlast|]. split; [exact Hone|].
  intros s Hs.
  destruct layers as [|w0 rest]; [rewrite Hempty in Hs by reflexivity; discriminate|].
  destruct (py_index_valid (w0 :: rest) (-1)) as [w Hw];
    [unfold valid_index; simpl length; lia|].
  destruct (Z.eq_dec w 2%Z) as [->|Hne];
    [|rewrite (Hlast w Hw Hne) in Hs; discriminate].
  destruct rest as [|w1 rest].
  - assert (w0 = 2%Z) by (cbv in Hw; congruence). subst w0.
    rewrite Hone in Hs by reflexivity. discriminate.
  - destruct Hacc as (s0 & Hs0 & Hprops); [simpl; lia|exact Hw|].
    rewrite Hs0 in Hs. injection Hs as <-.
    split; [simpl; lia|]. split; [exact Hw|]. exact Hprops.
Qed.

End VPINN_construction.

(** ** The losses *)

(** A property of every value the last step of a computation can return
    holds of every value the computation returns. *)
Lemma rbind_all {A B : Type} (P : B -> Prop) (r : result A) (k : A -> result B) :
  (forall x v, k x = Ok v -> P v) -> forall v, rbind r k = Ok v -> P v.
Proof. intros Hk v. destruct r as [x|e]; simpl; [apply Hk|discriminate]. Qed.

Lemma rbind_returns {A B : Type} (r : result A) (k : A -> result B) (x : A) :
  r = Ok x -> (exists v, k x = Ok v) -> exists v, rbind r k = Ok v.
Proof. intros -> Hk. exact Hk. Qed.

Lemma rbind_raises {A B : Type} (r : result A) (k : A -> result B) (x : A) (e : exn) :
  r = Ok x -> k x = Raise e -> rbind r k = Raise e.
Proof. intros -> Hk. exact Hk. Qed.

Lemma sum_of_squares_nonneg (x y : R) : (0 <= x ^ 2 + y ^ 2)%R.
Proof. pose proof (pow2_ge_0 x). pose proof (pow2_ge_0 y). lra. Qed.

Lemma intg_given_raises c (func : list R -> result VPINN.tensor) (qp : list R * list R)
    (e : exn) :
  fst qp <> [] -> func (fst qp) = Raise e -> VPINN.intg c func (Some qp) = Raise e.
Proof.
  intros Hroots Hfunc. unfold VPINN.intg.
  destruct (py_index_nonempty _ (-1) Hroots) as [hi ->]; [lia|].
  destruct (py_index_nonempty _ 0 Hroots) as [lo ->]; [lia|].
  cbn [rbind]. rewrite Hfunc. reflexivity.
Qed.

Section VPINN_losses.

Variable Linear : Type.
Variable apply_linear : Linear -> list R -> list R.
Variable autograd : VPINN.traced -> VPINN.traced.

Local Abbreviation forward := (VPINN.forward Linear apply_linear).
Local Abbreviation component := (VPINN.component Linear apply_linear autograd).
Local Abbreviation base_loss_v := (VPINN.loss_v Linear apply_linear autograd).
Local Abbreviation hf_loss_v := (VPINN_HF.loss_v Linear apply_linear autograd).

(** The real and the imaginary part of the output of the network, as
    [deriv] differentiates them on a tensor of the class. *)
Local Abbreviation f_re c ls := (VPINN.mkTraced (fun t => fst (forward c ls t)) true).
Local Abbreviation f_im c ls := (VPINN.mkTraced (fun t => snd (forward c ls t)) true).

Ltac last_step :=
  repeat (apply rbind_all; intros ?; cbv beta).

Lemma base_loss_v_nonneg c ls v_k qp r : base_loss_v c ls v_k qp = Ok r -> (0 <= r)%R.
Proof.
  revert r. unfold VPINN.loss_v. last_step.
  intros r [= <-]. apply sum_of_squares_nonneg.
Qed.

Lemma hf_loss_v_nonneg c ls v_k qp r : hf_loss_v c ls v_k qp = Ok r -> (0 <= r)%R.
Proof.
  revert r. unfold VPINN_HF.loss_v. cbv zeta. last_step.
  intros r [= <-]. apply sum_of_squares_nonneg.
Qed.

Lemma component_low_order c ls (n : Z) im xs :
  (n = 0 \/ n = 1)%Z -> exists col, component c ls n im xs = Ok col.
Proof.
  intros [-> | ->]; unfold VPINN.component, VPINN.deriv; simpl; eauto.
Qed.

(** [deriv(2, x)] on a tensor of the class: both second derivatives are
    there when the graphs of both first derivatives hold [x], and
    [RuntimeError] is raised when one of them does not. *)
Lemma component_second_order c ls im xs :
  VPINN.holds_x (autograd (f_re c ls)) = true ->
  VPINN.holds_x (autograd (f_im c ls)) = true ->
  exists col, component c ls 2 im xs = Ok col.
Proof.
  intros Hre Him. unfold VPINN.component, VPINN.deriv, VPINN.grad.
  cbn [existsb Z.eqb Pos.eqb negb orb VPINN.holds_x VPINN.requires_grad rbind].
  rewrite Hre, Him. cbn [rbind]. eauto.
Qed.

Lemma component_second_order_unused c ls im xs :
  VPINN.holds_x (autograd (f_re c ls)) = false
  \/ VPINN.holds_x (autograd (f_im c ls)) = false ->
  component c ls 2 im xs = Raise RuntimeError.
Proof.
  intros Hunused. unfold VPINN.component, VPINN.deriv, VPINN.grad.
  cbn [existsb Z.eqb Pos.eqb negb orb VPINN.holds_x VPINN.requires_grad rbind].
  destruct (VPINN.holds_x (autograd (f_re c ls))); [|reflexivity].
  destruct Hunused as [|Him]; [discriminate|]. rewrite Him. reflexivity.
Qed.

Section On_nodes.

Variable c : VPINN.config.
Variable ls : list Linear.
Variable v_k : VPINN.testfn.
Variable qp : list R * list R.
Hypothesis Hroots : fst qp <> [].

Lemma intg_on_nodes (func : list R -> result VPINN.tensor) :
  (exists t, func (fst qp) = Ok t) -> exists y, VPINN.intg c func (Some qp) = Ok y.
Proof. apply intg_given_returns. exact Hroots. Qed.

Lemma at1_returns (g : list R -> result (list R)) (t : R) :
  (forall xs, exists col, g xs = Ok col) -> exists y, VPINN_HF.at1 g t = Ok y.
Proof.
  intros Hg. unfold VPINN_HF.at1. destruct (Hg [t]) as [col ->]. cbn [rbind]. eauto.
Qed.

Lemma intg2_returns (g : list R -> result (list R)) (q : list R -> list R) :
  (forall xs, exists col, g xs = Ok col) -> exists y, VPINN_HF.intg2 c g q qp = Ok y.
Proof.
  intros Hg. unfold VPINN_HF.intg2. apply intg_on_nodes.
  destruct (Hg (fst qp)) as [col ->]. cbn [rbind]. eauto.
Qed.

Lemma u_re_returns xs : exists col, VPINN_HF.u_re Linear apply_linear autograd c ls xs = Ok col.
Proof. apply component_low_order. lia. Qed.

Lemma u_im_returns xs : exists col, VPINN_HF.u_im Linear apply_linear autograd c ls xs = Ok col.
Proof. apply component_low_order. lia. Qed.

Lemma u_x_re_returns xs :
  exists col, VPINN_HF.u_x_re Linear apply_linear autograd c ls xs = Ok col.
Proof. apply component_low_order. lia. Qed.

Lemma u_x_im_returns xs :
  exists col, VPINN_HF.u_x_im Linear apply_linear autograd c ls xs = Ok col.
Proof. apply component_low_order. lia. Qed.

Lemma Mu_re_returns xs :
  exists col, VPINN_HF.Mu_re Linear apply_linear autograd c ls xs = Ok col.
Proof.
  unfold VPINN_HF.Mu_re.
  destruct (u_x_re_returns xs) as [p ->]. destruct (u_im_returns xs) as [q ->].
  cbn [rbind]. eauto.
Qed.

Lemma Mu_im_returns xs :
  exists col, VPINN_HF.Mu_im Linear apply_linear autograd c ls xs = Ok col.
Proof.
  unfold VPINN_HF.Mu_im.
  destruct (u_x_im_returns xs) as [p ->]. destruct (u_re_returns xs) as [q ->].
  cbn [rbind]. eauto.
Qed.

Ltac lambda_returns :=
  first [ exact u_re_returns | exact u_im_returns | exact u_x_re_returns
        | exact u_x_im_returns | exact Mu_re_returns | exact Mu_im_returns ].

Ltac returns_step :=
  match goal with
  | |- exists r, rbind (VPINN_HF.intg2 _ ?g ?q _) _ = Ok r =>
      let y := fresh "y" in
      let Hy := fresh "Hy" in
      destruct (intg2_returns g q ltac:(lambda_returns)) as [y Hy];
      eapply rbind_returns; [exact Hy|]; cbv beta; clear Hy
  | |- exists r, rbind (VPINN_HF.at1 ?g ?t) _ = Ok r =>
      let y := fresh "y" in
      let Hy := fresh "Hy" in
      destruct (at1_returns g t ltac:(lambda_returns)) as [y Hy];
      eapply rbind_returns; [exact Hy|]; cbv beta; clear Hy
  end.

Ltac raises_step :=
  match goal with
  | |- rbind (VPINN_HF.intg2 _ ?g ?q _) _ = Raise _ =>
      let y := fresh "y" in
      let Hy := fresh "Hy" in
      destruct (intg2_returns g q ltac:(lambda_returns)) as [y Hy];
      eapply rbind_raises; [exact Hy|]; cbv beta; clear Hy
  end.

(** With both second derivatives in reach, [loss_v] of the subclass
    returns. *)
Lemma hf_loss_v_returns :
  VPINN.holds_x (autograd (f_re c ls)) = true ->
  VPINN.holds_x (autograd (f_im c ls)) = true ->
  exists r, hf_loss_v c ls v_k qp = Ok r.
Proof.
  intros Hre Him.
  assert (HLu_re : forall xs,
            exists col, VPINN_HF.Lu_re Linear apply_linear autograd c ls xs = Ok col).
  { intros xs. unfold VPINN_HF.Lu_re, VPINN_HF.u_xx_re.
    destruct (component_second_order c ls false xs Hre Him) as [p ->].
    destruct (u_re_returns xs) as [q ->]. cbn [rbind]. eauto. }
  assert (HLu_im : forall xs,
            exists col, VPINN_HF.Lu_im Linear apply_linear autograd c ls xs = Ok col).
  { intros xs. unfold VPINN_HF.Lu_im, VPINN_HF.u_xx_im.
    destruct (component_second_order c ls true xs Hre Him) as [p ->].
    destruct (u_im_returns xs) as [q ->]. cbn [rbind]. eauto. }
  unfold VPINN_HF.loss_v. cbv zeta.
  do 2 returns_step.
  match goal with
  | |- exists r, rbind (VPINN.intg _ ?func _) _ = Ok r =>
      destruct (intg_on_nodes func) as [z Hz];
      [cbv beta|eapply rbind_returns; [exact Hz|]; cbv beta; clear Hz]
  end.
  { destruct (Mu_re_returns (fst qp)) as [m ->]. destruct (HLu_re (fst qp)) as [l ->].
    cbn [rbind]. eauto. }
  repeat returns_step.
  match goal with
  | |- exists r, rbind (VPINN.intg _ ?func _) _ = Ok r =>
      destruct (intg_on_nodes func) as [z' Hz];
      [cbv beta|eapply rbind_returns; [exact Hz|]; cbv beta; clear Hz]
  end.
  { destruct (Mu_im_returns (fst qp)) as [m ->]. destruct (HLu_im (fst qp)) as [l ->].
    cbn [rbind]. eauto. }
  repeat returns_step.
  match goal with
  | |- exists r, rbind (VPINN.intg _ ?func _) _ = Ok r =>
      destruct (intg_on_nodes func) as [r1 Hz];
      [cbv beta; eauto|eapply rbind_returns; [exact Hz|]; cbv beta; clear Hz]
  end.
  match goal with
  | |- exists r, rbind (VPINN.intg _ ?func _) _ = Ok r =>
      destruct (intg_on_nodes func) as [r2 Hz];
      [cbv beta; eauto|eapply rbind_returns; [exact Hz|]; cbv beta; clear Hz]
  end.
  eauto.
Qed.

(** Without them, the third integral of [lhs_re], the first to use
    [u_xx], raises. *)
Lemma hf_loss_v_raises :
  VPINN.holds_x (autograd (f_re c ls)) = false
  \/ VPINN.holds_x (autograd (f_im c ls)) = false ->
  hf_loss_v c ls v_k qp = Raise RuntimeError.
Proof.
  intros Hunused.
  unfold VPINN_HF.loss_v. cbv zeta.
  do 2 raises_step.
  match goal with
  | |- rbind ?X _ = _ => assert (HX : X = Raise RuntimeError)
  end.
  { apply intg_given_raises; [exact Hroots|].
    destruct (Mu_re_returns (fst qp)) as [m ->]. cbn [rbind].
    unfold VPINN_HF.Lu_re, VPINN_HF.u_xx_re.
    rewrite (component_second_order_unused c ls false (fst qp) Hunused). reflexivity. }
  rewrite HX. reflexivity.
Qed.

End On_nodes.

Lemma loss_v_empty_nodes c ls v_k (ws : list R) :
  base_loss_v c ls v_k ([], ws) = Raise IndexError
  /\ hf_loss_v c ls v_k ([], ws) = Raise IndexError.
Proof. split; reflexivity. Qed.



End VPINN_losses.

(** ** The loss of an epoch *)

Lemma mapR_Forall {A B : Type} (P : B -> Prop) (g : A -> result B) (xs : list A) (ys : list B) :
  (forall x y, g x = Ok y -> P y) -> mapR g xs = Ok ys -> Forall P ys.
Proof.
  intros Hg. revert ys. induction xs as [|x xs IH]; simpl; intros ys.
  - intros [= <-]. constructor.
  - destruct (g x) as [y|] eqn:Hy; [|discriminate].
    destruct (mapR g xs) as [ys'|]; [|discriminate].
    intros [= <-]. constructor; eauto.
Qed.

Section VPINN_epoch_loss.

Variable Linear : Type.
Variable apply_linear : Linear -> list R -> list R.
Variable autograd : VPINN.traced -> VPINN.traced.
Variable self_loss_v :
  VPINN.config -> list Linear -> VPINN.testfn -> list R * list R -> result R.

Local Abbreviation epoch_loss := (VPINN.epoch_loss Linear apply_linear autograd self_loss_v).
Local Abbreviation residual_loss := (VPINN.residual_loss Linear self_loss_v).

Lemma residual_fold c ls (K : nat) (rest : list (VPINN.testfn * (list R * list R))) :
  forall acc : result VPINN.pyloss,
    fold_left
      (fun acc0 vq =>
         (l <- acc0 ;;
          t <- self_loss_v c ls (fst vq) (snd vq) ;;
          Ok (VPINN.add_term l (t / INR K)%R))%result)
      rest acc
    = match acc with
      | Raise e => Raise e
      | Ok l =>
          match mapR (fun vq => self_loss_v c ls (fst vq) (snd vq)) rest with
          | Raise e => Raise e
          | Ok ts => Ok (fold_left (fun l0 t => VPINN.add_term l0 (t / INR K)%R) ts l)
          end
      end.
Proof.
  induction rest as [|vq rest IH]; intros acc.
  - destruct acc; reflexivity.
  - cbn [fold_left mapR]. rewrite IH. destruct acc as [l|e]; cbn [rbind]; [|reflexivity].
    destruct (self_loss_v c ls (fst vq) (snd vq)) as [t|e]; cbn [rbind]; [|reflexivity].
    destruct (mapR _ rest); reflexivity.
Qed.

Lemma add_terms_tensor (K : nat) (ts : list R) (x : R) :
  exists y, fold_left (fun l0 t => VPINN.add_term l0 (t / INR K)%R) ts (VPINN.Tensor x)
            = VPINN.Tensor y
            /\ y = (x + Rsum ts / INR K)%R.
Proof.
  revert x. induction ts as [|t ts IH]; intros x.
  - exists x. split; [reflexivity|]. simpl. unfold Rdiv. ring.
  - cbn [fold_left VPINN.add_term]. destruct (IH (x + t / INR K)%R) as (y & Hy & ->).
    eexists. split; [exact Hy|]. simpl. unfold Rdiv. ring.
Qed.

(** X22. The residual part of the loss of an epoch is the mean of
    [loss_v] over the test functions: when every [loss_v] returns, the sum
    built by [loss += loss_v(v_k) / K] is a tensor of value
    [(sum of the loss_v) / K] for a list that is not empty, and it stays
    the integer 0 for an empty list; when a [loss_v] raises, the first
    exception raised is the outcome. *)
Theorem vpinn_residual_loss_mean c ls (tfs : list (VPINN.testfn * (list R * list R))) :
  (forall ts : list R,
     mapR (fun vq => self_loss_v c ls (fst vq) (snd vq)) tfs = Ok ts ->
     exists l, residual_loss c ls tfs = Ok l
               /\ loss_number l = (Rsum ts / INR (length tfs))%R
               /\ (tfs = [] <-> l = VPINN.PyInt 0))
  /\ (forall e : exn,
        mapR (fun vq => self_loss_v c ls (fst vq) (snd vq)) tfs = Raise e ->
        residual_loss c ls tfs = Raise e).
Proof.
  unfold VPINN.residual_loss. rewrite residual_fold.
  split; [|intros e ->; reflexivity].
  intros ts Hts. rewrite Hts.
  destruct tfs as [|vq tfs].
  - injection Hts as <-. exists (VPINN.PyInt 0). cbn. split; [reflexivity|].
    split; [unfold Rdiv; ring|tauto].
  - cbn [mapR] in Hts.
    destruct (self_loss_v c ls (fst vq) (snd vq)) as [t|]; [|discriminate].
    destruct (mapR _ tfs) as [ts'|]; [|discriminate]. injection Hts as <-.
    cbn [fold_left VPINN.add_term].
    destruct (add_terms_tensor (length (vq :: tfs)) ts' (IZR 0 + t / INR (length (vq :: tfs))))
      as (y & -> & ->).
    eexists. split; [reflexivity|]. split.
    + cbn [loss_number]. unfold Rsum, Rdiv. cbn [fold_right]. ring.
    + split; discriminate.
Qed.

Lemma pen_nonneg c ls (p y : R) :
  (0 <= p)%R -> VPINN.pen Linear apply_linear autograd c ls p = Ok y -> (0 <= y)%R.
Proof.
  intros Hp. revert y. unfold VPINN.pen.
  repeat (apply rbind_all; intros ?; cbv beta).
  intros y [= <-]. apply Rmult_le_pos; [lra|].
  repeat apply Rplus_le_le_0_compat; apply pow2_ge_0.
Qed.

(** X23. The loss of an epoch is not negative when no [loss_v] is and the
    penalty, if there is one, is not negative. *)
Theorem vpinn_epoch_loss_nonneg c ls (tfs : list (VPINN.testfn * (list R * list R)))
    (l : VPINN.pyloss) :
  (forall v_k qp r, self_loss_v c ls v_k qp = Ok r -> (0 <= r)%R) ->
  (forall p, VPINN.penalty c = Some p -> (0 <= p)%R) ->
  epoch_loss c ls tfs = Ok l -> (0 <= loss_number l)%R.
Proof.
  intros Hlv Hpen. unfold VPINN.epoch_loss.
  assert (Hres : forall l0, residual_loss c ls tfs = Ok l0 -> (0 <= loss_number l0)%R).
  { intros l0 Hl0. unfold VPINN.residual_loss in Hl0. rewrite residual_fold in Hl0.
    destruct (mapR _ tfs) as [ts|] eqn:Hts; [|discriminate]. injection Hl0 as <-.
    assert (Hnn : nonneg ts).
    { eapply mapR_Forall; [|exact Hts]. intros vq r Hr. cbv beta in Hr. eapply Hlv. exact Hr. }
    assert (Hgen : forall l1 : VPINN.pyloss, (0 <= loss_number l1)%R ->
               (0 <= loss_number
                       (fold_left (fun l2 t => VPINN.add_term l2 (t / INR (length tfs))%R)
                          ts l1))%R).
    { clear Hts. induction Hnn as [|t ts Ht _ IH]; intros l1 Hl1; [exact Hl1|].
      cbn [fold_left]. apply IH.
      assert (0 <= t / INR (length tfs))%R.
      { unfold Rdiv. destruct (length tfs) as [|K'].
        - cbn [INR]. rewrite Rinv_0. lra.
        - apply Rmult_le_pos; [exact Ht|]. left. apply Rinv_0_lt_compat.
          apply lt_0_INR. lia. }
      destruct l1; cbn [VPINN.add_term loss_number] in *; lra. }
    apply Hgen. cbn. lra. }
  destruct (residual_loss c ls tfs) as [l0|] eqn:Hl0; cbn [rbind]; [|discriminate].
  specialize (Hres l0 eq_refl).
  destruct (VPINN.truthy (VPINN.penalty c)); [|intros [= <-]; exact Hres].
  destruct (VPINN.penalty c) as [p|] eqn:Hp; [|intros [= <-]; exact Hres].
  destruct (VPINN.pen Linear apply_linear autograd c ls p) as [y|] eqn:Hy; cbn [rbind];
    [|discriminate].
  intros [= <-].
  pose proof (pen_nonneg c ls p y (Hpen p eq_refl) Hy).
  destruct l0; cbn [VPINN.add_term loss_number] in *; lra.
Qed.

End VPINN_epoch_loss.

(** ** Calls of [train_] that run no epoch to its end *)

Section VPINN_training_edges.

Variable Linear : Type.
Variable apply_linear : Linear -> list R -> list R.
Variable autograd : VPINN.traced -> VPINN.traced.
Variable gauss_lobatto_jacobi_quadrature1D : nat -> R -> R -> list R * list R.
Variable Opt : Type.
Variable Sch : Type.
Variable zero_grad : Opt -> list Linear -> list Linear.
Variable backward : (list Linear -> result VPINN.pyloss) -> list Linear -> list Linear.
Variable optimizer_step : Opt -> list Linear -> Opt * list Linear.
Variable scheduler_step : Sch -> Opt -> Sch * Opt.
Variable self_loss_v :
  VPINN.config -> list Linear -> VPINN.testfn -> list R * list R -> result R.

Local Abbreviation train_ :=
  (VPINN.train_ Linear apply_linear autograd gauss_lobatto_jacobi_quadrature1D
     Opt Sch zero_grad backward optimizer_step scheduler_step self_loss_v).
Local Abbreviation run_epoch :=
  (VPINN.run_epoch Linear apply_linear autograd
     Opt Sch zero_grad backward optimizer_step scheduler_step self_loss_v).
Local Abbreviation epoch_loss := (VPINN.epoch_loss Linear apply_linear autograd self_loss_v).

(** The solver as the lines of [train_] before the loop leave it: the error
    lists are created when [exact] is given and they are missing, and the
    approximator is put in training mode. *)
Lemma train_prologue (testfunctions : list VPINN.testfn) (n : Z) exact
    (st : VPINN.tstate Linear Opt Sch) :
  exists m0,
    VPINN.cfg m0 = VPINN.cfg (VPINN.model st)
    /\ VPINN.lins m0 = VPINN.lins (VPINN.model st)
    /\ VPINN.epoch m0 = VPINN.epoch (VPINN.model st)
    /\ VPINN.epochs (VPINN.history m0) = VPINN.epochs (VPINN.history (VPINN.model st))
    /\ VPINN.losses (VPINN.history m0) = VPINN.losses (VPINN.history (VPINN.model st))
    /\ VPINN.training m0 = true
    /\ train_ testfunctions n exact st
       = for_each
           (py_range (VPINN.epoch (VPINN.model st))
              (last_epoch (VPINN.epoch (VPINN.model st)) n + 1))
           (run_epoch
              (attached gauss_lobatto_jacobi_quadrature1D (VPINN.cfg (VPINN.model st))
                 testfunctions)
              (last_epoch (VPINN.epoch (VPINN.model st)) n) exact)
           (VPINN.mkTstate m0 (VPINN.optimizer st) (VPINN.scheduler st)).
Proof.
  destruct st as [m opt sch]. cbn [VPINN.model VPINN.optimizer VPINN.scheduler].
  set (prologue := match exact with
                   | Some _ =>
                       match VPINN.errors (VPINN.history m) with
                       | Some _ => m
                       | None =>
                           VPINN.set_history
                             (VPINN.mkHistory (VPINN.epochs (VPINN.history m))
                                (VPINN.losses (VPINN.history m)) (Some ([], [], []))) m
                       end
                   | None => m
                   end).
  exists (VPINN.set_training true prologue).
  assert (Hsame : VPINN.cfg prologue = VPINN.cfg m
                  /\ VPINN.epoch prologue = VPINN.epoch m
                  /\ VPINN.lins prologue = VPINN.lins m
                  /\ VPINN.epochs (VPINN.history prologue) = VPINN.epochs (VPINN.history m)
                  /\ VPINN.losses (VPINN.history prologue) = VPINN.losses (VPINN.history m)).
  { subst prologue.
    destruct exact; [destruct (VPINN.errors (VPINN.history m)) eqn:He|];
      cbn; repeat split. }
  destruct Hsame as (Hcfg & Hepoch & Hlins & Hepochs & Hlosses).
  cbn [VPINN.set_training VPINN.cfg VPINN.lins VPINN.epoch VPINN.history VPINN.training].
  repeat (split; [assumption || reflexivity|]).
  unfold VPINN.train_.
  erewrite bind_ok by reflexivity. cbn [VPINN.model].
  erewrite (bind_ok _ _ _ (VPINN.mkTstate prologue opt sch))
    by (subst prologue; destruct exact; [destruct (VPINN.errors (VPINN.history m))|];
        reflexivity).
  erewrite bind_ok by reflexivity.
  erewrite bind_ok by reflexivity.
  cbn [state modify VPINN.model VPINN.optimizer VPINN.scheduler VPINN.cfg
       VPINN.epoch VPINN.set_training].
  rewrite Hcfg, Hepoch. reflexivity.
Qed.

(** X24. With an empty list of test functions and no penalty, the loss of
    an epoch is the integer 0 it starts from. The first epoch of the call
    then raises [AttributeError]: at [loss.item()] when the epoch is one
    that is recorded (as the epoch 0 of a new solver is), after the epoch
    has been appended to [history['epochs']] and before a loss is, so that
    the two lists no longer go together; at [loss.backward()] otherwise,
    after [optimizer.zero_grad()]. No optimizer step is made and the
    counter does not move. *)
Theorem vpinn_train_no_testfunctions (n : Z) exact (st : VPINN.tstate Linear Opt Sch) :
  VPINN.truthy (VPINN.penalty (VPINN.cfg (VPINN.model st))) = false ->
  (VPINN.epoch (VPINN.model st) <= last_epoch (VPINN.epoch (VPINN.model st)) n)%Z ->
  let first := VPINN.epoch (VPINN.model st) in
  let o := train_ [] n exact st in
  VPINN.optimizer (state o) = VPINN.optimizer st
  /\ VPINN.epoch (VPINN.model (state o)) = first
  /\ VPINN.losses (VPINN.history (VPINN.model (state o)))
     = VPINN.losses (VPINN.history (VPINN.model st))
  /\ if sampled (last_epoch first n) first then
       value o = Raise (AttributeError "'int' object has no attribute 'item'")
       /\ VPINN.epochs (VPINN.history (VPINN.model (state o)))
          = VPINN.epochs (VPINN.history (VPINN.model st)) ++ [first]
       /\ VPINN.lins (VPINN.model (state o)) = VPINN.lins (VPINN.model st)
     else
       value o = Raise (AttributeError "'int' object has no attribute 'backward'")
       /\ VPINN.epochs (VPINN.history (VPINN.model (state o)))
          = VPINN.epochs (VPINN.history (VPINN.model st))
       /\ VPINN.lins (VPINN.model (state o))
          = zero_grad (VPINN.optimizer st) (VPINN.lins (VPINN.model st)).
Proof.
  intros Hpen Hrange. cbv zeta.
  destruct (train_prologue [] n exact st)
    as (m0 & Hcfg & Hlins & Hepoch & Hepochs & Hlosses & _ & ->).
  rewrite py_range_cons by lia. cbn [for_each].
  assert (Hloss : forall ls, epoch_loss (VPINN.cfg m0) ls [] = Ok (VPINN.PyInt 0)).
  { intros ls. unfold VPINN.epoch_loss, VPINN.residual_loss. cbn [fold_left rbind].
    rewrite Hcfg, Hpen. reflexivity. }
  unfold attached. cbn [map].
  change (((VPINN.epoch (VPINN.model st) mod 10 =? 0)
           || (VPINN.epoch (VPINN.model st)
               =? last_epoch (VPINN.epoch (VPINN.model st)) n))%Z)
    with (sampled (last_epoch (VPINN.epoch (VPINN.model st)) n)
            (VPINN.epoch (VPINN.model st))).
  set (last := last_epoch (VPINN.epoch (VPINN.model st)) n).
  set (first := VPINN.epoch (VPINN.model st)) in *.
  assert (Hrun : run_epoch [] last exact first
                   (VPINN.mkTstate m0 (VPINN.optimizer st) (VPINN.scheduler st))
                 = if sampled last first then
                     mkOutcome (Raise (AttributeError "'int' object has no attribute 'item'"))
                       (VPINN.mkTstate (VPINN.append_epoch first m0)
                          (VPINN.optimizer st) (VPINN.scheduler st)) []
                   else
                     mkOutcome
                       (Raise (AttributeError "'int' object has no attribute 'backward'"))
                       (VPINN.mkTstate
                          (VPINN.set_lins (zero_grad (VPINN.optimizer st) (VPINN.lins m0)) m0)
                          (VPINN.optimizer st) (VPINN.scheduler st)) []).
  { unfold VPINN.run_epoch.
    erewrite bind_ok by reflexivity.
    erewrite bind_ok
      by (unfold lift; cbn [VPINN.model VPINN.cfg VPINN.lins]; rewrite Hloss; reflexivity).
    change (((first mod 10 =? 0) || (first =? last))%Z) with (sampled last first).
    destruct (sampled last first).
    - erewrite bind_raise; [reflexivity|].
      unfold VPINN.record_sample.
      erewrite bind_ok by reflexivity.
      erewrite bind_raise; [reflexivity|]. reflexivity.
    - erewrite bind_ok by reflexivity.
      erewrite bind_raise; [reflexivity|].
      unfold VPINN.optimise.
      erewrite bind_ok by reflexivity.
      erewrite bind_ok by reflexivity.
      erewrite bind_raise; [reflexivity|]. reflexivity. }
  destruct (sampled last first) eqn:Hs; erewrite bind_raise by exact Hrun;
    cbn; rewrite ?Hlins, ?Hepochs, ?Hlosses, ?Hepoch; repeat split.
Qed.

(** X25. A call of [train_] whose range of epochs is empty ([epochs < 0] on
    a new solver, [epochs <= 0] on one that has been trained) returns
    without running anything: the layers, the optimizer, the scheduler,
    the counter and the recorded epochs and losses are as before, nothing
    is printed, and the approximator is in training mode. A missing
    scheduler and an empty list of test functions go unnoticed. *)
Theorem vpinn_train_no_epochs testfunctions (n : Z) exact
    (st : VPINN.tstate Linear Opt Sch) :
  (last_epoch (VPINN.epoch (VPINN.model st)) n < VPINN.epoch (VPINN.model st))%Z ->
  let o := train_ testfunctions n exact st in
  value o = Ok tt /\ stdout o = []
  /\ VPINN.lins (VPINN.model (state o)) = VPINN.lins (VPINN.model st)
  /\ VPINN.optimizer (state o) = VPINN.optimizer st
  /\ VPINN.scheduler (state o) = VPINN.scheduler st
  /\ VPINN.epoch (VPINN.model (state o)) = VPINN.epoch (VPINN.model st)
  /\ VPINN.epochs (VPINN.history (VPINN.model (state o)))
     = VPINN.epochs (VPINN.history (VPINN.model st))
  /\ VPINN.losses (VPINN.history (VPINN.model (state o)))
     = VPINN.losses (VPINN.history (VPINN.model st))
  /\ VPINN.training (VPINN.model (state o)) = true.
Proof.
  intros Hempty. cbv zeta.
  destruct (train_prologue testfunctions n exact st)
    as (m0 & Hcfg & Hlins & Hepoch & Hepochs & Hlosses & Htrain & ->).
  rewrite py_range_nil by lia. cbn.
  repeat split; assumption.
Qed.

End VPINN_training_edges.



(** ** What a call of [train_] that returns has done to the solver *)

Lemma for_each_snoc {St X : Type} (body : X -> M St unit) (xs : list X) (x : X)
    (s s' : St) (u : unit) :
  returns (for_each (xs ++ [x]) body) s u s' ->
  exists s1, returns (for_each xs body) s tt s1 /\ returns (body x) s1 tt s'.
Proof.
  revert s. induction xs as [|y xs IH]; intros s Hrun; cbn [app for_each] in Hrun.
  - apply returns_bind in Hrun as (w & s1 & H1 & H2).
    apply returns_ret in H2 as [_ ->]. exists s. split; [split; reflexivity|].
    destruct w. exact H1.
  - apply returns_bind in Hrun as (w & s1 & H1 & H2).
    destruct (IH s1 H2) as (s2 & Hxs & Hx). exists s2. split; [|exact Hx].
    destruct Hxs as [Hv Hs]. destruct H1 as [Hv1 Hs1]. split.
    + cbn [for_each]. unfold bind. rewrite Hv1. cbn. rewrite Hs1. exact Hv.
    + cbn [for_each]. unfold bind. rewrite Hv1. cbn. rewrite Hs1. exact Hs.
Qed.

Lemma py_range_snoc (lo hi : Z) :
  (lo <= hi)%Z -> py_range lo (hi + 1) = py_range lo hi ++ [hi].
Proof.
  intros Hle. unfold py_range.
  replace (Z.to_nat (hi + 1 - lo)) with (Z.to_nat (hi - lo) + 1)%nat by lia.
  rewrite seq_app, map_app. cbn [seq map]. do 2 f_equal. lia.
Qed.

Section VPINN_training_effects.

Variable Linear : Type.
Variable apply_linear : Linear -> list R -> list R.
Variable autograd : VPINN.traced -> VPINN.traced.
Variable gauss_lobatto_jacobi_quadrature1D : nat -> R -> R -> list R * list R.
Variable Opt : Type.
Variable Sch : Type.
Variable zero_grad : Opt -> list Linear -> list Linear.
Variable backward : (list Linear -> result VPINN.pyloss) -> list Linear -> list Linear.
Variable optimizer_step : Opt -> list Linear -> Opt * list Linear.
Variable scheduler_step : Sch -> Opt -> Sch * Opt.
Variable self_loss_v :
  VPINN.config -> list Linear -> VPINN.testfn -> list R * list R -> result R.

Local Abbreviation train_ :=
  (VPINN.train_ Linear apply_linear autograd gauss_lobatto_jacobi_quadrature1D
     Opt Sch zero_grad backward optimizer_step scheduler_step self_loss_v).
Local Abbreviation run_epoch :=
  (VPINN.run_epoch Linear apply_linear autograd
     Opt Sch zero_grad backward optimizer_step scheduler_step self_loss_v).
Local Abbreviation optimise :=
  (VPINN.optimise Linear Opt Sch zero_grad backward optimizer_step scheduler_step).
Local Abbreviation record_sample :=
  (VPINN.record_sample Linear apply_linear autograd Opt Sch).
Local Abbreviation H1_error := (VPINN.H1_error Linear apply_linear autograd).

Lemma returns_on_model {A : Type} (m : M (VPINN.vpinn Linear) A)
    (st st' : VPINN.tstate Linear Opt Sch) (v : A) :
  returns (VPINN.on_model Linear Opt Sch m) st v st' ->
  exists s', returns m (VPINN.model st) v s'
             /\ st' = VPINN.mkTstate s' (VPINN.optimizer st) (VPINN.scheduler st).
Proof.
  unfold returns, VPINN.on_model. cbn [value state]. intros [Hv Hs].
  exists (state (m (VPINN.model st))). repeat split; congruence.
Qed.

Lemma returns_update_model (g : VPINN.vpinn Linear -> VPINN.vpinn Linear)
    (st st' : VPINN.tstate Linear Opt Sch) (u : unit) :
  returns (VPINN.update_model Linear Opt Sch g) st u st' ->
  st' = VPINN.mkTstate (g (VPINN.model st)) (VPINN.optimizer st) (VPINN.scheduler st).
Proof.
  intros Hrun. apply returns_on_model in Hrun as (s' & Hm & ->).
  apply returns_modify in Hm as ->. reflexivity.
Qed.

Lemma returns_H1_error (u u_x : R -> C) (m m' : VPINN.vpinn Linear) (r : R * R * R) :
  returns (H1_error u u_x) m r m' -> m' = VPINN.set_training false m.
Proof.
  intros Hrun. unfold VPINN.H1_error in Hrun. run_inv. reflexivity.
Qed.

Ltac train_inv :=
  repeat (run_inv;
          match goal with
          | H : returns (VPINN.update_model _ _ _ _) _ _ _ |- _ =>
              apply returns_update_model in H; subst
          end);
  run_inv.

(** The optimisation writes the layers, the optimizer and the scheduler,
    and nothing else of the solver. *)
Lemma returns_optimise graph loss (st st' : VPINN.tstate Linear Opt Sch) (u : unit) :
  returns (optimise graph loss) st u st' ->
  exists ls', VPINN.model st' = VPINN.set_lins ls' (VPINN.model st).
Proof.
  intros Hrun. unfold VPINN.optimise in Hrun. train_inv.
  destruct loss; train_inv.
  match goal with
  | H : returns (match ?sch with Some _ => _ | None => _ end) _ _ _ |- _ =>
      destruct sch; train_inv
  end.
  cbn. eexists. reflexivity.
Qed.

(** The block that records a sample: one epoch and one loss are appended;
    with [exact], one error is appended to each of the three lists and the
    approximator is left in evaluation mode. *)
Lemma returns_record_sample exact (e : Z) loss (st st' : VPINN.tstate Linear Opt Sch)
    (u : unit) :
  returns (record_sample exact e loss) st u st' ->
  let h := VPINN.history (VPINN.model st) in
  let h' := VPINN.history (VPINN.model st') in
  exists l : R,
    VPINN.epochs h' = VPINN.epochs h ++ [e]
    /\ VPINN.losses h' = VPINN.losses h ++ [l]
    /\ match exact with
       | None =>
           VPINN.errors h' = VPINN.errors h
           /\ VPINN.training (VPINN.model st') = VPINN.training (VPINN.model st)
       | Some _ =>
           (exists tot so de (r : R * R * R),
              VPINN.errors h = Some (tot, so, de)
              /\ VPINN.errors h'
                 = Some (tot ++ [fst (fst r)], so ++ [snd (fst r)], de ++ [snd r]))
           /\ VPINN.training (VPINN.model st') = false
       end.
Proof.
  intros Hrun. cbv zeta. unfold VPINN.record_sample in Hrun. train_inv.
  match goal with
  | H : VPINN.item loss = Ok ?l |- _ => exists l
  end.
  destruct exact as [[u0 u_x]|]; train_inv.
  - match goal with
    | H : returns (VPINN.on_model _ _ _ _) _ _ _ |- _ =>
        apply returns_on_model in H as (m1 & HH1 & ->);
        apply returns_H1_error in HH1; subst m1
    end.
    train_inv.
    match goal with
    | H : VPINN.append_error _ _ = Ok _ |- _ =>
        unfold VPINN.append_error in H; cbn in H
    end.
    destruct (VPINN.errors (VPINN.history (VPINN.model st))) as [[[tot so] de]|] eqn:Herr;
      [|discriminate].
    match goal with
    | H : Ok _ = Ok _ |- _ => injection H as <-
    end.
    cbn. split; [reflexivity|]. split; [reflexivity|]. split; [|reflexivity].
    eexists. eexists. eexists. eexists. split; reflexivity.
  - cbn. repeat split.
Qed.

(** One epoch that returns, seen from the history and the mode. *)
Lemma returns_run_epoch tfs (last : Z) exact (e : Z)
    (st st' : VPINN.tstate Linear Opt Sch) (u : unit) :
  returns (run_epoch tfs last exact e) st u st' ->
  (aligned (VPINN.history (VPINN.model st)) ->
   aligned (VPINN.history (VPINN.model st')))
  /\ VPINN.training (VPINN.model st')
     = match exact with
       | Some _ => if sampled last e then false else VPINN.training (VPINN.model st)
       | None => VPINN.training (VPINN.model st)
       end.
Proof.
  intros Hrun. unfold VPINN.run_epoch in Hrun. train_inv.
  match goal with
  | H : returns (optimise _ _) ?s1 _ ?s2 |- _ =>
      apply returns_optimise in H as [ls' Hopt]
  end.
  cbn [VPINN.model VPINN.set_epoch VPINN.history VPINN.training].
  rewrite Hopt. cbn [VPINN.set_lins VPINN.history VPINN.training].
  change (((e mod 10 =? 0) || (e =? last))%Z) with (sampled last e) in *.
  destruct (sampled last e).
  - match goal with
    | H : returns (record_sample _ _ _) _ _ _ |- _ =>
        apply returns_record_sample in H as (l & Hepochs & Hlosses & Hrest)
    end.
    cbv zeta in Hepochs, Hlosses, Hrest. split.
    + intros [Hlen Herrs]. unfold aligned. rewrite Hepochs, Hlosses, !length_app, Hlen.
      split; [reflexivity|].
      destruct exact as [[u0 u_x]|].
      * destruct Hrest as [(tot & so & de & r & Hbefore & ->) _].
        rewrite Hbefore in Herrs. rewrite !length_app. cbn [length]. lia.
      * destruct Hrest as [-> _]. exact Herrs.
    + destruct exact as [[u0 u_x]|]; apply Hrest.
  - train_inv. split; [tauto|]. destruct exact; reflexivity.
Qed.

(** After the lines of [train_] before the loop. *)
Lemma returns_train_ testfunctions (n : Z) exact (st st' : VPINN.tstate Linear Opt Sch)
    (u : unit) :
  returns (train_ testfunctions n exact) st u st' ->
  exists st0 : VPINN.tstate Linear Opt Sch,
    VPINN.training (VPINN.model st0) = true
    /\ VPINN.epoch (VPINN.model st0) = VPINN.epoch (VPINN.model st)
    /\ (aligned (VPINN.history (VPINN.model st)) ->
        aligned (VPINN.history (VPINN.model st0)))
    /\ returns
         (for_each
            (py_range (VPINN.epoch (VPINN.model st))
               (last_epoch (VPINN.epoch (VPINN.model st)) n + 1))
            (run_epoch
               (attached gauss_lobatto_jacobi_quadrature1D (VPINN.cfg (VPINN.model st0))
                  testfunctions)
               (last_epoch (VPINN.epoch (VPINN.model st)) n) exact))
         st0 u st'.
Proof.
  intros Hrun. unfold VPINN.train_ in Hrun. train_inv.
  match goal with
  | H : returns (for_each _ _) ?s0 _ _ |- _ => exists s0
  end.
  match goal with
  | H : returns (match exact with Some _ => _ | None => _ end) _ _ ?s1 |- _ =>
      assert (Hpro : VPINN.epoch (VPINN.model s1) = VPINN.epoch (VPINN.model st)
                     /\ (aligned (VPINN.history (VPINN.model st)) ->
                         aligned (VPINN.history (VPINN.model s1))));
      [destruct exact as [p|];
       [destruct (VPINN.errors (VPINN.history (VPINN.model st))) eqn:Herr|];
       train_inv; cbn; split; try reflexivity; try tauto|]
  end.
  - intros [Hlen _]. split; [exact Hlen|]. cbn. lia.
  - destruct Hpro as [Hepoch Hal].
    cbn [VPINN.model VPINN.set_training VPINN.training VPINN.epoch VPINN.history VPINN.cfg]
      in *.
    split; [reflexivity|]. split; [exact Hepoch|]. split; [exact Hal|].
    rewrite <- Hepoch. assumption.
Qed.

(** X27. A call of [train_] that returns leaves a history whose lists go
    together when they did before: as many losses as epochs, and three
    error lists of one length. *)
Theorem vpinn_train_history_aligned testfunctions (n : Z) exact
    (st st' : VPINN.tstate Linear Opt Sch) :
  returns (train_ testfunctions n exact) st tt st' ->
  aligned (VPINN.history (VPINN.model st)) ->
  aligned (VPINN.history (VPINN.model st')).
Proof.
  intros Hrun Hal.
  apply returns_train_ in Hrun as (st0 & _ & _ & Hal0 & Hloop).
  eapply (for_each_invariant (fun s => aligned (VPINN.history (VPINN.model s))));
    [|apply Hal0; exact Hal|exact Hloop].
  intros e s u s' _ Hs Hpass. apply returns_run_epoch in Hpass as [Hkeep _].
  apply Hkeep. exact Hs.
Qed.

(** X26. [H1_error] switches the approximator to evaluation mode and
    [train_] switches it to training mode once, before its loop. A call
    of [train_] that returns therefore leaves the approximator in
    evaluation mode when [exact] is given and at least one epoch ran (the
    last epoch is always recorded), and in training mode otherwise. *)
Theorem vpinn_train_leaves_mode testfunctions (n : Z) exact
    (st st' : VPINN.tstate Linear Opt Sch) :
  returns (train_ testfunctions n exact) st tt st' ->
  VPINN.training (VPINN.model st')
  = match exact with
    | Some _ =>
        if (VPINN.epoch (VPINN.model st)
            <=? last_epoch (VPINN.epoch (VPINN.model st)) n)%Z
        then false else true
    | None => true
    end.
Proof.
  intros Hrun.
  apply returns_train_ in Hrun as (st0 & Hmode & Hepoch & _ & Hloop).
  destruct exact as [p|].
  - destruct (Z.leb_spec (VPINN.epoch (VPINN.model st))
                (last_epoch (VPINN.epoch (VPINN.model st)) n)) as [Hle|Hlt].
    + rewrite py_range_snoc in Hloop by exact Hle.
      apply for_each_snoc in Hloop as (s1 & _ & Hlast).
      apply returns_run_epoch in Hlast as [_ ->].
      unfold sampled. rewrite Z.eqb_refl, orb_true_r. reflexivity.
    + rewrite py_range_nil in Hloop by lia.
      apply returns_ret in Hloop as [_ ->]. exact Hmode.
  - eapply (for_each_invariant (fun s => VPINN.training (VPINN.model s) = true));
      [|exact Hmode|exact Hloop].
    intros e s u s' _ Hs Hpass. apply returns_run_epoch in Hpass as [_ ->]. exact Hs.
Qed.

End VPINN_training_effects.


Lemma vpinn_forward_feeds_witness :
  VPINN.forward Demo.Linear Demo.apply_linear (Demo.config None) Demo.lins 0
  = (nth 0 (feed Demo.Linear Demo.apply_linear (fun t => t) Demo.lins [0%R]) 0%R,
     nth 1 (feed Demo.Linear Demo.apply_linear (fun t => t) Demo.lins [0%R]) 0%R).
Proof.
  apply (vpinn_forward_feeds Demo.Linear Demo.apply_linear (Demo.config None) Demo.lins 0).
  simpl. lia.
Defined.

Lemma vpinn_init_layers_witness :
  exists s,
    value (Demo.vpinn None None 7%Z) = Ok s
    /\ length (VPINN.lins s) = 2%nat /\ VPINN.len (VPINN.cfg s) = 1%Z.
Proof.
  pose (s := Demo.returned (Demo.vpinn None None 7%Z) (Demo.model None)).
  assert (Hs : value (Demo.vpinn None None 7%Z) = Ok s) by reflexivity.
  destruct (vpinn_init_layers Demo.Linear Demo.Rng Demo.manual_seed Demo.nn_Linear
              Demo.xavier_normal_ Demo.uniform_ Demo.zeros_ Demo.quadrature
              (fun _ => 1%R) 1 0 1 (1, 0)%R (0, 0)%R [1; 3; 2]%Z (fun t => t) None 1
              None 7%Z) as (_ & _ & _ & Hok).
  destruct (Hok s Hs) as (_ & _ & Hlins & _ & Hlen & _).
  exists s. split; [exact Hs|]. split; [exact Hlins|]. rewrite Hlen, Hlins. reflexivity.
Defined.



Lemma vpinn_residual_loss_mean_witness :
  let tfs := attached Demo.quadrature (Demo.config None) Demo.testfunctions in
  exists (r : R) (l : VPINN.pyloss),
    mapR (fun vq => Demo.loss_v (Demo.config None) Demo.lins (fst vq) (snd vq)) tfs = Ok [r]
    /\ VPINN.residual_loss Demo.Linear Demo.loss_v (Demo.config None) Demo.lins tfs = Ok l
    /\ loss_number l = (Rsum [r] / INR 1)%R.
Proof.
  cbv zeta.
  pose (tfs := attached Demo.quadrature (Demo.config None) Demo.testfunctions).
  pose (r := Demo.returned
               (lift (Demo.loss_v (Demo.config None) Demo.lins
                        (VPINN.mkTestfn (fun t => t) (fun _ _ => 1%R) None)
                        ([0%R; 1%R], [1%R; 1%R])) tt) 0%R).
  assert (Hts : mapR (fun vq => Demo.loss_v (Demo.config None) Demo.lins (fst vq) (snd vq)) tfs
                = Ok [r]) by (vm_compute; reflexivity).
  destruct (proj1 (vpinn_residual_loss_mean Demo.Linear Demo.loss_v (Demo.config None)
                     Demo.lins tfs) [r] Hts) as (l & Hl & Hmean & _).
  exists r, l. split; [exact Hts|]. split; [exact Hl|exact Hmean].
Defined.

Lemma vpinn_epoch_loss_nonneg_witness :
  let tfs := attached Demo.quadrature (Demo.config None) Demo.testfunctions in
  exists l : VPINN.pyloss,
    VPINN.epoch_loss Demo.Linear Demo.apply_linear Demo.autograd Demo.loss_v
      (Demo.config None) Demo.lins tfs = Ok l
    /\ (0 <= loss_number l)%R.
Proof.
  cbv zeta.
  pose (tfs := attached Demo.quadrature (Demo.config None) Demo.testfunctions).
  pose (l := Demo.returned
               (lift (VPINN.epoch_loss Demo.Linear Demo.apply_linear Demo.autograd
                        Demo.loss_v (Demo.config None) Demo.lins tfs) tt)
               (VPINN.PyInt 0)).
  assert (Hl : VPINN.epoch_loss Demo.Linear Demo.apply_linear Demo.autograd Demo.loss_v
                 (Demo.config None) Demo.lins tfs = Ok l) by (vm_compute; reflexivity).
  exists l. split; [exact Hl|].
  apply (vpinn_epoch_loss_nonneg Demo.Linear Demo.apply_linear Demo.autograd Demo.loss_v
           (Demo.config None) Demo.lins tfs l).
  - intros v_k qp r0. apply base_loss_v_nonneg.
  - intros p Hp. discriminate Hp.
  - exact Hl.
Defined.

Lemma vpinn_train_no_testfunctions_witness :
  let o := Demo.train_nothing 1 (Demo.start (Some 0%nat)) in
  value o = Raise (AttributeError "'int' object has no attribute 'item'")
  /\ VPINN.epochs (VPINN.history (VPINN.model (state o))) = [0%Z]
  /\ VPINN.losses (VPINN.history (VPINN.model (state o))) = []
  /\ VPINN.optimizer (state o) = 0%nat.
Proof.
  cbv zeta.
  pose proof (vpinn_train_no_testfunctions Demo.Linear Demo.apply_linear Demo.autograd
                Demo.quadrature Demo.Opt Demo.Sch Demo.zero_grad Demo.backward
                Demo.optimizer_step Demo.scheduler_step Demo.loss_v
                1 None (Demo.start (Some 0%nat)) eq_refl ltac:(vm_compute; discriminate))
    as H.
  cbv zeta in H. destruct H as (Hopt & _ & Hlosses & Hsampled).
  change (sampled (last_epoch (VPINN.epoch (VPINN.model (Demo.start (Some 0%nat)))) 1)
            (VPINN.epoch (VPINN.model (Demo.start (Some 0%nat))))) with true in Hsampled.
  destruct Hsampled as (Hvalue & Hepochs & _).
  split; [exact Hvalue|]. split; [exact Hepochs|]. split; [exact Hlosses|exact Hopt].
Defined.

Lemma vpinn_train_no_epochs_witness :
  let o := Demo.train_ (-1) (Demo.start None) in
  value o = Ok tt /\ stdout o = []
  /\ VPINN.epoch (VPINN.model (state o)) = 0%Z
  /\ VPINN.scheduler (state o) = None.
Proof.
  cbv zeta.
  pose proof (vpinn_train_no_epochs Demo.Linear Demo.apply_linear Demo.autograd
                Demo.quadrature Demo.Opt Demo.Sch Demo.zero_grad Demo.backward
                Demo.optimizer_step Demo.scheduler_step Demo.loss_v
                Demo.testfunctions (-1) None (Demo.start None)
                ltac:(vm_compute; reflexivity)) as H.
  cbv zeta in H. destruct H as (Hvalue & Hout & _ & _ & Hsch & Hepoch & _).
  split; [exact Hvalue|]. split; [exact Hout|]. split; [exact Hepoch|exact Hsch].
Defined.

Lemma vpinn_train_leaves_mode_witness :
  let o := Demo.train_exact 1 (Demo.start (Some 0%nat)) in
  value o = Ok tt /\ VPINN.training (VPINN.model (state o)) = false.
Proof.
  cbv zeta.
  assert (Hrun : returns (Demo.train_exact 1) (Demo.start (Some 0%nat)) tt
                   (state (Demo.train_exact 1 (Demo.start (Some 0%nat)))))
    by (split; [vm_compute; reflexivity|reflexivity]).
  split; [exact (proj1 Hrun)|].
  exact (vpinn_train_leaves_mode Demo.Linear Demo.apply_linear Demo.autograd
           Demo.quadrature Demo.Opt Demo.Sch Demo.zero_grad Demo.backward
           Demo.optimizer_step Demo.scheduler_step Demo.loss_v
           Demo.testfunctions 1 (Some (fun _ => Cx.zero, fun _ => Cx.j))
           (Demo.start (Some 0%nat)) _ Hrun).
Defined.

Lemma vpinn_train_history_aligned_witness :
  let o := Demo.train_exact 1 (Demo.start (Some 0%nat)) in
  value o = Ok tt /\ aligned (VPINN.history (VPINN.model (state o))).
Proof.
  cbv zeta.
  assert (Hrun : returns (Demo.train_exact 1) (Demo.start (Some 0%nat)) tt
                   (state (Demo.train_exact 1 (Demo.start (Some 0%nat)))))
    by (split; [vm_compute; reflexivity|reflexivity]).
  split; [exact (proj1 Hrun)|].
  apply (vpinn_train_history_aligned Demo.Linear Demo.apply_linear Demo.autograd
           Demo.quadrature Demo.Opt Demo.Sch Demo.zero_grad Demo.backward
           Demo.optimizer_step Demo.scheduler_step Demo.loss_v
           Demo.testfunctions 1 (Some (fun _ => Cx.zero, fun _ => Cx.j))
           (Demo.start (Some 0%nat)) _ Hrun).
  split; [reflexivity|exact I].
Defined.
